(** * Annual demand forecast: share validation, cohort allocation,
      dose calculation and forecast generation

    A shallow embedding of the deterministic core of the pipeline
    ([validation.ts], [cohortAllocator.ts], [population.ts], [exposure.ts],
    [forecast.ts]) together with the properties its specification states.
    [population.ts] is taken in the form that goes through the cohort
    allocator, [exposure.ts] in the form that reads the maintenance
    interval from the notes.

    Numbers.  A JavaScript [number] is modelled by [number]: either [NaN] or
    a finite value carried as an exact rational.  Finite arithmetic is exact
    (rounding of doubles is idealised away); a comparison with [NaN] is
    false, arithmetic on [NaN] gives [NaN], and a division by zero gives
    [NaN] (exactly what JavaScript does for [0/0]; the infinities are not
    represented).  The properties below either exclude a zero divisor by
    their hypotheses or concern a result that is [NaN] in JavaScript too.
    Configuration tolerances and vial sizes are finite and carried as [Q].

    Objects.  A [Record<string, number>] is the list of its entries in
    insertion order; [Set] and [Map] are lists without repeated keys, grown
    at the end.  Keys are taken not to name a member of [Object.prototype].
    Strings are byte strings.  Log calls have no effect on results and are
    left out; message texts are kept as structured values whose
    constructor is the template and whose arguments are the interpolated
    values. *)

From Stdlib Require Import QArith Qround Qabs List String Ascii Bool ZArith Lia Lqa Permutation.
Import ListNotations.
Local Open Scope Q_scope.

(* ------------------------------------------------------------------ *)
(** ** JavaScript values *)

Inductive number : Type :=
| NaN
| Fin (q : Q).

Module JS.

Definition lift2 (f : Q -> Q -> Q) (a b : number) : number :=
  match a, b with
  | Fin x, Fin y => Fin (f x y)
  | _, _ => NaN
  end.

Definition add : number -> number -> number := lift2 Qplus.
Definition sub : number -> number -> number := lift2 Qminus.
Definition mul : number -> number -> number := lift2 Qmult.

Definition div (a b : number) : number :=
  match a, b with
  | Fin x, Fin y => if Qeq_bool y 0 then NaN else Fin (x / y)
  | _, _ => NaN
  end.

(** [Math.abs] *)
Definition abs (a : number) : number :=
  match a with
  | Fin x => Fin (Qabs x)
  | NaN => NaN
  end.

(** [Math.round]: the nearest integer, halves going up. *)
Definition round (a : number) : number :=
  match a with
  | Fin x => Fin (inject_Z (Qfloor (x + (1 # 2))))
  | NaN => NaN
  end.

(** [Math.pow(a, n)] for a non-negative integer exponent; [Math.pow(NaN, 0)]
    is 1. *)
Definition pow (a : number) (n : nat) : number :=
  match n with
  | O => Fin 1
  | _ => match a with
         | Fin x => Fin (x ^ Z.of_nat n)
         | NaN => NaN
         end
  end.

Definition Qlt_bool (x y : Q) : bool := negb (Qle_bool y x).

(** [a < b], [a > b], [a <= b], [a >= b]: false as soon as a side is [NaN]. *)
Definition lt (a b : number) : bool :=
  match a, b with
  | Fin x, Fin y => Qlt_bool x y
  | _, _ => false
  end.

Definition gt (a b : number) : bool := lt b a.

Definition le (a b : number) : bool :=
  match a, b with
  | Fin x, Fin y => Qle_bool x y
  | _, _ => false
  end.

Definition ge (a b : number) : bool := le b a.

(** [a === b] on numbers. *)
Definition strict_eq (a b : number) : bool :=
  match a, b with
  | Fin x, Fin y => Qeq_bool x y
  | _, _ => false
  end.

Definition isNaN (a : number) : bool :=
  match a with
  | NaN => true
  | Fin _ => false
  end.

(** Truthiness of a number: [0] and [NaN] are falsy. *)
Definition truthy (a : number) : bool :=
  match a with
  | NaN => false
  | Fin x => negb (Qeq_bool x 0)
  end.

(** Truthiness of a possibly missing number ([undefined] is falsy). *)
Definition truthy_opt (a : option number) : bool :=
  match a with
  | Some x => truthy x
  | None => false
  end.

(** [a || d] for a possibly missing number [a]. *)
Definition or_default (a : option number) (d : number) : number :=
  match a with
  | Some x => if truthy x then x else d
  | None => d
  end.

(** Truthiness of a possibly null string: [null] and the empty string are
    falsy. *)
Definition truthy_str (s : option string) : bool :=
  match s with
  | Some EmptyString => false
  | Some _ => true
  | None => false
  end.

(** [s || d] for a possibly null string. *)
Definition str_or (s : option string) (d : string) : string :=
  match s with
  | Some EmptyString => d
  | Some x => x
  | None => d
  end.

(** [a === b] on possibly null strings. *)
Definition opt_str_eq (a b : option string) : bool :=
  match a, b with
  | Some x, Some y => String.eqb x y
  | None, None => true
  | _, _ => false
  end.

(** [Record<string, V>]: entries in insertion order. *)
Definition Record_ (V : Type) : Type := list (string * V).

(** [r[k]], [None] standing for [undefined]. *)
Fixpoint get {V : Type} (k : string) (r : Record_ V) : option V :=
  match r with
  | [] => None
  | (k', v) :: r' => if String.eqb k k' then Some v else get k r'
  end.

(** [r[k] = v]: overwrite in place, or append a new entry. *)
Fixpoint put {V : Type} (k : string) (v : V) (r : Record_ V) : Record_ V :=
  match r with
  | [] => [(k, v)]
  | (k', v') :: r' =>
      if String.eqb k k' then (k', v) :: r' else (k', v') :: put k v r'
  end.

Definition values {V : Type} (r : Record_ V) : list V := map snd r.
Definition keys {V : Type} (r : Record_ V) : list string := map fst r.

(** [xs.includes(x)] on strings. *)
Definition includes (x : string) (xs : list string) : bool :=
  existsb (String.eqb x) xs.

(** [Set.add]. *)
Definition set_add (x : string) (xs : list string) : list string :=
  if includes x xs then xs else xs ++ [x].

(** [values.reduce((a, b) => a + b, 0)] *)
Definition sum_of (xs : list number) : number :=
  fold_left add xs (Fin 0).

(** [s.toLowerCase()], on the letters A to Z (strings are byte strings). *)
Definition lower_char (c : ascii) : ascii :=
  let n := nat_of_ascii c in
  if (65 <=? n)%nat && (n <=? 90)%nat then ascii_of_nat (n + 32) else c.

Fixpoint toLowerCase (s : string) : string :=
  match s with
  | EmptyString => EmptyString
  | String c s' => String (lower_char c) (toLowerCase s')
  end.

(** [s.startsWith(p)] *)
Fixpoint startsWith (p s : string) : bool :=
  match p, s with
  | EmptyString, _ => true
  | String a p', String b s' => Ascii.eqb a b && startsWith p' s'
  | String _ _, EmptyString => false
  end.

(** [s.includes(p)] on strings: [p] occurs somewhere in [s]. *)
Fixpoint str_includes (p s : string) : bool :=
  startsWith p s ||
  match s with
  | EmptyString => false
  | String _ s' => str_includes p s'
  end.

(** Equality of numbers up to the representation of the rational. *)
Definition same (a b : number) : Prop :=
  match a, b with
  | NaN, NaN => True
  | Fin x, Fin y => x == y
  | _, _ => False
  end.

End JS.

Infix "~=" := JS.same (at level 70, no associativity).

(* ------------------------------------------------------------------ *)
(** ** Messages (errors and warnings) *)

(** One constructor per message template of the source; the arguments are
    the values interpolated into it. *)
Inductive message : Type :=
| MustBeValidNumber (name : string) (key : option string)
| CannotBeNegative (name : string) (key : option string) (value : number)
| CannotExceedOne (name : string) (key : option string) (value : number)
| SharesCannotBeEmpty (dimension_name : string)
| Renormalized (dimension_name : string) (sum : number)
| SharesMustSumToOne (dimension_name : string) (tolerance : Q) (sum : number)
| PatientLoss (dimension_name : string) (sum : number)
| ExceedsMaximumPopulation (name : string) (population : number) (maximum : number)
| VeryLargePopulation (name : string) (population : number)
| NoPrevalenceProvided
| NoIncidenceProvided
| NoBasePopulation
| EqualDistribution (shares_name : string) (equal_share : number)
| RegimenRenormalized (path_sum : number) (pathKey : string)
| RegimenEqualSplit (count : nat) (equal_share : number)
| MonthsOnTreatment (tot_months : number)
| ConservationCheck (total_allocated treated_pool conservation_ratio : number).

(** The [Error]s the core throws. *)
Inductive error : Type :=
| ValidationFailed (context : string) (errors : list message)
| NoRegimenShares (pathKey : string)
| TypeError (property : string).

(** The outcome of a call: a value, a thrown [Error], or no return at all
    (a loop that never exits). *)
Inductive outcome (A : Type) : Type :=
| Ok (a : A)
| Throw (e : error)
| Diverge.

Arguments Ok {A} a.
Arguments Throw {A} e.
Arguments Diverge {A}.

Definition bind {A B : Type} (m : outcome A) (f : A -> outcome B) : outcome B :=
  match m with
  | Ok a => f a
  | Throw e => Throw e
  | Diverge => Diverge
  end.

Notation "x <- m ;; k" := (bind m (fun x => k))
  (at level 61, m at next level, right associativity).
Notation "m ;;; k" := (bind m (fun _ => k))
  (at level 61, right associativity).

(* ------------------------------------------------------------------ *)
(** ** validation.ts *)

Module Validation.

Record ValidationConfig : Type := {
  allow_share_renormalization : bool;
  allow_equal_regimen_split : bool;
  share_sum_tolerance : Q;
  max_renormalization_deviation : Q;
  max_population : option number
}.

Definition DEFAULT_VALIDATION_CONFIG : ValidationConfig := {|
  allow_share_renormalization := true;
  allow_equal_regimen_split := true;
  share_sum_tolerance := 0.05;
  max_renormalization_deviation := 0.15;
  max_population := Some (Fin 350000000)
|}.

Record ValidationResult : Type := {
  valid : bool;
  errors : list message;
  warnings : list message;
  normalized_value : option (JS.Record_ number)
}.

Record ShareValidationTrace : Type := {
  original_shares : JS.Record_ number;
  original_sum : number;
  normalized_shares : JS.Record_ number;
  normalized : bool;
  warning : option message
}.

(** [validateRate(rate, name)] *)
Definition validateRate (rate : number) (name : string) : ValidationResult :=
  if JS.isNaN rate then
    {| valid := false; errors := [MustBeValidNumber name None];
       warnings := []; normalized_value := None |}
  else if JS.lt rate (Fin 0) then
    {| valid := false; errors := [CannotBeNegative name None rate];
       warnings := []; normalized_value := None |}
  else if JS.gt rate (Fin 1) then
    {| valid := false; errors := [CannotExceedOne name None rate];
       warnings := []; normalized_value := None |}
  else
    {| valid := true; errors := []; warnings := []; normalized_value := None |}.

(** The body of the loop that checks one entry of a share map: the errors
    it pushes (none when the entry is acceptable). *)
Definition check_share (dimension_name : string) (entry : string * number)
  : list message :=
  let '(key, value) := entry in
  if JS.isNaN value then [MustBeValidNumber dimension_name (Some key)]
  else
    (if JS.lt value (Fin 0)
     then [CannotBeNegative dimension_name (Some key) value] else [])
    ++
    (if JS.gt value (Fin 1)
     then [CannotExceedOne dimension_name (Some key) value] else []).

(** The whole loop over [Object.entries(shares)]. *)
Definition check_shares (dimension_name : string) (shares : JS.Record_ number)
  : list message :=
  flat_map (check_share dimension_name) shares.

(** The object built by [normalized[key] = value / sum] over the entries. *)
Definition renormalize (shares : JS.Record_ number) (sum : number)
  : JS.Record_ number :=
  map (fun '(key, value) => (key, JS.div value sum)) shares.

(** [validateShares(shares, dimension_name, config)] *)
Definition validateShares (shares : JS.Record_ number) (dimension_name : string)
  (config : ValidationConfig) : ValidationResult * ShareValidationTrace :=
  match shares with
  | [] =>
      ({| valid := false; errors := [SharesCannotBeEmpty dimension_name];
          warnings := []; normalized_value := None |},
       {| original_shares := shares; original_sum := Fin 0;
          normalized_shares := []; normalized := false; warning := None |})
  | _ =>
      match check_shares dimension_name shares with
      | (_ :: _) as errs =>
          ({| valid := false; errors := errs;
              warnings := []; normalized_value := None |},
           {| original_shares := shares; original_sum := Fin 0;
              normalized_shares := []; normalized := false; warning := None |})
      | [] =>
          let sum := JS.sum_of (JS.values shares) in
          let deviation := JS.abs (JS.sub sum (Fin 1)) in
          if JS.gt deviation (Fin (share_sum_tolerance config)) then
            if JS.gt sum (Fin 1) then
              if allow_share_renormalization config
                 && JS.le deviation (Fin (max_renormalization_deviation config))
              then
                let normalized := renormalize shares sum in
                let w := Renormalized dimension_name sum in
                ({| valid := true; errors := []; warnings := [w];
                    normalized_value := Some normalized |},
                 {| original_shares := shares; original_sum := sum;
                    normalized_shares := normalized; normalized := true;
                    warning := Some w |})
              else
                ({| valid := false;
                    errors := [SharesMustSumToOne dimension_name
                                 (share_sum_tolerance config) sum];
                    warnings := []; normalized_value := None |},
                 {| original_shares := shares; original_sum := sum;
                    normalized_shares := []; normalized := false;
                    warning := None |})
            else
              if JS.gt deviation (Fin (max_renormalization_deviation config)) then
                ({| valid := true; errors := [];
                    warnings := [PatientLoss dimension_name sum];
                    normalized_value := Some shares |},
                 {| original_shares := shares; original_sum := sum;
                    normalized_shares := shares; normalized := false;
                    warning := None |})
              else if allow_share_renormalization config then
                let normalized := renormalize shares sum in
                let w := Renormalized dimension_name sum in
                ({| valid := true; errors := []; warnings := [w];
                    normalized_value := Some normalized |},
                 {| original_shares := shares; original_sum := sum;
                    normalized_shares := normalized; normalized := true;
                    warning := Some w |})
              else
                ({| valid := true; errors := []; warnings := [];
                    normalized_value := Some shares |},
                 {| original_shares := shares; original_sum := sum;
                    normalized_shares := shares; normalized := false;
                    warning := None |})
          else
            ({| valid := true; errors := []; warnings := [];
                normalized_value := Some shares |},
             {| original_shares := shares; original_sum := sum;
                normalized_shares := shares; normalized := false;
                warning := None |})
      end
  end.

(** [validatePopulation(population, name, config)] *)
Definition validatePopulation (population : number) (name : string)
  (config : ValidationConfig) : ValidationResult :=
  if JS.isNaN population then
    {| valid := false; errors := [MustBeValidNumber name None];
       warnings := []; normalized_value := None |}
  else
    let e1 := if JS.lt population (Fin 0)
              then [CannotBeNegative name None population] else [] in
    let e2 := match max_population config with
              | Some m =>
                  if JS.truthy m && JS.gt population m
                  then [ExceedsMaximumPopulation name population m] else []
              | None => []
              end in
    let w := if JS.gt population (Fin 100000000)
             then [VeryLargePopulation name population] else [] in
    {| valid := match e1 ++ e2 with [] => true | _ => false end;
       errors := e1 ++ e2; warnings := w; normalized_value := None |}.

(** [throwIfInvalid(result, context)] *)
Definition throwIfInvalid (result : ValidationResult) (context : string)
  : outcome unit :=
  if valid result then Ok tt
  else Throw (ValidationFailed context (errors result)).

(** [aggregateValidationResults(results)] *)
Definition aggregateValidationResults (results : list ValidationResult)
  : ValidationResult :=
  {| valid := forallb valid results;
     errors := flat_map errors results;
     warnings := flat_map warnings results;
     normalized_value := None |}.

End Validation.

(* ------------------------------------------------------------------ *)
(** ** domain/types.ts *)

(** The fields the deterministic core reads; descriptive fields (names,
    citations, confidence) are left out. *)
Module Types.

Inductive DoseType : Type := mg_per_kg | fixed_mg | mg_per_m2 | other_type.

Record MaintenanceDose : Type := {
  value : number;
  unit : string
}.

Record LoadingDose : Type := {
  loading_value : number;
  loading_unit : string;
  repeats : option number
}.

Record DoseSchema : Type := {
  type : DoseType;
  loading : option LoadingDose;
  maintenance : MaintenanceDose;
  interval_days : number;
  notes : option string
}.

Inductive Route : Type := IV | SC | PO | IM | other.

Record TreatmentNode : Type := {
  node_id : string;
  subtype_key : option string;
  setting_key : option string;
  stage_key : option string;
  line_key : option string;
  regimen_key : string;
  route : Route;
  dose_schema : DoseSchema
}.

Record TreatmentMap : Type := {
  disease : string;
  molecule : string;
  nodes : list TreatmentNode
}.

(** Vial sizes are finite quantities. *)
Record VialSize : Type := {
  size_mg : Q;
  is_single_dose : bool
}.

Record VialSizes : Type := {
  vials_IV : option (list VialSize);
  vials_SC : option (list VialSize)
}.

Inductive Weight : Type :=
| WeightNumber (kg : number)
| WeightDistribution (mean sd : number).

Record ScenarioParameters : Type := {
  incidence_cagr : number;
  treated_rate_multiplier : number;
  tot_multiplier : number;
  adoption_multiplier : number
}.

Record Assumptions : Type := {
  base_year : number;
  horizon_years : number;
  avg_weight_kg : Weight;
  vial_sizes : VialSizes;
  incidence : option number;
  prevalence : option number;
  subtype_shares : option (JS.Record_ number);
  stage_shares : option (JS.Record_ number);
  setting_shares : option (JS.Record_ number);
  treated_rate : number;
  line_shares : option (JS.Record_ number);
  time_on_treatment_months : option (JS.Record_ number);
  relative_dose_intensity : option number;
  scenarios : option (JS.Record_ ScenarioParameters)
}.

Record PopulationNode : Type := {
  pn_node_id : string;
  eligible_patients : number;
  pn_treated_patients : number;
  pn_patient_years : number
}.

Record DemandNode : Type := {
  dn_node_id : string;
  dn_treated_patients : number;
  administered_mg_per_patient_year : number;
  dispensed_mg_per_patient_year : number;
  total_administered_mg : number;
  total_dispensed_mg : number
}.

Record ForecastRecord : Type := {
  year : number;
  fr_node_id : string;
  scenario : string;
  fr_treated_patients : number;
  fr_patient_years : number;
  fr_administered_mg_per_patient_year : number;
  fr_total_administered_mg : number;
  fr_total_dispensed_mg : number
}.

End Types.

(* ------------------------------------------------------------------ *)
(** ** cohortAllocator.ts *)

Module CohortAllocator.

Import Validation.

Inductive PopulationModel : Type := prevalence_based | incidence_based | auto.

Inductive BasePoolSource : Type := from_prevalence | from_incidence.

(** [CohortAllocationConfig extends ValidationConfig] *)
Record CohortAllocationConfig : Type := {
  validation : ValidationConfig;
  population_model : PopulationModel;
  regimen_shares : option (JS.Record_ number)
}.

Definition DEFAULT_ALLOCATION_CONFIG : CohortAllocationConfig := {|
  validation := DEFAULT_VALIDATION_CONFIG;
  population_model := auto;
  regimen_shares := None
|}.

Record AllocationTrace : Type := {
  step : string;
  input_population : number;
  share_applied : option number;
  share_key : option string;
  output_population : number;
  normalized : option bool;
  note : option message
}.

Record CohortPath : Type := {
  subtype_key : option string;
  setting_key : option string;
  line_key : option string;
  regimen_key : string
}.

Record LeafCohort : Type := {
  cohort_id : string;
  path : CohortPath;
  patients : number;
  patient_years : number;
  trace : list AllocationTrace
}.

Record ShareTraces : Type := {
  trace_subtype_shares : option ShareValidationTrace;
  trace_setting_shares : option ShareValidationTrace;
  trace_line_shares : option ShareValidationTrace
}.

Record CohortAllocationResult : Type := {
  base_pool : number;
  base_pool_source : BasePoolSource;
  treated_pool : number;
  leaf_cohorts : list LeafCohort;
  total_allocated : number;
  share_traces : ShareTraces;
  conservation_ratio : number;
  warnings : list message
}.

(** The entry of [unique_paths] for one path key. *)
Record PathInfo : Type := {
  path_subtype_key : option string;
  path_setting_key : option string;
  path_line_key : option string;
  regimen_keys : list string
}.

(** [buildPathKey] *)
Definition buildPathKey (subtype_key setting_key line_key : option string)
  : string :=
  (JS.str_or subtype_key "_" ++ "|" ++ JS.str_or setting_key "_" ++ "|"
   ++ JS.str_or line_key "_")%string.

(** [parts.join('_')] *)
Fixpoint join_underscore (parts : list string) : string :=
  match parts with
  | [] => EmptyString
  | [p] => p
  | p :: rest => (p ++ "_" ++ join_underscore rest)%string
  end.

(** [buildCohortId] *)
Definition buildCohortId (subtype_key setting_key line_key : option string)
  (regimen_key : string) : string :=
  let part (k : option string) : list string :=
    match k with
    | Some s => if JS.truthy_str k then [s] else []
    | None => []
    end in
  join_underscore (part subtype_key ++ part setting_key ++ part line_key
                   ++ [regimen_key]).

(** [filterSharesForDimension] *)
Definition filterSharesForDimension (shares : JS.Record_ number)
  (dimension_keys : list string) : JS.Record_ number :=
  flat_map (fun key => match JS.get key shares with
                       | Some v => [(key, v)]
                       | None => []
                       end) dimension_keys.

(** Step 1: the base population, its source and the warnings of the step. *)
Definition select_base_pool (config : CohortAllocationConfig)
  (assumptions : Types.Assumptions)
  : number * BasePoolSource * list message :=
  match population_model config with
  | prevalence_based =>
      (JS.or_default (Types.prevalence assumptions) (Fin 0), from_prevalence,
       if JS.truthy_opt (Types.prevalence assumptions) then []
       else [NoPrevalenceProvided])
  | incidence_based =>
      (JS.or_default (Types.incidence assumptions) (Fin 0), from_incidence,
       if JS.truthy_opt (Types.incidence assumptions) then []
       else [NoIncidenceProvided])
  | auto =>
      match Types.prevalence assumptions, Types.incidence assumptions with
      | Some p, i =>
          if JS.truthy p && JS.gt p (Fin 0) then (p, from_prevalence, [])
          else match i with
               | Some n =>
                   if JS.truthy n && JS.gt n (Fin 0)
                   then (n, from_incidence, [])
                   else (Fin 0, from_prevalence, [NoBasePopulation])
               | None => (Fin 0, from_prevalence, [NoBasePopulation])
               end
      | None, Some n =>
          if JS.truthy n && JS.gt n (Fin 0) then (n, from_incidence, [])
          else (Fin 0, from_prevalence, [NoBasePopulation])
      | None, None => (Fin 0, from_prevalence, [NoBasePopulation])
      end
  end.

(** Step 3: the distinct truthy values of one dimension key, in order of
    first appearance. *)
Definition unique_values (key : Types.TreatmentNode -> option string)
  (nodes : list Types.TreatmentNode) : list string :=
  fold_left (fun acc node =>
               match key node with
               | Some s => if JS.truthy_str (key node) then JS.set_add s acc
                           else acc
               | None => acc
               end) nodes [].

Definition size (xs : list string) : number :=
  Fin (inject_Z (Z.of_nat (List.length xs))).

(** Step 4 for one dimension: the normalized shares, the warnings pushed
    and the validation trace recorded.  The source repeats this block for
    subtype, setting and line. *)
Definition dimension_shares (unique : list string)
  (raw : option (JS.Record_ number)) (name : string)
  (config : CohortAllocationConfig)
  : outcome (JS.Record_ number * list message * option ShareValidationTrace) :=
  match unique, raw with
  | _ :: _, Some shares =>
      let '(result, tr) :=
        validateShares (filterSharesForDimension shares unique) name
          (validation config) in
      throwIfInvalid result name ;;;
      Ok (match normalized_value result with Some n => n | None => [] end,
          Validation.warnings result, Some tr)
  | _ :: _, None =>
      let equal_share := JS.div (Fin 1) (size unique) in
      Ok (map (fun k => (k, equal_share)) unique,
          [EqualDistribution name equal_share], None)
  | [], _ => Ok ([], [], None)
  end.

(** The body of the loop that builds [unique_paths]. *)
Definition add_path (paths : JS.Record_ PathInfo) (node : Types.TreatmentNode)
  : JS.Record_ PathInfo :=
  let pathKey := buildPathKey (Types.subtype_key node) (Types.setting_key node)
                   (Types.line_key node) in
  let paths1 :=
    match JS.get pathKey paths with
    | Some _ => paths
    | None =>
        paths ++ [(pathKey,
                   {| path_subtype_key := Types.subtype_key node;
                      path_setting_key := Types.setting_key node;
                      path_line_key := Types.line_key node;
                      regimen_keys := [] |})]
    end in
  match JS.get pathKey paths1 with
  | Some p =>
      if JS.includes (Types.regimen_key node) (regimen_keys p) then paths1
      else JS.put pathKey
             {| path_subtype_key := path_subtype_key p;
                path_setting_key := path_setting_key p;
                path_line_key := path_line_key p;
                regimen_keys := regimen_keys p ++ [Types.regimen_key node] |}
             paths1
  | None => paths1
  end.

Definition unique_paths (nodes : list Types.TreatmentNode)
  : JS.Record_ PathInfo :=
  fold_left add_path nodes [].

(** One "apply share" block of the allocation loop: the population after
    the dimension and the trace entries pushed. *)
Definition apply_share (step_name : string) (key : option string)
  (shares : JS.Record_ number) (norm : option bool)
  (current_population : number) : number * list AllocationTrace :=
  match key with
  | Some k =>
      if JS.truthy_str key then
        match JS.get k shares with
        | Some share =>
            let new_population := JS.mul current_population share in
            (new_population,
             [{| step := step_name; input_population := current_population;
                 share_applied := Some share; share_key := Some k;
                 output_population := new_population; normalized := norm;
                 note := None |}])
        | None => (current_population, [])
        end
      else (current_population, [])
  | None => (current_population, [])
  end.

(** What steps 1 to 4 leave for the allocation loop. *)
Record Prepared : Type := {
  prep_base_pool : number;
  prep_source : BasePoolSource;
  prep_treated_rate : number;
  prep_treated_pool : number;
  prep_subtype_shares : JS.Record_ number;
  prep_setting_shares : JS.Record_ number;
  prep_line_shares : JS.Record_ number;
  prep_traces : ShareTraces;
  prep_warnings : list message
}.

Definition trace_normalized (t : option ShareValidationTrace) : option bool :=
  match t with
  | Some tr => Some (Validation.normalized tr)
  | None => None
  end.

(** The population of a path after the subtype, setting and line shares,
    with the trace accumulated so far. *)
Definition path_population (prep : Prepared) (info : PathInfo)
  : number * list AllocationTrace :=
  let start :=
    {| step := "start"; input_population := prep_base_pool prep;
       share_applied := Some (prep_treated_rate prep);
       share_key := Some "treated_rate"%string;
       output_population := prep_treated_pool prep;
       normalized := None; note := None |} in
  let '(p1, t1) :=
    apply_share "subtype_allocation" (path_subtype_key info)
      (prep_subtype_shares prep)
      (trace_normalized (trace_subtype_shares (prep_traces prep)))
      (prep_treated_pool prep) in
  let '(p2, t2) :=
    apply_share "setting_allocation" (path_setting_key info)
      (prep_setting_shares prep)
      (trace_normalized (trace_setting_shares (prep_traces prep))) p1 in
  let '(p3, t3) :=
    apply_share "line_allocation" (path_line_key info)
      (prep_line_shares prep)
      (trace_normalized (trace_line_shares (prep_traces prep))) p2 in
  (p3, start :: t1 ++ t2 ++ t3).

(** [regimens.some(r => regimen_shares[r] !== undefined)] *)
Definition has_regimen_shares (regimen_shares : JS.Record_ number)
  (regimens : list string) : bool :=
  existsb (fun r => match JS.get r regimen_shares with
                    | Some _ => true
                    | None => false
                    end) regimens.

(** The shares given to the regimens of one path, and the trace entry
    pushed while building them. *)
Definition build_path_regimen_shares (regimen_shares : JS.Record_ number)
  (pathKey : string) (regimens : list string) (current_population : number)
  : JS.Record_ number * list AllocationTrace :=
  if has_regimen_shares regimen_shares regimens then
    let provided :=
      map (fun r => (r, JS.or_default (JS.get r regimen_shares) (Fin 0)))
        regimens in
    let path_sum := JS.sum_of (JS.values provided) in
    if JS.gt path_sum (Fin 0)
       && JS.gt (JS.abs (JS.sub path_sum (Fin 1))) (Fin 0.001)
    then
      (map (fun r => (r, JS.div (JS.or_default (JS.get r provided) (Fin 0))
                           path_sum)) regimens,
       [{| step := "regimen_renormalization";
           input_population := current_population;
           share_applied := None; share_key := None;
           output_population := current_population; normalized := None;
           note := Some (RegimenRenormalized path_sum pathKey) |}])
    else (provided, [])
  else
    let equal_share := JS.div (Fin 1) (size regimens) in
    (map (fun r => (r, equal_share)) regimens,
     [{| step := "regimen_equal_split";
         input_population := current_population;
         share_applied := None; share_key := None;
         output_population := current_population; normalized := None;
         note := Some (RegimenEqualSplit (List.length regimens) equal_share) |}]).

(** The months on treatment that apply to a path: the entry of
    [time_on_treatment_months] for its line, when the line and the entry are
    truthy. *)
Definition time_on_treatment (assumptions : Types.Assumptions)
  (info : PathInfo) : option (string * number) :=
  match path_line_key info, Types.time_on_treatment_months assumptions with
  | Some l, Some months =>
      if JS.truthy_str (path_line_key info) then
        match JS.get l months with
        | Some m => if JS.truthy m then Some (l, m) else None
        | None => None
        end
      else None
  | _, _ => None
  end.

(** The leaf cohort created for one regimen of a path. *)
Definition make_leaf (assumptions : Types.Assumptions) (info : PathInfo)
  (path_regimen_shares : JS.Record_ number) (current_population : number)
  (trace_so_far : list AllocationTrace) (regimen : string) : LeafCohort :=
  let regimen_share :=
    JS.or_default (JS.get regimen path_regimen_shares) (Fin 0) in
  let regimen_population := JS.mul current_population regimen_share in
  let regimen_trace :=
    trace_so_far ++
    [{| step := "regimen_allocation"; input_population := current_population;
        share_applied := Some regimen_share; share_key := Some regimen;
        output_population := regimen_population; normalized := None;
        note := None |}] in
  let tot := time_on_treatment assumptions info in
  let patient_years :=
    match tot with
    | Some (_, tot_months) =>
        JS.mul regimen_population (JS.div tot_months (Fin 12))
    | None => regimen_population
    end in
  {| cohort_id := buildCohortId (path_subtype_key info) (path_setting_key info)
                    (path_line_key info) regimen;
     path := {| subtype_key := path_subtype_key info;
                setting_key := path_setting_key info;
                line_key := path_line_key info;
                regimen_key := regimen |};
     patients := regimen_population;
     patient_years := patient_years;
     trace :=
       match tot with
       | Some (l, tot_months) =>
           regimen_trace ++
           [{| step := "patient_years_calculation";
               input_population := regimen_population;
               share_applied := Some (JS.div tot_months (Fin 12));
               share_key := Some ("ToT_" ++ l)%string;
               output_population := patient_years; normalized := None;
               note := Some (MonthsOnTreatment tot_months) |}]
       | None => regimen_trace
       end |}.

(** One iteration of the allocation loop: the leaf cohorts of a path, or
    the error thrown for it. *)
Definition allocate_path (assumptions : Types.Assumptions)
  (config : CohortAllocationConfig) (prep : Prepared)
  (entry : string * PathInfo) : outcome (list LeafCohort) :=
  let '(pathKey, info) := entry in
  let '(current_population, tr) := path_population prep info in
  let regimens := regimen_keys info in
  let shares := match regimen_shares config with
                | Some s => s
                | None => []
                end in
  if negb (has_regimen_shares shares regimens)
     && negb (allow_equal_regimen_split (validation config))
  then Throw (NoRegimenShares pathKey)
  else
    let '(path_regimen_shares, tr') :=
      build_path_regimen_shares shares pathKey regimens current_population in
    Ok (map (make_leaf assumptions info path_regimen_shares current_population
               (tr ++ tr')) regimens).

(** The allocation loop over [unique_paths]. *)
Fixpoint allocate_paths (assumptions : Types.Assumptions)
  (config : CohortAllocationConfig) (prep : Prepared)
  (paths : JS.Record_ PathInfo) : outcome (list LeafCohort) :=
  match paths with
  | [] => Ok []
  | entry :: rest =>
      leaves <- allocate_path assumptions config prep entry ;;
      more <- allocate_paths assumptions config prep rest ;;
      Ok (leaves ++ more)
  end.

(** Steps 1 to 4 of [allocateCohorts].  [treated_rate] is a required field
    of the assumptions, so its default ([?? 1.0]) does not arise. *)
Definition prepare (treatment_map : Types.TreatmentMap)
  (assumptions : Types.Assumptions) (config : CohortAllocationConfig)
  : outcome Prepared :=
  let '(base_pool, source, w0) := select_base_pool config assumptions in
  let pop_validation :=
    validatePopulation base_pool "base_pool" (validation config) in
  throwIfInvalid pop_validation "base_pool" ;;;
  let treated_rate := Types.treated_rate assumptions in
  throwIfInvalid (validateRate treated_rate "treated_rate") "treated_rate" ;;;
  let treated_pool := JS.mul base_pool treated_rate in
  let nodes := Types.nodes treatment_map in
  let unique_subtypes := unique_values Types.subtype_key nodes in
  let unique_settings := unique_values Types.setting_key nodes in
  let unique_lines := unique_values Types.line_key nodes in
  s <- dimension_shares unique_subtypes (Types.subtype_shares assumptions)
         "subtype_shares" config ;;
  let raw_setting_shares :=
    match Types.setting_shares assumptions with
    | Some x => Some x
    | None => Types.stage_shares assumptions
    end in
  t <- dimension_shares unique_settings raw_setting_shares
         "setting_shares" config ;;
  l <- dimension_shares unique_lines (Types.line_shares assumptions)
         "line_shares" config ;;
  let '(s_shares, s_warn, s_trace) := s in
  let '(t_shares, t_warn, t_trace) := t in
  let '(l_shares, l_warn, l_trace) := l in
  Ok {| prep_base_pool := base_pool;
        prep_source := source;
        prep_treated_rate := treated_rate;
        prep_treated_pool := treated_pool;
        prep_subtype_shares := s_shares;
        prep_setting_shares := t_shares;
        prep_line_shares := l_shares;
        prep_traces := {| trace_subtype_shares := s_trace;
                          trace_setting_shares := t_trace;
                          trace_line_shares := l_trace |};
        prep_warnings := w0 ++ Validation.warnings pop_validation
                         ++ s_warn ++ t_warn ++ l_warn |}.

(** Step 6: the conservation figures computed from the leaf cohorts. *)
Definition conservation (prep : Prepared) (config : CohortAllocationConfig)
  (leaves : list LeafCohort) : number * number * list message :=
  let total := JS.sum_of (map patients leaves) in
  let pool := prep_treated_pool prep in
  let ratio := if JS.gt pool (Fin 0) then JS.div total pool else Fin 1 in
  (total, ratio,
   if JS.gt (JS.abs (JS.sub ratio (Fin 1)))
        (Fin (share_sum_tolerance (validation config)))
   then [ConservationCheck total pool ratio] else []).

(** [allocateCohorts(treatment_map, assumptions, config)] *)
Definition allocateCohorts (treatment_map : Types.TreatmentMap)
  (assumptions : Types.Assumptions) (config : CohortAllocationConfig)
  : outcome CohortAllocationResult :=
  prep <- prepare treatment_map assumptions config ;;
  leaves <- allocate_paths assumptions config prep
              (unique_paths (Types.nodes treatment_map)) ;;
  let '(total, ratio, w) := conservation prep config leaves in
  Ok {| base_pool := prep_base_pool prep;
        base_pool_source := prep_source prep;
        treated_pool := prep_treated_pool prep;
        leaf_cohorts := leaves;
        total_allocated := total;
        share_traces := prep_traces prep;
        conservation_ratio := ratio;
        warnings := prep_warnings prep ++ w |}.

(** [mapCohortsToNodes]: for each node, the first cohort on its path. *)
Definition matching_cohort (leaf_cohorts : list LeafCohort)
  (node : Types.TreatmentNode) : option LeafCohort :=
  find (fun cohort =>
          JS.opt_str_eq (subtype_key (path cohort)) (Types.subtype_key node)
          && JS.opt_str_eq (setting_key (path cohort)) (Types.setting_key node)
          && JS.opt_str_eq (line_key (path cohort)) (Types.line_key node)
          && String.eqb (regimen_key (path cohort)) (Types.regimen_key node))
    leaf_cohorts.

Definition mapCohortsToNodes (leaf_cohorts : list LeafCohort)
  (treatment_map : Types.TreatmentMap) : JS.Record_ LeafCohort :=
  fold_left (fun m node =>
               match matching_cohort leaf_cohorts node with
               | Some c => JS.put (Types.node_id node) c m
               | None => m
               end) (Types.nodes treatment_map) [].

End CohortAllocator.

(* ------------------------------------------------------------------ *)
(** ** Regular expressions of exposure.ts *)

(** The fragment the patterns of [extractMaintenanceIntervalFromNotes] are
    written in: literals, character classes, greedy repetition of a class,
    sequence, ordered alternative, greedy option and capturing groups (never
    nested, so the captures come out in the order of the groups).  Matching
    backtracks the way [String.prototype.match] does and returns the captures
    of the leftmost match. *)
Module Regex.

Inductive regex : Type :=
| Lit (text : string)
| OneOf (cls : ascii -> bool)
| Many (at_least_one : bool) (cls : ascii -> bool)
| Seq (r1 r2 : regex)
| Alt (r1 r2 : regex)
| Opt (r : regex)
| Group (r : regex).

Fixpoint seq (rs : list regex) : regex :=
  match rs with
  | [] => Lit EmptyString
  | [r] => r
  | r :: rest => Seq r (seq rest)
  end.

Fixpoint drop (n : nat) (s : string) : string :=
  match n, s with
  | O, _ => s
  | S n', String _ s' => drop n' s'
  | S _, EmptyString => EmptyString
  end.

Fixpoint take (n : nat) (s : string) : string :=
  match n, s with
  | O, _ => EmptyString
  | S n', String c s' => String c (take n' s')
  | S _, EmptyString => EmptyString
  end.

(** What was consumed between [s] and its suffix [rest]. *)
Definition consumed (s rest : string) : string :=
  take (String.length s - String.length rest) s.

Section Matcher.

Context {A : Type}.

(** Greedy [cls*] followed by [k]: the longest run first. *)
Fixpoint many (cls : ascii -> bool) (s : string) (k : string -> option A)
  : option A :=
  match s with
  | String c s' =>
      if cls c then
        match many cls s' k with
        | Some r => Some r
        | None => k s
        end
      else k s
  | EmptyString => k s
  end.

Fixpoint run (r : regex) (s : string) (caps : list string)
  (k : string -> list string -> option A) : option A :=
  match r with
  | Lit p =>
      if JS.startsWith p s then k (drop (String.length p) s) caps else None
  | OneOf cls =>
      match s with
      | String c s' => if cls c then k s' caps else None
      | EmptyString => None
      end
  | Many false cls => many cls s (fun rest => k rest caps)
  | Many true cls =>
      match s with
      | String c s' =>
          if cls c then many cls s' (fun rest => k rest caps) else None
      | EmptyString => None
      end
  | Seq r1 r2 => run r1 s caps (fun rest caps' => run r2 rest caps' k)
  | Alt r1 r2 =>
      match run r1 s caps k with
      | Some x => Some x
      | None => run r2 s caps k
      end
  | Opt r1 =>
      match run r1 s caps k with
      | Some x => Some x
      | None => k s caps
      end
  | Group r1 =>
      run r1 s caps (fun rest caps' => k rest (caps' ++ [consumed s rest]))
  end.

End Matcher.

(** [s.match(r)]: the captured groups of the leftmost match. *)
Fixpoint match_ (r : regex) (s : string) : option (list string) :=
  match run r s [] (fun _ caps => Some caps) with
  | Some caps => Some caps
  | None =>
      match s with
      | String _ s' => match_ r s'
      | EmptyString => None
      end
  end.

(** [\s] on byte strings: space, tab, line feed, vertical tab, form feed,
    carriage return. *)
Definition space (c : ascii) : bool :=
  let n := nat_of_ascii c in
  (n =? 32)%nat || ((9 <=? n)%nat && (n <=? 13)%nat).

(** [\d] *)
Definition digit (c : ascii) : bool :=
  let n := nat_of_ascii c in
  (48 <=? n)%nat && (n <=? 57)%nat.

Definition char_in (set : string) (c : ascii) : bool :=
  existsb (Ascii.eqb c) (list_ascii_of_string set).

(** [parseInt(digits, 10)] on a string of decimal digits. *)
Definition parseInt (digits : string) : number :=
  Fin (inject_Z (Z.of_nat
    (fold_left (fun acc c => (10 * acc + (nat_of_ascii c - 48))%nat)
       (list_ascii_of_string digits) O))).

End Regex.

(* ------------------------------------------------------------------ *)
(** ** exposure.ts *)

Module Exposure.

Import Regex.
Local Open Scope string_scope.

(** [convertTodays(value, unit)] *)
Definition convertTodays (value : number) (unit : string) : option number :=
  let u := JS.toLowerCase unit in
  if String.eqb u "day" || String.eqb u "days" then Some value
  else if String.eqb u "week" || String.eqb u "weeks"
  then Some (JS.mul value (Fin 7))
  else if String.eqb u "month" || String.eqb u "months"
  then Some (JS.mul value (Fin 30))
  else None.

Definition ws1 : regex := Many true space.
Definition ws0 : regex := Many false space.
Definition digits : regex := Group (Many true digit).
Definition time_unit : regex :=
  Group (Alt (Lit "month") (Alt (Lit "week") (Lit "day"))).

(** [/maintenance\s+every\s+(\d+)\s*(month|week|day)/i] *)
Definition maintenance_pattern : regex :=
  seq [Lit "maintenance"; ws1; Lit "every"; ws1; digits; ws0; time_unit].

(** [/(?:then|followed by|thereafter)\s+(?:every\s+)?(\d+)\s*(month|week|day)/i] *)
Definition then_every_pattern : regex :=
  seq [Alt (Lit "then") (Alt (Lit "followed by") (Lit "thereafter")); ws1;
       Opt (Seq (Lit "every") ws1); digits; ws0; time_unit].

(** [/every\s+(\d+)\s*(month)/i] *)
Definition every_pattern : regex :=
  seq [Lit "every"; ws1; digits; ws0; Group (Lit "month")].

(** [/q(\d+)([mwd])/i] *)
Definition q_pattern : regex :=
  seq [Lit "q"; digits; Group (OneOf (char_in "mwd"))].

(** [... of\s+(?:a\s+)?(\d+)[- ]day\s+cycle], the common tail of the two
    cycle patterns. *)
Definition cycle_tail : list regex :=
  [ws1; Lit "of"; ws1; Opt (Seq (Lit "a") ws1); digits; OneOf (char_in "- ");
   Lit "day"; ws1; Lit "cycle"].

(** [/days?\s+(\d+)\s+and\s+(\d+)\s+of\s+(?:a\s+)?(\d+)[- ]day\s+cycle/i] *)
Definition cycle_pattern : regex :=
  seq ([Lit "day"; Opt (Lit "s"); ws1; digits; ws1; Lit "and"; ws1; digits]
       ++ cycle_tail)%list.

(** [/days?\s+(\d+),\s*(\d+),?\s+and\s+(\d+)\s+of\s+(?:a\s+)?(\d+)[- ]day\s+cycle/i] *)
Definition cycle_pattern_3 : regex :=
  seq ([Lit "day"; Opt (Lit "s"); ws1; digits; Lit ","; ws0; digits;
        Opt (Lit ","); ws1; Lit "and"; ws1; digits] ++ cycle_tail)%list.

(** [interval && Math.abs(interval - declared_interval) > 7] *)
Definition diverges_by (limit : Q) (interval : option number)
  (declared_interval : number) : bool :=
  match interval with
  | Some i =>
      JS.truthy i && JS.gt (JS.abs (JS.sub i declared_interval)) (Fin limit)
  | None => false
  end.

(** The interval read from a match whose first two groups are a count and
    a time unit. *)
Definition interval_of (m : option (list string)) : option number :=
  match m with
  | Some (value :: unit :: _) => convertTodays (parseInt value) unit
  | _ => None
  end.

Definition or_else (a : option number) (b : option number) : option number :=
  match a with
  | Some x => Some x
  | None => b
  end.

(** [extractMaintenanceIntervalFromNotes(notes, declared_interval)].  Each
    step yields the interval it returns, if it returns; the steps are tried
    in the order of the source. *)
Definition extractMaintenanceIntervalFromNotes (notes : option string)
  (declared_interval : number) : number :=
  match notes with
  | None => declared_interval
  | Some EmptyString => declared_interval
  | Some text =>
      let notes_lower := JS.toLowerCase text in
      let from (i : option number) (limit : Q) : option number :=
        if diverges_by limit i declared_interval then i else None in
      let has_loading_mention :=
        JS.str_includes "loading" notes_lower
        || JS.str_includes "initial" notes_lower
        || JS.str_includes "first month" notes_lower
        || JS.str_includes "induction" notes_lower in
      let step_maintenance :=
        from (interval_of (match_ maintenance_pattern notes_lower)) 7 in
      let step_then :=
        if has_loading_mention
        then from (interval_of (match_ then_every_pattern notes_lower)) 7
        else None in
      let step_every :=
        if has_loading_mention then
          match interval_of (match_ every_pattern notes_lower) with
          | Some i =>
              if JS.truthy i && JS.gt i (Fin 60)
                 && JS.lt declared_interval (Fin 28)
              then Some i else None
          | None => None
          end
        else None in
      let step_q :=
        if has_loading_mention then
          match match_ q_pattern notes_lower with
          | Some (value :: unit_char :: _) =>
              let unit :=
                if String.eqb (JS.toLowerCase unit_char) "m" then "month"
                else if String.eqb (JS.toLowerCase unit_char) "w" then "week"
                else "day" in
              from (convertTodays (parseInt value) unit) 7
          | _ => None
          end
        else None in
      let cycle (m : option (list string)) (group : nat) (doses : Q)
        : option number :=
        match m with
        | Some caps =>
            match nth_error caps group with
            | Some cycle_length =>
                let effective_interval :=
                  JS.div (parseInt cycle_length) (Fin doses) in
                if JS.gt (JS.abs (JS.sub effective_interval declared_interval))
                     (Fin 1)
                then Some effective_interval else None
            | None => None
            end
        | None => None
        end in
      let step_cycle := cycle (match_ cycle_pattern notes_lower) 2%nat 2 in
      let step_cycle_3 := cycle (match_ cycle_pattern_3 notes_lower) 3%nat 3 in
      match or_else step_maintenance
              (or_else step_then
                 (or_else step_every
                    (or_else step_q (or_else step_cycle step_cycle_3)))) with
      | Some i => i
      | None => declared_interval
      end
  end.

(** The interval both dose functions go on with: the corrected one when it
    differs ([!==]) from the declared one. *)
Definition resolved_interval (dose_schema : Types.DoseSchema) : number :=
  let interval_days := Types.interval_days dose_schema in
  let corrected_interval :=
    extractMaintenanceIntervalFromNotes (Types.notes dose_schema)
      interval_days in
  if negb (JS.strict_eq corrected_interval interval_days)
  then corrected_interval else interval_days.

Definition weight_of (w : Types.Weight) : number :=
  match w with
  | Types.WeightNumber kg => kg
  | Types.WeightDistribution mean _ => mean
  end.

(** The type the dose is computed with, after the type/unit mismatch
    correction. *)
Definition effective_type (declared : Types.DoseType) (unit : string)
  : Types.DoseType :=
  match declared with
  | Types.fixed_mg =>
      if JS.str_includes "kg" unit then Types.mg_per_kg
      else if JS.str_includes "m2" unit then Types.mg_per_m2
      else Types.fixed_mg
  | Types.mg_per_kg =>
      if negb (JS.str_includes "kg" unit) then Types.fixed_mg
      else Types.mg_per_kg
  | Types.mg_per_m2 =>
      if negb (JS.str_includes "m2" unit) then Types.fixed_mg
      else Types.mg_per_m2
  | Types.other_type => Types.other_type
  end.

Section Dose.

(** [Math.sqrt] has no exact rational value; it is a parameter of the dose
    functions, which use it for the body surface area only. *)
Variable Math_sqrt : number -> number.

(** [Math.sqrt((170 * weight_kg) / 3600)] *)
Definition bsa_m2 (weight_kg : number) : number :=
  Math_sqrt (JS.div (JS.mul (Fin 170) weight_kg) (Fin 3600)).

(** [calculateAdministeredDose(treatment_node, assumptions)] *)
Definition calculateAdministeredDose (treatment_node : Types.TreatmentNode)
  (assumptions : Types.Assumptions) : number :=
  let dose_schema := Types.dose_schema treatment_node in
  let interval_days := resolved_interval dose_schema in
  let rdi :=
    JS.or_default (Types.relative_dose_intensity assumptions) (Fin 1) in
  let weight_kg := weight_of (Types.avg_weight_kg assumptions) in
  let unit := JS.toLowerCase (Types.unit (Types.maintenance dose_schema)) in
  let maintenance_value := Types.value (Types.maintenance dose_schema) in
  let dose_per_admin_mg :=
    match effective_type (Types.type dose_schema) unit with
    | Types.mg_per_kg => JS.mul maintenance_value weight_kg
    | Types.fixed_mg => maintenance_value
    | Types.mg_per_m2 => JS.mul maintenance_value (bsa_m2 weight_kg)
    | Types.other_type => maintenance_value
    end in
  let maintenance_admins_per_year := JS.div (Fin 365) interval_days in
  let loading_dose_mg :=
    match Types.loading dose_schema with
    | Some loading =>
        match Types.repeats loading with
        | Some loading_repeats =>
            if JS.gt loading_repeats (Fin 0) then
              let loading_unit := JS.toLowerCase (Types.loading_unit loading) in
              let loading_per_admin :=
                if JS.str_includes "kg" loading_unit
                then JS.mul (Types.loading_value loading) weight_kg
                else if JS.str_includes "m2" loading_unit
                then JS.mul (Types.loading_value loading) (bsa_m2 weight_kg)
                else Types.loading_value loading in
              JS.mul loading_per_admin loading_repeats
            else Fin 0
        | None => Fin 0
        end
    | None => Fin 0
    end in
  let maintenance_dose_mg :=
    JS.mul dose_per_admin_mg maintenance_admins_per_year in
  JS.mul (JS.add loading_dose_mg maintenance_dose_mg) rdi.

End Dose.

(** [[...vial_sizes].sort((a, b) => b.size_mg - a.size_mg)]: a stable sort,
    largest first. *)
Fixpoint insert_desc (v : Types.VialSize) (sorted : list Types.VialSize)
  : list Types.VialSize :=
  match sorted with
  | [] => [v]
  | w :: rest =>
      if Qle_bool (Types.size_mg v) (Types.size_mg w)
      then w :: insert_desc v rest
      else v :: sorted
  end.

Definition sort_desc (vials : list Types.VialSize) : list Types.VialSize :=
  fold_left (fun sorted v => insert_desc v sorted) vials [].

(** The inner [while (remaining_dose > 0)] loop for one vial size, given the
    number of iterations it may take; [None] when they do not suffice.  The
    state is [(remaining_dose, total_dispensed)]. *)
Fixpoint fill (fuel : nat) (size_mg : Q) (remaining_dose total_dispensed : number)
  : option (number * number) :=
  if JS.gt remaining_dose (Fin 0) then
    match fuel with
    | O => None
    | S fuel' =>
        let total_dispensed' := JS.add total_dispensed (Fin size_mg) in
        let remaining_dose' := JS.sub remaining_dose (Fin size_mg) in
        if JS.le remaining_dose' (Fin 0)
        then Some (remaining_dose', total_dispensed')
        else fill fuel' size_mg remaining_dose' total_dispensed'
    end
  else Some (remaining_dose, total_dispensed).

(** A number of iterations within which the inner loop exits whenever it
    exits at all. *)
Definition fill_bound (size_mg : Q) (remaining_dose : number) : nat :=
  match remaining_dose with
  | Fin r => Z.to_nat (Qceiling (r / size_mg))
  | NaN => O
  end.

(** The inner loop as it runs: its final state, or no exit. *)
Definition fill_loop (size_mg : Q) (remaining_dose total_dispensed : number)
  : outcome (number * number) :=
  match fill (fill_bound size_mg remaining_dose) size_mg remaining_dose
          total_dispensed with
  | Some state => Ok state
  | None => Diverge
  end.

(** The outer [for (const vial of sorted_vials)] loop. *)
Fixpoint fill_all (sorted_vials : list Types.VialSize)
  (remaining_dose total_dispensed : number) : outcome (number * number) :=
  match sorted_vials with
  | [] => Ok (remaining_dose, total_dispensed)
  | vial :: rest =>
      state <- fill_loop (Types.size_mg vial) remaining_dose total_dispensed ;;
      let '(remaining_dose', total_dispensed') := state in
      if JS.le remaining_dose' (Fin 0) then Ok state
      else fill_all rest remaining_dose' total_dispensed'
  end.

(** [roundToVials(required_dose_mg, vial_sizes)].  Reading [size_mg] of the
    last element of an empty list throws a [TypeError]. *)
Definition roundToVials (required_dose_mg : number)
  (vial_sizes : list Types.VialSize) : outcome number :=
  let sorted_vials := sort_desc vial_sizes in
  state <- fill_all sorted_vials required_dose_mg (Fin 0) ;;
  let '(remaining_dose, total_dispensed) := state in
  if JS.gt remaining_dose (Fin 0) then
    match List.last (map Some sorted_vials) None with
    | Some smallest_vial =>
        Ok (JS.add total_dispensed (Fin (Types.size_mg smallest_vial)))
    | None => Throw (TypeError "size_mg")
    end
  else Ok total_dispensed.

(** [assumptions.vial_sizes[route]] *)
Definition vial_sizes_for (assumptions : Types.Assumptions)
  (route : Types.Route) : option (list Types.VialSize) :=
  match route with
  | Types.IV => Types.vials_IV (Types.vial_sizes assumptions)
  | Types.SC => Types.vials_SC (Types.vial_sizes assumptions)
  | _ => None
  end.

(** [dose_schema.loading?.repeats || 0] *)
Definition loading_admins (dose_schema : Types.DoseSchema) : number :=
  match Types.loading dose_schema with
  | Some loading => JS.or_default (Types.repeats loading) (Fin 0)
  | None => Fin 0
  end.

(** [calculateDispensedDose(treatment_node, assumptions, administered_mg_ppy)] *)
Definition calculateDispensedDose (treatment_node : Types.TreatmentNode)
  (assumptions : Types.Assumptions) (administered_mg_ppy : number)
  : outcome number :=
  match vial_sizes_for assumptions (Types.route treatment_node) with
  | None => Ok administered_mg_ppy
  | Some [] => Ok administered_mg_ppy
  | Some vial_sizes =>
      let dose_schema := Types.dose_schema treatment_node in
      let interval_days := resolved_interval dose_schema in
      let maintenance_admins := JS.div (Fin 365) interval_days in
      let total_admins_per_year :=
        JS.add maintenance_admins (loading_admins dose_schema) in
      let dose_per_admin_mg :=
        JS.div administered_mg_ppy total_admins_per_year in
      dispensed_per_admin_mg <- roundToVials dose_per_admin_mg vial_sizes ;;
      Ok (JS.mul dispensed_per_admin_mg total_admins_per_year)
  end.

Section Demand.

Variable Math_sqrt : number -> number.

(** The body of the loop of [calculateDemand] for one population node: the
    demand node pushed, if its treatment node is found. *)
Definition demand_of (treatment_map : Types.TreatmentMap)
  (assumptions : Types.Assumptions) (pop_node : Types.PopulationNode)
  : outcome (list Types.DemandNode) :=
  match find (fun n => String.eqb (Types.node_id n) (Types.pn_node_id pop_node))
          (Types.nodes treatment_map) with
  | None => Ok []
  | Some treatment_node =>
      let administered_mg_ppy :=
        calculateAdministeredDose Math_sqrt treatment_node assumptions in
      dispensed_mg_ppy <-
        calculateDispensedDose treatment_node assumptions administered_mg_ppy ;;
      let total_administered_mg :=
        JS.mul administered_mg_ppy (Types.pn_patient_years pop_node) in
      let total_dispensed_mg :=
        JS.mul dispensed_mg_ppy (Types.pn_patient_years pop_node) in
      Ok [{| Types.dn_node_id := Types.pn_node_id pop_node;
             Types.dn_treated_patients :=
               JS.round (Types.pn_treated_patients pop_node);
             Types.administered_mg_per_patient_year :=
               JS.round administered_mg_ppy;
             Types.dispensed_mg_per_patient_year := JS.round dispensed_mg_ppy;
             Types.total_administered_mg := JS.round total_administered_mg;
             Types.total_dispensed_mg := JS.round total_dispensed_mg |}]
  end.

(** [calculateDemand(treatment_map, population, assumptions)], on the nodes
    of the population allocation. *)
Fixpoint calculateDemand (treatment_map : Types.TreatmentMap)
  (population_nodes : list Types.PopulationNode)
  (assumptions : Types.Assumptions) : outcome (list Types.DemandNode) :=
  match population_nodes with
  | [] => Ok []
  | pop_node :: rest =>
      d <- demand_of treatment_map assumptions pop_node ;;
      ds <- calculateDemand treatment_map rest assumptions ;;
      Ok (d ++ ds)%list
  end.

End Demand.

End Exposure.

(* ------------------------------------------------------------------ *)
(** ** population.ts *)

Module Population.

Import CohortAllocator.

Record AllocationSummary : Type := {
  summary_base_pool : number;
  summary_base_pool_source : BasePoolSource;
  summary_treated_pool : number;
  summary_conservation_ratio : number;
  summary_warnings : list message
}.

Record Rollups : Type := {
  by_subtype : JS.Record_ number;
  by_setting : JS.Record_ number;
  by_line : JS.Record_ number
}.

(** [PopulationAllocationWithTrace] *)
Record PopulationAllocation : Type := {
  base_year : number;
  disease : string;
  molecule : string;
  total_incidence : option number;
  total_prevalence : option number;
  nodes : list Types.PopulationNode;
  rollups : Rollups;
  allocation_trace : AllocationSummary;
  node_traces : JS.Record_ (list AllocationTrace)
}.

(** [rollup[key] = (rollup[key] || 0) + patients], when [key] is truthy. *)
Definition roll (key : option string) (patients : number)
  (rollup : JS.Record_ number) : JS.Record_ number :=
  match key with
  | Some k =>
      if JS.truthy_str key
      then JS.put k (JS.add (JS.or_default (JS.get k rollup) (Fin 0)) patients)
             rollup
      else rollup
  | None => rollup
  end.

(** The population node built for a treatment node from its cohort. *)
Definition population_node (node_to_cohort : JS.Record_ LeafCohort)
  (treatment_node : Types.TreatmentNode) : Types.PopulationNode :=
  match JS.get (Types.node_id treatment_node) node_to_cohort with
  | Some cohort =>
      {| Types.pn_node_id := Types.node_id treatment_node;
         Types.eligible_patients := JS.round (patients cohort);
         Types.pn_treated_patients := JS.round (patients cohort);
         Types.pn_patient_years :=
           JS.div (JS.round (JS.mul (patient_years cohort) (Fin 100)))
             (Fin 100) |}
  | None =>
      {| Types.pn_node_id := Types.node_id treatment_node;
         Types.eligible_patients := Fin 0;
         Types.pn_treated_patients := Fin 0;
         Types.pn_patient_years := Fin 0 |}
  end.

(** The roll-ups and traces accumulated over the treatment nodes. *)
Definition accumulate (node_to_cohort : JS.Record_ LeafCohort)
  (acc : Rollups * JS.Record_ (list AllocationTrace))
  (treatment_node : Types.TreatmentNode)
  : Rollups * JS.Record_ (list AllocationTrace) :=
  let '(r, traces) := acc in
  match JS.get (Types.node_id treatment_node) node_to_cohort with
  | Some cohort =>
      ({| by_subtype :=
            roll (Types.subtype_key treatment_node) (patients cohort)
              (by_subtype r);
          by_setting :=
            roll (Types.setting_key treatment_node) (patients cohort)
              (by_setting r);
          by_line :=
            roll (Types.line_key treatment_node) (patients cohort)
              (by_line r) |},
       JS.put (Types.node_id treatment_node) (trace cohort) traces)
  | None => acc
  end.

(** [allocatePopulation(treatment_map, assumptions, options)], with the
    options already merged over [DEFAULT_ALLOCATION_CONFIG]. *)
Definition allocatePopulation (treatment_map : Types.TreatmentMap)
  (assumptions : Types.Assumptions) (allocation_config : CohortAllocationConfig)
  : outcome PopulationAllocation :=
  allocation_result <-
    allocateCohorts treatment_map assumptions allocation_config ;;
  let node_to_cohort :=
    mapCohortsToNodes (leaf_cohorts allocation_result) treatment_map in
  let '(r, traces) :=
    fold_left (accumulate node_to_cohort) (Types.nodes treatment_map)
      ({| by_subtype := []; by_setting := []; by_line := [] |}, []) in
  Ok {| base_year := Types.base_year assumptions;
        disease := Types.disease treatment_map;
        molecule := Types.molecule treatment_map;
        total_incidence := Types.incidence assumptions;
        total_prevalence := Types.prevalence assumptions;
        nodes := map (population_node node_to_cohort)
                   (Types.nodes treatment_map);
        rollups := r;
        allocation_trace :=
          {| summary_base_pool := base_pool allocation_result;
             summary_base_pool_source := base_pool_source allocation_result;
             summary_treated_pool := treated_pool allocation_result;
             summary_conservation_ratio := conservation_ratio allocation_result;
             summary_warnings := warnings allocation_result |};
        node_traces := traces |}.

End Population.

(* ------------------------------------------------------------------ *)
(** ** forecast.ts *)

Module Forecast.

Section Forecast.

Variable Math_sqrt : number -> number.

(** The scenarios used when the assumptions carry none. *)
Definition default_scenarios : JS.Record_ Types.ScenarioParameters :=
  [("base"%string,
    {| Types.incidence_cagr := Fin 0.005;
       Types.treated_rate_multiplier := Fin 1;
       Types.tot_multiplier := Fin 1;
       Types.adoption_multiplier := Fin 1 |})].

(** [value ? value * scale : undefined] *)
Definition scale_opt (value : option number) (scale : number) : option number :=
  match value with
  | Some x => if JS.truthy x then Some (JS.mul x scale) else None
  | None => None
  end.

(** [Math.pow(1 + scenario_params.incidence_cagr, year_offset)] *)
Definition epi_scale (scenario_params : Types.ScenarioParameters)
  (year_offset : nat) : number :=
  JS.pow (JS.add (Fin 1) (Types.incidence_cagr scenario_params)) year_offset.

(** The adjusted assumptions of one year of one scenario. *)
Definition year_assumptions (base_assumptions : Types.Assumptions)
  (scenario_params : Types.ScenarioParameters) (year_offset : nat)
  : Types.Assumptions :=
  let scale := epi_scale scenario_params year_offset in
  {| Types.base_year := Types.base_year base_assumptions;
     Types.horizon_years := Types.horizon_years base_assumptions;
     Types.avg_weight_kg := Types.avg_weight_kg base_assumptions;
     Types.vial_sizes := Types.vial_sizes base_assumptions;
     Types.incidence := scale_opt (Types.incidence base_assumptions) scale;
     Types.prevalence := scale_opt (Types.prevalence base_assumptions) scale;
     Types.subtype_shares := Types.subtype_shares base_assumptions;
     Types.stage_shares := Types.stage_shares base_assumptions;
     Types.setting_shares := Types.setting_shares base_assumptions;
     Types.treated_rate :=
       JS.mul (Types.treated_rate base_assumptions)
         (Types.treated_rate_multiplier scenario_params);
     Types.line_shares := Types.line_shares base_assumptions;
     Types.time_on_treatment_months :=
       match Types.time_on_treatment_months base_assumptions with
       | Some months =>
           Some (map (fun '(key, val) =>
                        (key, JS.mul val (Types.tot_multiplier scenario_params)))
                   months)
       | None => None
       end;
     Types.relative_dose_intensity :=
       Types.relative_dose_intensity base_assumptions;
     Types.scenarios := Types.scenarios base_assumptions |}.

(** The forecast record pushed for one demand node, if its population node
    is found. *)
Definition record_of (forecast_year : number) (scenario_name : string)
  (population_nodes : list Types.PopulationNode)
  (demand_node : Types.DemandNode) : list Types.ForecastRecord :=
  match find (fun n => String.eqb (Types.pn_node_id n)
                         (Types.dn_node_id demand_node)) population_nodes with
  | None => []
  | Some pop_node =>
      [{| Types.year := forecast_year;
          Types.fr_node_id := Types.dn_node_id demand_node;
          Types.scenario := scenario_name;
          Types.fr_treated_patients :=
            JS.round (Types.dn_treated_patients demand_node);
          Types.fr_patient_years :=
            JS.div (JS.round (JS.mul (Types.pn_patient_years pop_node)
                                (Fin 100))) (Fin 100);
          Types.fr_administered_mg_per_patient_year :=
            JS.round (Types.administered_mg_per_patient_year demand_node);
          Types.fr_total_administered_mg :=
            JS.round (Types.total_administered_mg demand_node);
          Types.fr_total_dispensed_mg :=
            JS.round (Types.total_dispensed_mg demand_node) |}]
  end.

(** The body of the year loop: the records of one year of one scenario. *)
Definition forecast_year (treatment_map : Types.TreatmentMap)
  (base_assumptions : Types.Assumptions) (scenario_name : string)
  (scenario_params : Types.ScenarioParameters) (year_offset : nat)
  : outcome (list Types.ForecastRecord) :=
  let year :=
    JS.add (Types.base_year base_assumptions)
      (Fin (inject_Z (Z.of_nat year_offset))) in
  let assumptions := year_assumptions base_assumptions scenario_params
                       year_offset in
  year_population <-
    Population.allocatePopulation treatment_map assumptions
      CohortAllocator.DEFAULT_ALLOCATION_CONFIG ;;
  year_demand <-
    Exposure.calculateDemand Math_sqrt treatment_map
      (Population.nodes year_population) assumptions ;;
  Ok (flat_map (record_of year scenario_name (Population.nodes year_population))
        year_demand).

(** The year offsets [0, 1, ...] not above [horizon_years]. *)
Definition year_offsets (horizon_years : number) : list nat :=
  match horizon_years with
  | Fin h =>
      if Qle_bool 0 h then List.seq 0 (Z.to_nat (Qfloor h) + 1) else []
  | NaN => []
  end.

(** The year loop of one scenario, pushing onto the records so far. *)
Fixpoint forecast_years (treatment_map : Types.TreatmentMap)
  (base_assumptions : Types.Assumptions) (scenario_name : string)
  (scenario_params : Types.ScenarioParameters) (offsets : list nat)
  (forecast_records : list Types.ForecastRecord)
  : outcome (list Types.ForecastRecord) :=
  match offsets with
  | [] => Ok forecast_records
  | year_offset :: rest =>
      records <- forecast_year treatment_map base_assumptions scenario_name
                   scenario_params year_offset ;;
      forecast_years treatment_map base_assumptions scenario_name
        scenario_params rest (forecast_records ++ records)
  end.

(** The scenario loop. *)
Fixpoint forecast_scenarios (treatment_map : Types.TreatmentMap)
  (base_assumptions : Types.Assumptions)
  (scenarios : JS.Record_ Types.ScenarioParameters)
  (forecast_records : list Types.ForecastRecord)
  : outcome (list Types.ForecastRecord) :=
  match scenarios with
  | [] => Ok forecast_records
  | (scenario_name, scenario_params) :: rest =>
      records <- forecast_years treatment_map base_assumptions scenario_name
                   scenario_params
                   (year_offsets (Types.horizon_years base_assumptions))
                   forecast_records ;;
      forecast_scenarios treatment_map base_assumptions rest records
  end.

(** [generateForecast(treatment_map, base_assumptions, _base_population,
    _base_demand)]; the base results it is passed are not read. *)
Definition generateForecast (treatment_map : Types.TreatmentMap)
  (base_assumptions : Types.Assumptions)
  (_base_population : Population.PopulationAllocation)
  (_base_demand : list Types.DemandNode)
  : outcome (list Types.ForecastRecord) :=
  let scenarios :=
    match Types.scenarios base_assumptions with
    | Some s => s
    | None => default_scenarios
    end in
  forecast_scenarios treatment_map base_assumptions scenarios [].

End Forecast.

End Forecast.

(* ================================================================== *)
(** * Vocabulary of the properties *)

(** The predicates the properties are stated with, and the taxonomies,
    assumptions and configurations of the worked examples. *)

(* ------------------------------------------------------------------ *)
(** ** Numbers *)

(** A number that is finite. *)
Definition finite (a : number) : Prop := exists q, a = Fin q.

(** The exact sum of a list of rationals. *)
Definition Qsum (vs : list Q) : Q := fold_right Qplus 0 vs.

(* ------------------------------------------------------------------ *)
(** ** Share validation *)

Section ShareValidationTerms.

Import Validation.

(** A share the per-entry check accepts: a number in [0, 1]. *)
Definition in_unit_interval (v : number) : Prop :=
  exists q, v = Fin q /\ 0 <= q /\ q <= 1.

(** A share the per-entry check rejects: NaN, negative, or above 1. *)
Definition rejected_share (v : number) : Prop :=
  v = NaN \/ exists q, v = Fin q /\ (q < 0 \/ 1 < q).

(** The sum of the shares is too large to be kept or renormalized. *)
Definition sum_exceeds (config : ValidationConfig) (s : Q) : Prop :=
  1 < s /\ share_sum_tolerance config < s - 1 /\
  (allow_share_renormalization config = false
   \/ max_renormalization_deviation config < Qabs (s - 1)).

(** Shares that sum to 1.10, and shares that sum to 1.6. *)
Definition renormalization_example : JS.Record_ number :=
  [("a"%string, Fin 0.55); ("b"%string, Fin 0.55)].

Definition rejection_example : JS.Record_ number :=
  [("s1"%string, Fin 0.8); ("s2"%string, Fin 0.8)].

End ShareValidationTerms.

(* ------------------------------------------------------------------ *)
(** ** Vial rounding *)

Section VialRoundingTerms.

Import Exposure.
Local Open Scope string_scope.

(** A natural number as a rational. *)
Definition Qn (n : nat) : Q := inject_Z (Z.of_nat n).

(** The largest configured vial size (0 for an empty list). *)
Fixpoint largest_size (vial_sizes : list Types.VialSize) : Q :=
  match vial_sizes with
  | [] => 0
  | [v] => Types.size_mg v
  | v :: rest =>
      if Qle_bool (largest_size rest) (Types.size_mg v)
      then Types.size_mg v else largest_size rest
  end.

(** [m] is the smallest positive integer multiple of [size] that is at
    least [required]. *)
Definition least_multiple (size required m : Q) : Prop :=
  exists k : nat,
    (1 <= k)%nat /\ m == Qn k * size /\ required <= m
    /\ forall j : nat, (1 <= j)%nat -> required <= Qn j * size -> (k <= j)%nat.

(** The first vial of a list is at least as large as every other one. *)
Definition head_largest (sorted : list Types.VialSize) : Prop :=
  match sorted with
  | [] => True
  | w :: rest => Forall (fun x => Types.size_mg x <= Types.size_mg w) rest
  end.

(** A single-dose vial of the given size. *)
Definition vial (size_mg : Q) : Types.VialSize :=
  {| Types.size_mg := size_mg; Types.is_single_dose := true |}.

(** A node dosed at 6 mg/kg every 21 days, given intravenously. *)
Definition example_schema : Types.DoseSchema :=
  {| Types.type := Types.mg_per_kg;
     Types.loading := None;
     Types.maintenance := {| Types.value := Fin 6; Types.unit := "mg/kg" |};
     Types.interval_days := Fin 21;
     Types.notes := None |}.

(** The intravenous node n1 with the given dose schema. *)
Definition node_with (schema : Types.DoseSchema) : Types.TreatmentNode :=
  {| Types.node_id := "n1";
     Types.subtype_key := None;
     Types.setting_key := None;
     Types.stage_key := None;
     Types.line_key := None;
     Types.regimen_key := "r1";
     Types.route := Types.IV;
     Types.dose_schema := schema |}.

Definition example_node : Types.TreatmentNode := node_with example_schema.

(** The treatment map with the given nodes. *)
Definition map_of (nodes : list Types.TreatmentNode) : Types.TreatmentMap :=
  {| Types.disease := "disease"; Types.molecule := "molecule";
     Types.nodes := nodes |}.

(** Assumptions with the default weight, vial sizes and dose intensity. *)
Definition example_assumptions : Types.Assumptions :=
  {| Types.base_year := Fin 2024;
     Types.horizon_years := Fin 10;
     Types.avg_weight_kg := Types.WeightNumber (Fin 70);
     Types.vial_sizes :=
       {| Types.vials_IV := Some [vial 150; vial 420];
          Types.vials_SC := Some [vial 600] |};
     Types.incidence := Some (Fin 100000);
     Types.prevalence := None;
     Types.subtype_shares := None;
     Types.stage_shares := None;
     Types.setting_shares := None;
     Types.treated_rate := Fin 0.85;
     Types.line_shares := None;
     Types.time_on_treatment_months := None;
     Types.relative_dose_intensity := Some (Fin 1);
     Types.scenarios := None |}.






End VialRoundingTerms.

(* ------------------------------------------------------------------ *)
(** ** Administered dose *)

Section AdministeredDoseTerms.

Import Exposure.
Local Open Scope string_scope.




End AdministeredDoseTerms.

(* ------------------------------------------------------------------ *)
(** ** Cohort allocation *)

Section AllocationTerms.

Import Validation CohortAllocator.
Local Open Scope string_scope.

(** [config.regimen_shares || {}] *)
Definition configured_regimen_shares (config : CohortAllocationConfig)
  : JS.Record_ number :=
  match regimen_shares config with
  | Some s => s
  | None => []
  end.

(** No regimen of the path has an entry in the configured regimen
    shares. *)
Definition without_regimen_shares (config : CohortAllocationConfig)
  (entry : string * PathInfo) : Prop :=
  has_regimen_shares (configured_regimen_shares config)
    (regimen_keys (snd entry)) = false.

(** The leaf cohorts the allocation loop creates for a path it does not
    reject. *)
Definition path_leaves (assumptions : Types.Assumptions)
  (config : CohortAllocationConfig) (prep : Prepared)
  (entry : string * PathInfo) : list LeafCohort :=
  let '(current_population, tr) := path_population prep (snd entry) in
  let '(path_regimen_shares, tr') :=
    build_path_regimen_shares (configured_regimen_shares config) (fst entry)
      (regimen_keys (snd entry)) current_population in
  map (make_leaf assumptions (snd entry) path_regimen_shares
         current_population (tr ++ tr')%list)
    (regimen_keys (snd entry)).

(** The key of a path names it: it is [buildPathKey] of the path's
    subtype, setting and line. *)
Definition key_names_path (entry : string * PathInfo) : Prop :=
  fst entry = buildPathKey (path_subtype_key (snd entry))
                (path_setting_key (snd entry)) (path_line_key (snd entry)).

(** A treatment node on a dimension path. *)
Definition node_on (id : string) (subtype setting line : option string)
  (regimen : string) : Types.TreatmentNode :=
  {| Types.node_id := id;
     Types.subtype_key := subtype;
     Types.setting_key := setting;
     Types.stage_key := None;
     Types.line_key := line;
     Types.regimen_key := regimen;
     Types.route := Types.IV;
     Types.dose_schema := example_schema |}.

(** Assumptions with a prevalence, a treated rate and the three share
    maps; everything else as in [example_assumptions]. *)
Definition assumptions_with (prevalence treated_rate : number)
  (subtype_shares setting_shares line_shares : option (JS.Record_ number))
  : Types.Assumptions :=
  {| Types.base_year := Fin 2024;
     Types.horizon_years := Fin 10;
     Types.avg_weight_kg := Types.WeightNumber (Fin 70);
     Types.vial_sizes :=
       {| Types.vials_IV := Some [vial 150; vial 420];
          Types.vials_SC := Some [vial 600] |};
     Types.incidence := Some (Fin 100000);
     Types.prevalence := Some prevalence;
     Types.subtype_shares := subtype_shares;
     Types.stage_shares := None;
     Types.setting_shares := setting_shares;
     Types.treated_rate := treated_rate;
     Types.line_shares := line_shares;
     Types.time_on_treatment_months := None;
     Types.relative_dose_intensity := Some (Fin 1);
     Types.scenarios := None |}.

(** Three regimens sharing the one path of setting s1. *)
Definition split_example_map : Types.TreatmentMap :=
  map_of [node_on "n1" None (Some "s1") None "r1";
          node_on "n2" None (Some "s1") None "r2";
          node_on "n3" None (Some "s1") None "r3"].

Definition split_example_assumptions : Types.Assumptions :=
  assumptions_with (Fin 900000) (Fin 1) None (Some [("s1", Fin 1)]) None.

(** What steps 1 to 4 leave for the loop in the equal-split example. *)
Definition split_example_prepared : Prepared :=
  Eval vm_compute in
    match prepare split_example_map split_example_assumptions
            DEFAULT_ALLOCATION_CONFIG with
    | Ok prep => prep
    | _ => {| prep_base_pool := NaN; prep_source := from_prevalence;
              prep_treated_rate := NaN; prep_treated_pool := NaN;
              prep_subtype_shares := []; prep_setting_shares := [];
              prep_line_shares := [];
              prep_traces := {| trace_subtype_shares := None;
                                trace_setting_shares := None;
                                trace_line_shares := None |};
              prep_warnings := [] |}
    end.

(** A number that is finite and not negative. *)
Definition nonneg (a : number) : Prop := exists q, a = Fin q /\ 0 <= q.

(** A share map without NaN or negative entries. *)
Definition nonneg_map (m : JS.Record_ number) : Prop :=
  Forall (fun e => nonneg (snd e)) m.

(** No configured regimen share is negative. *)
Definition regimen_shares_not_negative (config : CohortAllocationConfig)
  : Prop :=
  forall k v, In (k, v) (configured_regimen_shares config) ->
              JS.lt v (Fin 0) = false.

(** No entry of [time_on_treatment_months] is negative. *)
Definition months_not_negative (assumptions : Types.Assumptions) : Prop :=
  forall months k v,
    Types.time_on_treatment_months assumptions = Some months ->
    In (k, v) months -> JS.lt v (Fin 0) = false.

(** The end-to-end example: one subtype, three settings, one line. *)
Definition settings_example_map : Types.TreatmentMap :=
  map_of [node_on "n1" (Some "HER2+") (Some "adjuvant") (Some "1L") "reg1";
          node_on "n2" (Some "HER2+") (Some "neoadjuvant") (Some "1L") "reg1";
          node_on "n3" (Some "HER2+") (Some "metastatic") (Some "1L") "reg1"].

Definition settings_example_assumptions : Types.Assumptions :=
  assumptions_with (Fin 1000000) (Fin 1)
    (Some [("HER2+", Fin 1)])
    (Some [("adjuvant", Fin 0.40); ("neoadjuvant", Fin 0.25);
           ("metastatic", Fin 0.35)])
    (Some [("1L", Fin 1)]).

(** The result returned when the allocation succeeds (a result without
    cohorts otherwise). *)
Definition result_of (r : outcome CohortAllocationResult)
  : CohortAllocationResult :=
  match r with
  | Ok result => result
  | _ => {| base_pool := NaN; base_pool_source := from_prevalence;
            treated_pool := NaN; leaf_cohorts := []; total_allocated := NaN;
            share_traces := {| trace_subtype_shares := None;
                               trace_setting_shares := None;
                               trace_line_shares := None |};
            conservation_ratio := NaN; warnings := [] |}
  end.

Definition settings_example_result : CohortAllocationResult :=
  Eval vm_compute in
    result_of (allocateCohorts settings_example_map
                 settings_example_assumptions DEFAULT_ALLOCATION_CONFIG).

(** Two regimens on the one path of a map without dimensions. *)
Definition two_regimens_map : Types.TreatmentMap :=
  map_of [node_on "n1" None None None "r1"; node_on "n2" None None None "r2"].

Definition plain_assumptions : Types.Assumptions :=
  assumptions_with (Fin 1000000) (Fin 1) None None None.

(** Regimen shares that sum to 1 with a negative entry. *)
Definition negative_share_config : CohortAllocationConfig :=
  {| validation := DEFAULT_VALIDATION_CONFIG;
     population_model := auto;
     regimen_shares := Some [("r1", Fin 1.5); ("r2", Fin (-0.5))] |}.

(** One subtype whose share is 0. *)
Definition zero_share_map : Types.TreatmentMap :=
  map_of [node_on "n1" (Some "A") None None "r1"].

Definition zero_share_assumptions : Types.Assumptions :=
  assumptions_with (Fin 1000000) (Fin 1) (Some [("A", Fin 0)]) None None.

(** A configuration that renormalizes any sum below 1. *)
Definition renormalize_all_config : CohortAllocationConfig :=
  {| validation :=
       {| allow_share_renormalization := true;
          allow_equal_regimen_split := true;
          share_sum_tolerance := 0.05;
          max_renormalization_deviation := 1;
          max_population := Some (Fin 350000000) |};
     population_model := auto;
     regimen_shares := None |}.

(** The rational a finite number carries (0 for NaN). *)
Definition valQ (a : number) : Q :=
  match a with
  | Fin q => q
  | NaN => 0
  end.

(** The values a dimension can take on a path: its distinct values, or
    "absent" when the taxonomy does not use the dimension. *)
Definition dimension_options (unique : list string) : list (option string) :=
  match unique with
  | [] => [None]
  | _ => map Some unique
  end.

(** All combinations of subtype, setting and line values. *)
Definition combinations (subtypes settings lines : list (option string))
  : list (option string * option string * option string) :=
  flat_map (fun s => flat_map (fun t => map (fun l => (s, t, l)) lines)
                       settings) subtypes.

(** The share a map gives to a key, as a rational (0 when the key has no
    finite share). *)
Definition lookupQ (shares : JS.Record_ number) (k : string) : Q :=
  match JS.get k shares with
  | Some (Fin q) => q
  | _ => 0
  end.

(** The factor a dimension contributes to a path: the share of the path's
    value, or 1 when the path does not have the dimension. *)
Definition share_factor (shares : JS.Record_ number) (key : option string)
  : Q :=
  match key with
  | Some k => lookupQ shares k
  | None => 1
  end.

(** The share map given for a dimension covers every value the taxonomy
    uses, with shares in [0, 1] that sum to 1 (no map at all stands for
    the equal distribution). *)
Definition dimension_covered (unique : list string)
  (raw : option (JS.Record_ number)) : Prop :=
  match raw with
  | None => True
  | Some shares =>
      unique = []
      \/ (Forall (fun k => exists q, JS.get k shares = Some (Fin q)
                                    /\ 0 <= q /\ q <= 1) unique
          /\ Qsum (map (lookupQ shares) unique) == 1)
  end.

(** The prepared shares of a dimension give every value a share, and the
    factors of the dimension's options sum to 1. *)
Definition dimension_sums_to_one (unique : list string)
  (prepared : JS.Record_ number) : Prop :=
  (forall k, In k unique ->
     exists q, JS.get k prepared = Some (Fin q) /\ 0 <= q)
  /\ Qsum (map (share_factor prepared) (dimension_options unique)) == 1.

(** The key of a dimension as the allocation reads it: a falsy key (null
    or the empty string) stands for "absent". *)
Definition read_key (key : option string) : option string :=
  if JS.truthy_str key then key else None.

(** The subtype, setting and line of a path, as the allocation reads
    them. *)
Definition path_dimensions (info : PathInfo)
  : option string * option string * option string :=
  (read_key (path_subtype_key info), read_key (path_setting_key info),
   read_key (path_line_key info)).

(** The share a regimen is given by the configuration, as a rational. *)
Definition regimen_shareQ (shares : JS.Record_ number) (regimen : string) : Q :=
  valQ (JS.or_default (JS.get regimen shares) (Fin 0)).

(** The share a regimen ends up with on a path, as a rational. *)
Definition leaf_shareQ (path_regimen_shares : JS.Record_ number)
  (regimen : string) : Q :=
  valQ (JS.or_default (JS.get regimen path_regimen_shares) (Fin 0)).

(** The message is the conservation warning of step 6. *)
Definition is_conservation_check (m : message) : bool :=
  match m with
  | ConservationCheck _ _ _ => true
  | _ => false
  end.

(** The configured regimen shares have a positive sum on every path where
    some regimen has one. *)
Definition regimen_shares_cover (config : CohortAllocationConfig)
  (paths : JS.Record_ PathInfo) : Prop :=
  forall entry,
    In entry paths ->
    has_regimen_shares (configured_regimen_shares config)
      (regimen_keys (snd entry)) = true ->
    0 < Qsum (map (regimen_shareQ (configured_regimen_shares config))
                (regimen_keys (snd entry))).

(** [setting_shares || stage_shares] *)
Definition raw_setting_shares (assumptions : Types.Assumptions)
  : option (JS.Record_ number) :=
  match Types.setting_shares assumptions with
  | Some x => Some x
  | None => Types.stage_shares assumptions
  end.

(** The taxonomy and the assumptions are fully covered: each dimension's
    shares cover its values and sum to 1, the paths are exactly the
    combinations of the dimension values, and the regimen shares cover
    every path that has any. *)
Definition fully_covered (treatment_map : Types.TreatmentMap)
  (assumptions : Types.Assumptions) (config : CohortAllocationConfig) : Prop :=
  let nodes := Types.nodes treatment_map in
  let subtypes := unique_values Types.subtype_key nodes in
  let settings := unique_values Types.setting_key nodes in
  let lines := unique_values Types.line_key nodes in
  dimension_covered subtypes (Types.subtype_shares assumptions)
  /\ dimension_covered settings (raw_setting_shares assumptions)
  /\ dimension_covered lines (Types.line_shares assumptions)
  /\ Permutation
       (map (fun e => path_dimensions (snd e)) (unique_paths nodes))
       (combinations (dimension_options subtypes)
          (dimension_options settings) (dimension_options lines))
  /\ regimen_shares_cover config (unique_paths nodes).

(** The population of a path, as the product of the pool and the factors
    of its dimensions. *)
Definition path_populationQ (prep : Prepared) (pool : Q)
  (entry : string * PathInfo) : Q :=
  pool
  * (share_factor (prep_subtype_shares prep)
       (fst (fst (path_dimensions (snd entry))))
     * share_factor (prep_setting_shares prep)
         (snd (fst (path_dimensions (snd entry))))
     * share_factor (prep_line_shares prep)
         (snd (path_dimensions (snd entry)))).

(** The sum of the shares the regimens of a path end up with. *)
Definition path_weightQ (config : CohortAllocationConfig) (prep : Prepared)
  (entry : string * PathInfo) : Q :=
  Qsum (map (leaf_shareQ
               (fst (build_path_regimen_shares
                       (configured_regimen_shares config) (fst entry)
                       (regimen_keys (snd entry))
                       (fst (path_population prep (snd entry))))))
          (regimen_keys (snd entry))).

(** Two subtypes and two settings, of which only two combinations are
    paths of the taxonomy. *)
Definition sparse_map : Types.TreatmentMap :=
  map_of [node_on "n1" (Some "A") (Some "s1") None "r1";
          node_on "n2" (Some "B") (Some "s2") None "r1"].

Definition sparse_assumptions : Types.Assumptions :=
  assumptions_with (Fin 1000000) (Fin 1)
    (Some [("A", Fin 0.6); ("B", Fin 0.4)])
    (Some [("s1", Fin 0.7); ("s2", Fin 0.3)])
    None.

(** Regimen shares that give the only regimen of the path nothing. *)
Definition zero_regimen_config : CohortAllocationConfig :=
  {| validation := DEFAULT_VALIDATION_CONFIG;
     population_model := auto;
     regimen_shares := Some [("r1", Fin 0)] |}.

(** Regimen shares summing to 1.0005 under a tolerance of 0.0001. *)
Definition tight_tolerance_config : CohortAllocationConfig :=
  {| validation :=
       {| allow_share_renormalization := true;
          allow_equal_regimen_split := true;
          share_sum_tolerance := 0.0001;
          max_renormalization_deviation := 0.15;
          max_population := Some (Fin 350000000) |};
     population_model := auto;
     regimen_shares := Some [("r1", Fin 0.5); ("r2", Fin 0.5005)] |}.

End AllocationTerms.

(* ------------------------------------------------------------------ *)
(** ** Forecast generation *)

Section ForecastTerms.

Import Forecast.
Local Open Scope string_scope.

(** Run the computations in order and concatenate their results; the first
    one that does not return a value ends the run. *)
Fixpoint in_sequence {A : Type} (steps : list (outcome (list A)))
  : outcome (list A) :=
  match steps with
  | [] => Ok []
  | step :: rest =>
      a <- step ;; b <- in_sequence rest ;; Ok (a ++ b)%list
  end.

(** The scenarios [generateForecast] iterates over. *)
Definition scenarios_of (base_assumptions : Types.Assumptions)
  : JS.Record_ Types.ScenarioParameters :=
  match Types.scenarios base_assumptions with
  | Some s => s
  | None => default_scenarios
  end.

(** What the allocation reads of a base population: a missing, zero or
    NaN value is no value. *)
Definition read_population (x : option number) : option number :=
  match x with
  | Some v => if JS.truthy v then Some v else None
  | None => None
  end.

(** The assumptions of year offset [t] of a scenario, as the specification
    words them: incidence and prevalence multiplied by [(1 + cagr)^t], the
    treated rate by the rate multiplier, every entry of
    [time_on_treatment_months] by the time-on-treatment multiplier. *)
Definition scaled_assumptions (base_assumptions : Types.Assumptions)
  (scenario_params : Types.ScenarioParameters) (t : nat) : Types.Assumptions :=
  let growth :=
    JS.pow (JS.add (Fin 1) (Types.incidence_cagr scenario_params)) t in
  {| Types.base_year := Types.base_year base_assumptions;
     Types.horizon_years := Types.horizon_years base_assumptions;
     Types.avg_weight_kg := Types.avg_weight_kg base_assumptions;
     Types.vial_sizes := Types.vial_sizes base_assumptions;
     Types.incidence :=
       option_map (fun x => JS.mul x growth) (Types.incidence base_assumptions);
     Types.prevalence :=
       option_map (fun x => JS.mul x growth)
         (Types.prevalence base_assumptions);
     Types.subtype_shares := Types.subtype_shares base_assumptions;
     Types.stage_shares := Types.stage_shares base_assumptions;
     Types.setting_shares := Types.setting_shares base_assumptions;
     Types.treated_rate :=
       JS.mul (Types.treated_rate base_assumptions)
         (Types.treated_rate_multiplier scenario_params);
     Types.line_shares := Types.line_shares base_assumptions;
     Types.time_on_treatment_months :=
       match Types.time_on_treatment_months base_assumptions with
       | Some months =>
           Some (map (fun '(key, val) =>
                        (key, JS.mul val (Types.tot_multiplier scenario_params)))
                   months)
       | None => None
       end;
     Types.relative_dose_intensity :=
       Types.relative_dose_intensity base_assumptions;
     Types.scenarios := Types.scenarios base_assumptions |}.

(** The computation of one year of one scenario, as the specification
    words it: the full allocation and the demand calculation on the scaled
    assumptions, and one record for each demand node. *)
Definition recomputed_year (Math_sqrt : number -> number)
  (treatment_map : Types.TreatmentMap)
  (base_assumptions : Types.Assumptions) (scenario_name : string)
  (scenario_params : Types.ScenarioParameters) (t : nat)
  : outcome (list Types.ForecastRecord) :=
  let assumptions := scaled_assumptions base_assumptions scenario_params t in
  year_population <-
    Population.allocatePopulation treatment_map assumptions
      CohortAllocator.DEFAULT_ALLOCATION_CONFIG ;;
  year_demand <-
    Exposure.calculateDemand Math_sqrt treatment_map
      (Population.nodes year_population) assumptions ;;
  Ok (flat_map
        (record_of
           (JS.add (Types.base_year base_assumptions)
              (Fin (inject_Z (Z.of_nat t))))
           scenario_name (Population.nodes year_population))
        year_demand).

End ForecastTerms.

(* ------------------------------------------------------------------ *)
(** ** Forecast examples *)

Section ForecastExampleTerms.

Import Forecast CohortAllocator.
Local Open Scope string_scope.

(** The "base", "low" and "high" scenarios of the default assumptions. *)
Definition base_scenario : Types.ScenarioParameters :=
  {| Types.incidence_cagr := Fin 0.005;
     Types.treated_rate_multiplier := Fin 1;
     Types.tot_multiplier := Fin 1;
     Types.adoption_multiplier := Fin 1 |}.

Definition low_scenario : Types.ScenarioParameters :=
  {| Types.incidence_cagr := Fin 0;
     Types.treated_rate_multiplier := Fin 0.9;
     Types.tot_multiplier := Fin 0.9;
     Types.adoption_multiplier := Fin 0.85 |}.

Definition high_scenario : Types.ScenarioParameters :=
  {| Types.incidence_cagr := Fin 0.01;
     Types.treated_rate_multiplier := Fin 1.1;
     Types.tot_multiplier := Fin 1.1;
     Types.adoption_multiplier := Fin 1.15 |}.

(** Assumptions with a treated rate of 0.95, a horizon of one year and
    the three default scenarios. *)
Definition high_rate_assumptions : Types.Assumptions :=
  {| Types.base_year := Fin 2024;
     Types.horizon_years := Fin 1;
     Types.avg_weight_kg := Types.WeightNumber (Fin 70);
     Types.vial_sizes :=
       {| Types.vials_IV := Some [vial 150; vial 420];
          Types.vials_SC := None |};
     Types.incidence := Some (Fin 100000);
     Types.prevalence := None;
     Types.subtype_shares := None;
     Types.stage_shares := None;
     Types.setting_shares := None;
     Types.treated_rate := Fin 0.95;
     Types.line_shares := None;
     Types.time_on_treatment_months := None;
     Types.relative_dose_intensity := Some (Fin 1);
     Types.scenarios :=
       Some [("base", base_scenario); ("low", low_scenario);
             ("high", high_scenario)] |}.

(** A base allocation with no nodes, as passed to [generateForecast]. *)
Definition base_allocation (year : number) : Population.PopulationAllocation :=
  {| Population.base_year := year;
     Population.disease := "disease";
     Population.molecule := "molecule";
     Population.total_incidence := None;
     Population.total_prevalence := None;
     Population.nodes := [];
     Population.rollups :=
       {| Population.by_subtype := []; Population.by_setting := [];
          Population.by_line := [] |};
     Population.allocation_trace :=
       {| Population.summary_base_pool := Fin 0;
          Population.summary_base_pool_source := from_prevalence;
          Population.summary_treated_pool := Fin 0;
          Population.summary_conservation_ratio := Fin 1;
          Population.summary_warnings := [] |};
     Population.node_traces := [] |}.

End ForecastExampleTerms.

(* ------------------------------------------------------------------ *)
(** ** Validation results *)

Section ValidationResultTerms.

Import Validation.

(** A validation result is consistent: valid without errors, or invalid
    with at least one. *)
Definition consistent (result : ValidationResult) : Prop :=
  (valid result = true /\ errors result = [])
  \/ (valid result = false /\ errors result <> []).

(** The result of one of the three validators. *)
Definition validator_result (result : ValidationResult) : Prop :=
  (exists rate name, result = validateRate rate name)
  \/ (exists population name config,
        result = validatePopulation population name config)
  \/ (exists shares name config,
        result = fst (validateShares shares name config)).

(** The population passes the configured ceiling: there is none, or it is
    0 or NaN (falsy), or the population is not above it. *)
Definition within_ceiling (config : ValidationConfig) (p : Q) : Prop :=
  match max_population config with
  | Some (Fin m) => m == 0 \/ p <= m
  | _ => True
  end.

(** The four ways [validateShares] accepts a map whose values sum to [s]:
    kept within the tolerance, renormalized, kept as an intentional
    patient loss, or kept short of 1 without a word. *)
Inductive acceptance : Type :=
| KeptWithinTolerance
| RenormalizedBySum
| KeptAsPatientLoss
| KeptUnflagged.

Definition accepted_as (config : ValidationConfig) (s : Q) (how : acceptance)
  : Prop :=
  let deviation := Qabs (s - 1) in
  match how with
  | KeptWithinTolerance => deviation <= share_sum_tolerance config
  | RenormalizedBySum =>
      share_sum_tolerance config < deviation
      /\ deviation <= max_renormalization_deviation config
      /\ allow_share_renormalization config = true
  | KeptAsPatientLoss =>
      s <= 1 /\ share_sum_tolerance config < deviation
      /\ max_renormalization_deviation config < deviation
  | KeptUnflagged =>
      s <= 1 /\ share_sum_tolerance config < deviation
      /\ deviation <= max_renormalization_deviation config
      /\ allow_share_renormalization config = false
  end.

(** The shares and the warnings an accepted map is returned with. *)
Definition accepted_shares (shares : JS.Record_ number) (s : Q)
  (how : acceptance) : JS.Record_ number :=
  match how with
  | RenormalizedBySum => renormalize shares (Fin s)
  | _ => shares
  end.

Definition accepted_warnings (dimension_name : string) (s : Q)
  (how : acceptance) : list message :=
  match how with
  | RenormalizedBySum => [Renormalized dimension_name (Fin s)]
  | KeptAsPatientLoss => [PatientLoss dimension_name (Fin s)]
  | _ => []
  end.

(** Shares that sum to 0.9, renormalized under the default configuration. *)
Definition short_shares : JS.Record_ number :=
  [("1L"%string, Fin 0.6); ("2L"%string, Fin 0.3)].

(** Results of two validators, the first of them invalid. *)
Definition example_results : list ValidationResult :=
  [validateRate (Fin 2) "treated_rate"%string;
   validatePopulation (Fin 5) "base_pool"%string DEFAULT_VALIDATION_CONFIG].

End ValidationResultTerms.

(* ------------------------------------------------------------------ *)
(** ** Paths, cohorts and nodes *)

Section PathTerms.

Import Validation CohortAllocator.
Local Open Scope string_scope.

(** The text contains no vertical bar. *)
Fixpoint bar_free (s : string) : bool :=
  match s with
  | EmptyString => true
  | String c s' => negb (Ascii.eqb c "|") && bar_free s'
  end.

(** A dimension key the path key renders faithfully: null, or a text that
    is not empty, is not the placeholder ["_"] and contains no bar. *)
Definition clean_key (k : option string) : Prop :=
  match k with
  | None => True
  | Some s => s <> EmptyString /\ s <> "_" /\ bar_free s = true
  end.

(** The path of a treatment node, and its key in [unique_paths]. *)
Definition node_path (node : Types.TreatmentNode) : CohortPath :=
  {| subtype_key := Types.subtype_key node;
     setting_key := Types.setting_key node;
     line_key := Types.line_key node;
     regimen_key := Types.regimen_key node |}.

Definition path_key (p : CohortPath) : string :=
  buildPathKey (subtype_key p) (setting_key p) (line_key p).

(** What tells leaf cohorts apart: the key of the path and the regimen. *)
Definition leaf_key (p : CohortPath) : string * string :=
  (path_key p, regimen_key p).

Definition clean_node (node : Types.TreatmentNode) : Prop :=
  clean_key (Types.subtype_key node) /\ clean_key (Types.setting_key node)
  /\ clean_key (Types.line_key node).

(** The path of a regimen of an entry of [unique_paths]. *)
Definition entry_path (info : PathInfo) (regimen : string) : CohortPath :=
  {| subtype_key := path_subtype_key info;
     setting_key := path_setting_key info;
     line_key := path_line_key info;
     regimen_key := regimen |}.

(** What [unique_paths] holds once the nodes [seen] have been added: one
    entry for each path key, named by it, carrying the keys of a node and
    the regimens, each once, of the nodes on that path key. *)
Record paths_of (seen : list Types.TreatmentNode)
  (paths : JS.Record_ PathInfo) : Prop := {
  paths_distinct : NoDup (JS.keys paths);
  paths_named : Forall key_names_path paths;
  paths_regimens : Forall (fun e => NoDup (regimen_keys (snd e))) paths;
  paths_from :
    forall key info, In (key, info) paths ->
      (exists node, In node seen
                    /\ entry_path info (Types.regimen_key node)
                       = node_path node)
      /\ forall r, In r (regimen_keys info) ->
           exists node, In node seen /\ leaf_key (node_path node) = (key, r);
  paths_cover :
    forall node, In node seen ->
      exists info, In (path_key (node_path node), info) paths
                   /\ In (Types.regimen_key node) (regimen_keys info)
}.

(** The population node built from a cohort. *)
Definition node_from_cohort (node : Types.TreatmentNode)
  (cohort : LeafCohort) : Types.PopulationNode :=
  {| Types.pn_node_id := Types.node_id node;
     Types.eligible_patients := JS.round (patients cohort);
     Types.pn_treated_patients := JS.round (patients cohort);
     Types.pn_patient_years :=
       JS.div (JS.round (JS.mul (patient_years cohort) (Fin 100)))
         (Fin 100) |}.

(** The assumptions with the given share maps for the three dimensions. *)
Definition with_shares (assumptions : Types.Assumptions)
  (subtype_shares setting_shares line_shares : JS.Record_ number)
  : Types.Assumptions :=
  {| Types.base_year := Types.base_year assumptions;
     Types.horizon_years := Types.horizon_years assumptions;
     Types.avg_weight_kg := Types.avg_weight_kg assumptions;
     Types.vial_sizes := Types.vial_sizes assumptions;
     Types.incidence := Types.incidence assumptions;
     Types.prevalence := Types.prevalence assumptions;
     Types.subtype_shares := Some subtype_shares;
     Types.stage_shares := Types.stage_shares assumptions;
     Types.setting_shares := Some setting_shares;
     Types.treated_rate := Types.treated_rate assumptions;
     Types.line_shares := Some line_shares;
     Types.time_on_treatment_months :=
       Types.time_on_treatment_months assumptions;
     Types.relative_dose_intensity :=
       Types.relative_dose_intensity assumptions;
     Types.scenarios := Types.scenarios assumptions |}.

(** Two share maps give the values of a dimension the same shares. *)
Definition agree_on (values : list string) (shares shares' : JS.Record_ number)
  : Prop :=
  forall k, In k values -> JS.get k shares' = JS.get k shares.

(** The patient-years of a leaf cohort follow the months on treatment of
    its line: patients times months/12 for a line that is not empty and
    months that are a number other than 0, the patients themselves
    otherwise. *)
Definition patient_years_follow_months (assumptions : Types.Assumptions)
  (leaf : LeafCohort) : Prop :=
  (forall line months m,
     line_key (path leaf) = Some line -> line <> EmptyString ->
     Types.time_on_treatment_months assumptions = Some months ->
     JS.get line months = Some (Fin m) -> ~ m == 0 ->
     patient_years leaf = JS.mul (patients leaf) (Fin (m / 12)))
  /\ (forall line months m,
        line_key (path leaf) = Some line ->
        Types.time_on_treatment_months assumptions = Some months ->
        JS.get line months = Some (Fin m) -> m == 0 ->
        patient_years leaf = patients leaf)
  /\ (line_key (path leaf) = None
      \/ line_key (path leaf) = Some EmptyString
      \/ Types.time_on_treatment_months assumptions = None
      \/ (exists line months,
            line_key (path leaf) = Some line
            /\ Types.time_on_treatment_months assumptions = Some months
            /\ (JS.get line months = None \/ JS.get line months = Some NaN)) ->
      patient_years leaf = patients leaf).

(** The cohort patients [allocatePopulation] adds to the roll-up entry of
    a key: those of the nodes with that key that have a cohort, in the
    order of the nodes. *)
Definition rolled_up (node_to_cohort : JS.Record_ LeafCohort)
  (key_of : Types.TreatmentNode -> option string)
  (nodes : list Types.TreatmentNode) (k : string) : list number :=
  flat_map (fun node =>
              match JS.get (Types.node_id node) node_to_cohort with
              | Some cohort =>
                  if JS.opt_str_eq (key_of node) (Some k)
                  then [patients cohort] else []
              | None => []
              end) nodes.

(** The roll-up has no entry for the key when nothing was added, and the
    sum of what was added otherwise. *)
Definition rollup_entry (rollup : JS.Record_ number) (k : string)
  (added : list number) : Prop :=
  (added = [] /\ JS.get k rollup = None)
  \/ (added <> []
      /\ exists x, JS.get k rollup = Some (Fin x)
                   /\ x == Qsum (map valQ added)).

(** The assumptions with the given months on treatment. *)
Definition treated_for (assumptions : Types.Assumptions)
  (months : JS.Record_ number) : Types.Assumptions :=
  {| Types.base_year := Types.base_year assumptions;
     Types.horizon_years := Types.horizon_years assumptions;
     Types.avg_weight_kg := Types.avg_weight_kg assumptions;
     Types.vial_sizes := Types.vial_sizes assumptions;
     Types.incidence := Types.incidence assumptions;
     Types.prevalence := Types.prevalence assumptions;
     Types.subtype_shares := Types.subtype_shares assumptions;
     Types.stage_shares := Types.stage_shares assumptions;
     Types.setting_shares := Types.setting_shares assumptions;
     Types.treated_rate := Types.treated_rate assumptions;
     Types.line_shares := Types.line_shares assumptions;
     Types.time_on_treatment_months := Some months;
     Types.relative_dose_intensity :=
       Types.relative_dose_intensity assumptions;
     Types.scenarios := Types.scenarios assumptions |}.

(** The end-to-end example with six months on treatment in the first
    line, and its result. *)
Definition months_example_assumptions : Types.Assumptions :=
  treated_for settings_example_assumptions [("1L", Fin 6)].

Definition months_example_result : CohortAllocationResult :=
  Eval vm_compute in
    result_of (allocateCohorts settings_example_map
                 months_example_assumptions DEFAULT_ALLOCATION_CONFIG).

End PathTerms.

(* ------------------------------------------------------------------ *)
(** ** Intervals and demand *)

Section IntervalTerms.

Import Regex Exposure.
Local Open Scope string_scope.

(** A correction of the declared interval: finite, not negative, and more
    than a day away from a finite declared interval. *)
Definition correction_of (declared corrected : number) : Prop :=
  exists c d, corrected = Fin c /\ declared = Fin d
              /\ 0 <= c /\ 1 < Qabs (c - d).

(** The text contains no decimal digit. *)
Fixpoint digit_free (s : string) : bool :=
  match s with
  | EmptyString => true
  | String c s' => negb (digit c) && digit_free s'
  end.

(** Every match of the expression consumes a decimal digit. *)
Inductive needs_digit : regex -> Prop :=
| needs_digit_run : needs_digit (Many true digit)
| needs_digit_group r : needs_digit r -> needs_digit (Group r)
| needs_digit_first r1 r2 : needs_digit r1 -> needs_digit (Seq r1 r2)
| needs_digit_second r1 r2 : needs_digit r2 -> needs_digit (Seq r1 r2)
| needs_digit_alt r1 r2 :
    needs_digit r1 -> needs_digit r2 -> needs_digit (Alt r1 r2).

(** The treatment node a population node refers to: the first one with its
    id. *)
Definition node_of (treatment_map : Types.TreatmentMap)
  (pop_node : Types.PopulationNode) : option Types.TreatmentNode :=
  find (fun n => String.eqb (Types.node_id n) (Types.pn_node_id pop_node))
    (Types.nodes treatment_map).

(** The population nodes that refer to a treatment node. *)
Definition known_nodes (treatment_map : Types.TreatmentMap)
  (population_nodes : list Types.PopulationNode)
  : list Types.PopulationNode :=
  filter (fun p => match node_of treatment_map p with
                   | Some _ => true
                   | None => false
                   end) population_nodes.

End IntervalTerms.

(* ------------------------------------------------------------------ *)
(** ** Forecast records *)

Section ForecastShapeTerms.

Import Forecast.
Local Open Scope string_scope.

(** What identifies a forecast record: its scenario, its year and its
    node. *)
Definition record_key (r : Types.ForecastRecord) : string * number * string :=
  (Types.scenario r, Types.year r, Types.fr_node_id r).

(** The keys of the records of one year of one scenario: one for each node
    of the taxonomy, in its order. *)
Definition year_keys (treatment_map : Types.TreatmentMap)
  (base_assumptions : Types.Assumptions)
  (run : string * Types.ScenarioParameters * nat)
  : list (string * number * string) :=
  map (fun n =>
         (fst (fst run),
          JS.add (Types.base_year base_assumptions)
            (Fin (inject_Z (Z.of_nat (snd run)))),
          Types.node_id n))
    (Types.nodes treatment_map).

End ForecastShapeTerms.

(* ================================================================== *)
(** * Properties *)

(* ------------------------------------------------------------------ *)
(** ** Numbers *)

Lemma Qlt_bool_iff (x y : Q) : JS.Qlt_bool x y = true <-> x < y.
Proof.
  unfold JS.Qlt_bool. rewrite negb_true_iff.
  split; intro H.
  - apply Qnot_le_lt. intro Hle. apply Qle_bool_iff in Hle. congruence.
  - destruct (Qle_bool y x) eqn:E; [|reflexivity].
    apply Qle_bool_iff in E. exfalso. apply (Qlt_not_le _ _ H E).
Qed.

Lemma lt_Fin (x y : Q) : JS.lt (Fin x) (Fin y) = true <-> x < y.
Proof. apply Qlt_bool_iff. Qed.

Lemma gt_Fin (x y : Q) : JS.gt (Fin x) (Fin y) = true <-> y < x.
Proof. apply Qlt_bool_iff. Qed.

Lemma le_Fin (x y : Q) : JS.le (Fin x) (Fin y) = true <-> x <= y.
Proof. apply Qle_bool_iff. Qed.

Lemma lt_Fin_false (x y : Q) : JS.lt (Fin x) (Fin y) = false <-> y <= x.
Proof.
  rewrite <- not_true_iff_false, lt_Fin. split.
  - apply Qnot_lt_le.
  - intros H H'. apply (Qlt_not_le _ _ H' H).
Qed.

Lemma gt_Fin_false (x y : Q) : JS.gt (Fin x) (Fin y) = false <-> x <= y.
Proof. apply lt_Fin_false. Qed.

Lemma le_Fin_false (x y : Q) : JS.le (Fin x) (Fin y) = false <-> y < x.
Proof.
  rewrite <- not_true_iff_false, le_Fin. split.
  - apply Qnot_le_lt.
  - intros H H'. apply (Qlt_not_le _ _ H H').
Qed.


Lemma same_sym (a b : number) : a ~= b -> b ~= a.
Proof. destruct a, b; simpl; auto. intro H; symmetry; exact H. Qed.

Lemma same_trans (a b c : number) : a ~= b -> b ~= c -> a ~= c.
Proof.
  destruct a, b, c; simpl; auto; try contradiction.
  intros H1 H2. rewrite H1. exact H2.
Qed.

(** [values.reduce((a, b) => a + b, acc)] from any finite start. *)
Lemma fold_add_Fin (vs : list Q) (acc : Q) :
  fold_left JS.add (map Fin vs) (Fin acc)
  = Fin (fold_left Qplus vs acc).
Proof.
  revert acc. induction vs as [|v vs IH]; intro acc; simpl; [reflexivity|].
  apply IH.
Qed.

Lemma fold_add_NaN (vs : list number) : fold_left JS.add vs NaN = NaN.
Proof. induction vs as [|v vs IH]; simpl; [reflexivity|exact IH]. Qed.

Lemma fold_Qplus_acc (vs : list Q) (acc : Q) :
  fold_left Qplus vs acc == acc + fold_left Qplus vs 0.
Proof.
  revert acc. induction vs as [|v vs IH]; intro acc; simpl.
  - ring.
  - rewrite (IH (acc + v)), (IH (0 + v)). ring.
Qed.

Lemma fold_Qplus_Qsum (vs : list Q) : fold_left Qplus vs 0 == Qsum vs.
Proof.
  induction vs as [|v vs IH]; simpl; [reflexivity|].
  rewrite fold_Qplus_acc, IH. ring.
Qed.

Lemma sum_of_Fin (vs : list Q) :
  exists s, JS.sum_of (map Fin vs) = Fin s /\ s == Qsum vs.
Proof.
  exists (fold_left Qplus vs 0). split.
  - apply fold_add_Fin.
  - apply fold_Qplus_Qsum.
Qed.

(** A list of numbers all finite is the image of a list of rationals. *)
Lemma all_finite_map (vs : list number) :
  Forall finite vs -> exists qs, vs = map Fin qs.
Proof.
  induction 1 as [|v vs [q Hq] _ [qs IH]].
  - exists []. reflexivity.
  - exists (q :: qs). simpl. congruence.
Qed.

Lemma sum_of_finite_inv (vs : list number) (s : Q) :
  JS.sum_of vs = Fin s -> Forall finite vs.
Proof.
  unfold JS.sum_of. generalize 0 as acc. revert s.
  induction vs as [|v vs IH]; intros s acc H; [constructor|].
  simpl in H. destruct v as [|q].
  - simpl in H. rewrite fold_add_NaN in H. discriminate.
  - constructor; [exists q; reflexivity|]. exact (IH _ _ H).
Qed.

(** Turn the boolean comparisons of finite numbers in the context into
    order facts on rationals. *)
Ltac order_facts :=
  repeat match goal with
  | H : JS.gt (Fin _) (Fin _) = true |- _ => apply gt_Fin in H
  | H : JS.gt (Fin _) (Fin _) = false |- _ => apply gt_Fin_false in H
  | H : JS.lt (Fin _) (Fin _) = true |- _ => apply lt_Fin in H
  | H : JS.lt (Fin _) (Fin _) = false |- _ => apply lt_Fin_false in H
  | H : JS.le (Fin _) (Fin _) = true |- _ => apply le_Fin in H
  | H : JS.le (Fin _) (Fin _) = false |- _ => apply le_Fin_false in H
  end.

(* ------------------------------------------------------------------ *)
(** ** Share validation *)

Section ShareValidation.

Import Validation.

Lemma share_accepted_or_rejected (v : number) :
  in_unit_interval v \/ rejected_share v.
Proof.
  destruct v as [|q]; [right; left; reflexivity|].
  destruct (Qlt_le_dec q 0) as [Hn|Hn].
  - right; right. exists q. auto.
  - destruct (Qlt_le_dec 1 q) as [Hg|Hg].
    + right; right. exists q. auto.
    + left. exists q. auto.
Qed.

Lemma rejected_not_accepted (v : number) :
  rejected_share v -> ~ in_unit_interval v.
Proof.
  intros [->|(q & -> & Hq)] (q' & E & H0 & H1); [discriminate|].
  injection E as <-. destruct Hq as [Hq|Hq].
  - apply (Qlt_not_le _ _ Hq H0).
  - apply (Qlt_not_le _ _ Hq H1).
Qed.

Lemma check_share_nil (dimension_name key : string) (v : number) :
  check_share dimension_name (key, v) = [] <-> in_unit_interval v.
Proof.
  unfold check_share. destruct v as [|q]; cbn [JS.isNaN].
  - split; [discriminate|]. intros (q & E & _). discriminate.
  - split.
    + intro H. apply app_eq_nil in H as [H0 H1].
      destruct (JS.lt (Fin q) (Fin 0)) eqn:E0; [discriminate|].
      destruct (JS.gt (Fin q) (Fin 1)) eqn:E1; [discriminate|].
      order_facts. exists q. auto.
    + intros (q' & E & H0 & H1). injection E as <-.
      apply lt_Fin_false in H0. apply gt_Fin_false in H1.
      rewrite H0, H1. reflexivity.
Qed.

Lemma check_shares_nil (dimension_name : string) (shares : JS.Record_ number) :
  check_shares dimension_name shares = []
  <-> Forall (fun e => in_unit_interval (snd e)) shares.
Proof.
  induction shares as [|[k v] rest IH].
  - split; [constructor|reflexivity].
  - change (check_shares dimension_name ((k, v) :: rest))
      with (check_share dimension_name (k, v)
            ++ check_shares dimension_name rest).
    split.
    + intro H. apply app_eq_nil in H as [H1 H2].
      constructor; [apply (check_share_nil dimension_name k), H1 | apply IH, H2].
    + intro H. inversion H as [|? ? Hv Hrest]; subst. cbn [snd] in Hv.
      apply (check_share_nil dimension_name k) in Hv. apply IH in Hrest.
      rewrite Hv, Hrest. reflexivity.
Qed.

Lemma accepted_values_finite (shares : JS.Record_ number) :
  Forall (fun e => in_unit_interval (snd e)) shares ->
  Forall finite (JS.values shares).
Proof.
  induction 1 as [|[k v] rest (q & E & _) _ IH]; simpl; constructor; auto.
  exists q. exact E.
Qed.

Lemma accepted_sum_finite (shares : JS.Record_ number) :
  Forall (fun e => in_unit_interval (snd e)) shares ->
  exists s, JS.sum_of (JS.values shares) = Fin s.
Proof.
  intro H. apply accepted_values_finite, all_finite_map in H as [qs E].
  rewrite E. destruct (sum_of_Fin qs) as (s & Hs & _). exists s. exact Hs.
Qed.

(** The verdict on a non-empty map whose entries all pass the per-entry
    check. *)
Lemma validateShares_sum_verdict (shares : JS.Record_ number)
  (dimension_name : string) (config : ValidationConfig) (s : Q) :
  shares <> [] ->
  Forall (fun e => in_unit_interval (snd e)) shares ->
  JS.sum_of (JS.values shares) = Fin s ->
  (valid (fst (validateShares shares dimension_name config)) = false
   <-> sum_exceeds config s).
Proof.
  intros Hne Hall Hsum. unfold validateShares, sum_exceeds.
  destruct shares as [|e rest]; [congruence|].
  apply (check_shares_nil dimension_name) in Hall. rewrite Hall, Hsum.
  cbn [JS.sub JS.abs JS.lift2].
  destruct (JS.gt (Fin (Qabs (s - 1))) (Fin (share_sum_tolerance config))) eqn:Edev;
    [destruct (JS.gt (Fin s) (Fin 1)) eqn:Egt;
     [destruct (allow_share_renormalization config) eqn:Eallow;
      [destruct (JS.le (Fin (Qabs (s - 1)))
                   (Fin (max_renormalization_deviation config))) eqn:Emax|]
     |destruct (JS.gt (Fin (Qabs (s - 1)))
                  (Fin (max_renormalization_deviation config)));
      [|destruct (allow_share_renormalization config)]]|];
    cbn [andb fst valid]; order_facts.
  - split; [discriminate|]. intros (_ & _ & [H|H]); [discriminate|].
    exfalso. apply (Qlt_not_le _ _ H Emax).
  - split; [intros _|reflexivity]. repeat split; auto.
    rewrite Qabs_pos in Edev by lra. exact Edev.
  - split; [intros _|reflexivity]. repeat split; auto.
    rewrite Qabs_pos in Edev by lra. exact Edev.
  - split; [discriminate|]. intros (H & _). lra.
  - split; [discriminate|]. intros (H & _). lra.
  - split; [discriminate|]. intros (H & _). lra.
  - split; [discriminate|]. intros (H1 & H2 & _).
    rewrite Qabs_pos in Edev by lra. lra.
Qed.

Lemma validateShares_rejected_entry (shares : JS.Record_ number)
  (dimension_name : string) (config : ValidationConfig) :
  ~ Forall (fun e => in_unit_interval (snd e)) shares ->
  valid (fst (validateShares shares dimension_name config)) = false.
Proof.
  intro H. unfold validateShares. destruct shares as [|e rest]; [reflexivity|].
  destruct (check_shares dimension_name (e :: rest)) eqn:E; [|reflexivity].
  apply check_shares_nil in E. contradiction.
Qed.

Lemma some_entry_rejected (shares : JS.Record_ number) :
  ~ Forall (fun e => in_unit_interval (snd e)) shares <->
  exists key v, In (key, v) shares /\ rejected_share v.
Proof.
  split.
  - induction shares as [|[k v] rest IH]; intro H.
    + exfalso. apply H. constructor.
    + destruct (share_accepted_or_rejected v) as [Hv|Hv].
      * destruct IH as (k' & v' & Hin & Hr).
        { intro Hrest. apply H. constructor; assumption. }
        exists k', v'. split; [right; exact Hin|exact Hr].
      * exists k, v. split; [left; reflexivity|exact Hv].
  - intros (k & v & Hin & Hr) Hall.
    rewrite Forall_forall in Hall. apply (rejected_not_accepted v Hr).
    exact (Hall (k, v) Hin).
Qed.

Lemma all_accepted_dec (shares : JS.Record_ number) :
  Forall (fun e => in_unit_interval (snd e)) shares
  \/ ~ Forall (fun e => in_unit_interval (snd e)) shares.
Proof.
  induction shares as [|[k v] r [IH|IH]].
  - left; constructor.
  - destruct (share_accepted_or_rejected v) as [Hv|Hv].
    + left; constructor; assumption.
    + right. intro H. inversion H; subst.
      apply (rejected_not_accepted v Hv). assumption.
  - right. intro H. inversion H; subst. contradiction.
Qed.

(** When [validateShares] reports a hard error, and only then. *)
Lemma validateShares_invalid_cases (shares : JS.Record_ number)
  (dimension_name : string) (config : ValidationConfig) :
  valid (fst (validateShares shares dimension_name config)) = false
  <-> shares = []
      \/ (exists key v, In (key, v) shares /\ rejected_share v)
      \/ (exists s, JS.sum_of (JS.values shares) = Fin s
                    /\ sum_exceeds config s).
Proof.
  destruct shares as [|e rest] eqn:Eshares.
  - split; [left; reflexivity|reflexivity].
  - rewrite <- Eshares.
    assert (Hne : shares <> []) by (rewrite Eshares; discriminate).
    destruct (all_accepted_dec shares) as [Hall|Hbad].
    + destruct (accepted_sum_finite shares Hall) as [s Hs].
      rewrite (validateShares_sum_verdict shares dimension_name config s Hne Hall Hs).
      split.
      * intro H. right; right. exists s. auto.
      * intros [H|[H|(s' & Hs' & H)]].
        -- contradiction.
        -- apply some_entry_rejected in H. contradiction.
        -- rewrite Hs in Hs'. injection Hs' as <-. exact H.
    + split.
      * intros _. right; left. apply some_entry_rejected, Hbad.
      * intros _. apply validateShares_rejected_entry, Hbad.
Qed.

(** C3. [validateShares] reports a hard validation error exactly when the
    share map is empty, or some value is NaN, negative or greater than 1,
    or the sum exceeds 1.0 by more than [share_sum_tolerance] while
    renormalization is disabled or the deviation from 1.0 exceeds
    [max_renormalization_deviation]; in every other case (any sum not
    above 1.0 included) the result is valid. *)
Theorem validateShares_hard_error_iff (shares : JS.Record_ number)
  (dimension_name : string) (config : ValidationConfig) :
  (valid (fst (validateShares shares dimension_name config)) = false
   <-> shares = []
       \/ (exists key v, In (key, v) shares /\ rejected_share v)
       \/ (exists s, JS.sum_of (JS.values shares) = Fin s
                     /\ sum_exceeds config s))
  /\ (valid (fst (validateShares shares dimension_name config)) = true
      <-> shares <> []
          /\ Forall (fun e => in_unit_interval (snd e)) shares
          /\ (forall s, JS.sum_of (JS.values shares) = Fin s ->
                        ~ sum_exceeds config s)).
Proof.
  split; [apply validateShares_invalid_cases|].
  rewrite <- not_false_iff_true, validateShares_invalid_cases.
  split.
  - intro H. repeat split.
    + intro E. apply H. left. exact E.
    + destruct (all_accepted_dec shares) as [Hall|Hbad]; [exact Hall|].
      exfalso. apply H. right; left. apply some_entry_rejected, Hbad.
    + intros s Hs Hex. apply H. right; right. exists s. auto.
  - intros (Hne & Hall & Hsum) [E|[Hbad|(s & Hs & Hex)]].
    + contradiction.
    + apply some_entry_rejected in Hbad. contradiction.
    + exact (Hsum s Hs Hex).
Qed.

Lemma validateShares_invalid_has_errors (shares : JS.Record_ number)
  (dimension_name : string) (config : ValidationConfig) :
  valid (fst (validateShares shares dimension_name config)) = false ->
  errors (fst (validateShares shares dimension_name config)) <> [].
Proof.
  unfold validateShares. destruct shares as [|e rest];
    [intros _; simpl; discriminate|].
  destruct (check_shares dimension_name (e :: rest));
    [|intros _; simpl; discriminate].
  repeat match goal with
         | |- context [if ?b then _ else _] => destruct b
         end; cbn [fst valid errors]; intro H; discriminate.
Qed.

Lemma renormalize_entries (shares : JS.Record_ number) (s d : Q) :
  s == d -> ~ d == 0 ->
  Forall (fun e => in_unit_interval (snd e)) shares ->
  Forall2 (fun e n => fst n = fst e /\ snd n ~= JS.div (snd e) (Fin d))
    shares (renormalize shares (Fin s)).
Proof.
  intros Hs Hd. induction 1 as [|[k v] rest (q & E & _) _ IH]; simpl.
  - constructor.
  - constructor; [|exact IH]. split; [reflexivity|].
    cbn [snd] in *. subst v. unfold JS.div.
    destruct (Qeq_bool s 0) eqn:E0.
    + apply Qeq_bool_iff in E0. rewrite Hs in E0. contradiction.
    + destruct (Qeq_bool d 0) eqn:E1.
      * apply Qeq_bool_iff in E1. contradiction.
      * simpl. rewrite Hs. reflexivity.
Qed.

(** C4. With [share_sum_tolerance] below 0.10,
    [max_renormalization_deviation] 0.15 and renormalization allowed, a
    share map with values in [0, 1] summing to 1.10 is accepted, each
    normalized value is the original divided by 1.10, and the one warning
    recorded names the dimension; a map summing to 1.6 is a hard
    validation error. *)
Theorem validateShares_renormalization (shares over : JS.Record_ number)
  (dimension_name : string) (config : ValidationConfig) :
  Forall (fun e => in_unit_interval (snd e)) shares ->
  JS.sum_of (JS.values shares) ~= Fin 1.10 ->
  JS.sum_of (JS.values over) ~= Fin 1.6 ->
  share_sum_tolerance config < 0.10 ->
  max_renormalization_deviation config == 0.15 ->
  allow_share_renormalization config = true ->
  (let result := fst (validateShares shares dimension_name config) in
   valid result = true
   /\ (exists sum, warnings result = [Renormalized dimension_name sum]
                   /\ sum ~= Fin 1.10)
   /\ exists normalized,
        normalized_value result = Some normalized
        /\ Forall2 (fun e n => fst n = fst e
                               /\ snd n ~= JS.div (snd e) (Fin 1.10))
             shares normalized)
  /\ (let result := fst (validateShares over dimension_name config) in
      valid result = false /\ errors result <> []).
Proof.
  intros Hall Hsum Hover Htol Hmax Hallow. split.
  - destruct (JS.sum_of (JS.values shares)) as [|s] eqn:Es; [contradiction|].
    simpl in Hsum.
    assert (Hne : shares <> []).
    { intro E. subst shares. vm_compute in Es. injection Es as <-.
      vm_compute in Hsum. discriminate. }
    unfold validateShares. destruct shares as [|e rest]; [congruence|].
    pose proof Hall as Hchk.
    apply (check_shares_nil dimension_name) in Hchk. rewrite Hchk, Es.
    cbn [JS.sub JS.abs JS.lift2].
    assert (Habs : Qabs (s - 1) == 0.10).
    { rewrite Qabs_pos; lra. }
    assert (E1 : JS.gt (Fin (Qabs (s - 1))) (Fin (share_sum_tolerance config))
                 = true) by (apply gt_Fin; lra).
    assert (E2 : JS.gt (Fin s) (Fin 1) = true) by (apply gt_Fin; lra).
    assert (E3 : JS.le (Fin (Qabs (s - 1)))
                   (Fin (max_renormalization_deviation config)) = true)
      by (apply le_Fin; lra).
    rewrite E1, E2, Hallow, E3. cbn [andb fst valid warnings normalized_value].
    split; [reflexivity|]. split.
    + exists (Fin s). split; [reflexivity|exact Hsum].
    + eexists. split; [reflexivity|].
      apply renormalize_entries; [exact Hsum|lra|exact Hall].
  - cbv zeta.
    assert (Hinv : valid (fst (validateShares over dimension_name config))
                   = false).
    { apply validateShares_invalid_cases. right; right.
      destruct (JS.sum_of (JS.values over)) as [|s] eqn:Es; [contradiction|].
      simpl in Hover. exists s. split; [reflexivity|].
      unfold sum_exceeds. split; [lra|]. split; [lra|]. right.
      rewrite Qabs_pos; lra. }
    split; [exact Hinv|]. apply validateShares_invalid_has_errors, Hinv.
Qed.

Lemma validateShares_renormalization_witness :
  (let result := fst (validateShares renormalization_example "test"
                        DEFAULT_VALIDATION_CONFIG) in
   valid result = true
   /\ (exists sum, warnings result = [Renormalized "test" sum]
                   /\ sum ~= Fin 1.10)
   /\ exists normalized,
        normalized_value result = Some normalized
        /\ Forall2 (fun e n => fst n = fst e
                               /\ snd n ~= JS.div (snd e) (Fin 1.10))
             renormalization_example normalized)
  /\ (let result := fst (validateShares rejection_example "test"
                           DEFAULT_VALIDATION_CONFIG) in
      valid result = false /\ errors result <> []).
Proof.
  apply (validateShares_renormalization renormalization_example
           rejection_example "test" DEFAULT_VALIDATION_CONFIG).
  - repeat constructor; exists 0.55; (split; [reflexivity|split; discriminate]).
  - reflexivity.
  - reflexivity.
  - reflexivity.
  - reflexivity.
  - reflexivity.
Defined.

End ShareValidation.

(* ------------------------------------------------------------------ *)
(** ** Vial rounding *)

Section VialRounding.

Import Exposure.
Local Open Scope string_scope.

Lemma Qn_S (n : nat) : Qn (S n) == Qn n + 1.
Proof.
  unfold Qn. rewrite Nat2Z.inj_succ, <- Z.add_1_r, inject_Z_plus. reflexivity.
Qed.

Lemma Qn_nonneg (n : nat) : 0 <= Qn n.
Proof.
  unfold Qn. change 0 with (inject_Z 0). rewrite <- Zle_Qle. lia.
Qed.

Lemma Qn_le (a b : nat) : (a <= b)%nat <-> Qn a <= Qn b.
Proof. unfold Qn. rewrite <- Zle_Qle. lia. Qed.

Lemma Qn_lt (a b : nat) : (a < b)%nat <-> Qn a < Qn b.
Proof. unfold Qn. rewrite <- Zlt_Qlt. lia. Qed.

Lemma largest_size_bounds (vial_sizes : list Types.VialSize) :
  vial_sizes <> [] ->
  (exists v, In v vial_sizes /\ Types.size_mg v == largest_size vial_sizes)
  /\ Forall (fun v => Types.size_mg v <= largest_size vial_sizes) vial_sizes.
Proof.
  induction vial_sizes as [|v rest IH]; [congruence|]. intros _.
  destruct rest as [|w rest'].
  - simpl. split.
    + exists v. split; [left; reflexivity|reflexivity].
    + constructor; [apply Qle_refl|constructor].
  - destruct IH as [(u & Hin & Hu) Hall]; [discriminate|].
    change (largest_size (v :: w :: rest'))
      with (if Qle_bool (largest_size (w :: rest')) (Types.size_mg v)
            then Types.size_mg v else largest_size (w :: rest')).
    destruct (Qle_bool (largest_size (w :: rest')) (Types.size_mg v)) eqn:E.
    + apply Qle_bool_iff in E. split.
      * exists v. split; [left; reflexivity|reflexivity].
      * constructor; [apply Qle_refl|].
        eapply Forall_impl; [|exact Hall]. simpl. intros a Ha.
        eapply Qle_trans; eassumption.
    + assert (Hlt : Types.size_mg v < largest_size (w :: rest')).
      { apply Qnot_le_lt. intro H. apply Qle_bool_iff in H. congruence. }
      split.
      * exists u. split; [right; exact Hin|exact Hu].
      * constructor; [apply Qlt_le_weak, Hlt|exact Hall].
Qed.

Lemma insert_desc_In (v x : Types.VialSize) (sorted : list Types.VialSize) :
  In x (insert_desc v sorted) <-> x = v \/ In x sorted.
Proof.
  induction sorted as [|w rest IH]; simpl.
  - intuition.
  - destruct (Qle_bool (Types.size_mg v) (Types.size_mg w)); simpl.
    + rewrite IH. intuition.
    + intuition.
Qed.

Lemma insert_desc_head_largest (v : Types.VialSize)
  (sorted : list Types.VialSize) :
  head_largest sorted -> head_largest (insert_desc v sorted).
Proof.
  destruct sorted as [|w rest]; simpl.
  - constructor.
  - intro H. destruct (Qle_bool (Types.size_mg v) (Types.size_mg w)) eqn:E.
    + apply Qle_bool_iff in E. simpl. apply Forall_forall. intros x Hx.
      apply insert_desc_In in Hx as [->|Hx]; [exact E|].
      rewrite Forall_forall in H. exact (H x Hx).
    + assert (Hlt : Types.size_mg w < Types.size_mg v).
      { apply Qnot_le_lt. intro H'. apply Qle_bool_iff in H'. congruence. }
      simpl. constructor; [apply Qlt_le_weak, Hlt|].
      eapply Forall_impl; [|exact H]. simpl. intros a Ha. lra.
Qed.

Lemma sort_from_spec (vial_sizes acc : list Types.VialSize) :
  head_largest acc ->
  head_largest (fold_left (fun sorted v => insert_desc v sorted) vial_sizes acc)
  /\ forall x,
       In x (fold_left (fun sorted v => insert_desc v sorted) vial_sizes acc)
       <-> In x acc \/ In x vial_sizes.
Proof.
  revert acc. induction vial_sizes as [|v rest IH]; intros acc Hacc; simpl.
  - split; [exact Hacc|]. intuition.
  - destruct (IH (insert_desc v acc) (insert_desc_head_largest v acc Hacc))
      as [H1 H2].
    split; [exact H1|]. intro x. rewrite H2, insert_desc_In. intuition.
Qed.

(** Sorting puts a vial of the largest size first. *)
Lemma sort_desc_head (vial_sizes : list Types.VialSize) :
  vial_sizes <> [] ->
  exists w rest, sort_desc vial_sizes = w :: rest
                 /\ Types.size_mg w == largest_size vial_sizes.
Proof.
  intro Hne. destruct (sort_from_spec vial_sizes [] I) as [Hhead Hin].
  fold (sort_desc vial_sizes) in Hhead, Hin.
  destruct (largest_size_bounds vial_sizes Hne) as [(u & Hu & Eu) Hall].
  destruct (sort_desc vial_sizes) as [|w rest] eqn:E.
  - exfalso. apply (proj2 (Hin u)). right. exact Hu.
  - exists w, rest. split; [reflexivity|].
    apply Qle_antisym.
    + rewrite Forall_forall in Hall. apply Hall.
      destruct (proj1 (Hin w) (or_introl eq_refl)) as [[]|H]. exact H.
    + rewrite <- Eu.
      destruct (proj2 (Hin u) (or_intror Hu)) as [->|H]; [apply Qle_refl|].
      simpl in Hhead. rewrite Forall_forall in Hhead. exact (Hhead u H).
Qed.

(** The inner loop, run with enough iterations on a positive vial size:
    it stops after [k] vials, [k] being the first count that covers the
    remaining dose. *)
Lemma fill_runs (size : Q) :
  0 < size ->
  forall (fuel : nat) (r t : Q),
    r <= Qn fuel * size ->
    exists (k : nat) (r' t' : Q),
      fill fuel size (Fin r) (Fin t) = Some (Fin r', Fin t')
      /\ r' == r - Qn k * size /\ t' == t + Qn k * size /\ r' <= 0
      /\ (0 < r -> (1 <= k)%nat /\ 0 < r - (Qn k - 1) * size)
      /\ (r <= 0 -> k = O).
Proof.
  intro Hsize. induction fuel as [|fuel IH]; intros r t Hr.
  - change (Qn 0) with 0 in Hr.
    assert (Hr0 : r <= 0) by lra.
    exists O, r, t. cbn [fill].
    apply gt_Fin_false in Hr0 as E. rewrite E. change (Qn 0) with 0.
    split; [reflexivity|]. split; [ring|]. split; [ring|].
    split; [exact Hr0|]. split; [intro H; lra|reflexivity].
  - cbn [fill]. destruct (JS.gt (Fin r) (Fin 0)) eqn:E; order_facts.
    + cbn [JS.sub JS.add JS.lift2].
      destruct (JS.le (Fin (r - size)) (Fin 0)) eqn:E'; order_facts.
      * exists 1%nat, (r - size), (t + size). change (Qn 1) with 1.
        split; [reflexivity|]. split; [ring|]. split; [ring|].
        split; [exact E'|]. split; [intros _; split; [lia|lra]|intro H; lra].
      * rewrite Qn_S in Hr.
        destruct (IH (r - size) (t + size))
          as (k & r' & t' & Hf & Hr' & Ht' & Hle & Hpos & _); [lra|].
        exists (S k), r', t'. rewrite Hf.
        destruct (Hpos E') as [Hk Hprev].
        split; [reflexivity|]. rewrite Qn_S.
        split; [lra|]. split; [lra|]. split; [exact Hle|].
        split; [intros _; split; [lia|lra]|intro H; lra].
    + exists O, r, t. change (Qn 0) with 0.
      split; [reflexivity|]. split; [ring|]. split; [ring|].
      split; [exact E|]. split; [intro H; lra|reflexivity].
Qed.

Lemma fill_bound_enough (size r : Q) :
  0 < size -> r <= Qn (fill_bound size (Fin r)) * size.
Proof.
  intro Hsize. unfold fill_bound.
  destruct (Qlt_le_dec 0 r) as [Hr|Hr].
  - assert (H0 : (0 <= Qceiling (r / size))%Z).
    { rewrite <- (Qceiling_Z 0). apply Qceiling_resp_le.
      apply Qle_shift_div_l; [exact Hsize|].
      change (inject_Z 0) with 0. lra. }
    unfold Qn. rewrite Z2Nat.id by exact H0.
    pose proof (Qle_ceiling (r / size)) as Hc.
    apply (Qmult_le_compat_r _ _ size) in Hc; [|lra].
    assert (Hd : r / size * size == r) by (field; lra).
    rewrite Hd in Hc. exact Hc.
  - pose proof (Qn_nonneg (Z.to_nat (Qceiling (r / size)))) as Hn. nra.
Qed.

(** With a non-positive vial size and a positive remaining dose the inner
    loop never exits. *)
Lemma fill_never_exits (size : Q) :
  size <= 0 ->
  forall (fuel : nat) (r : Q) (t : number),
    0 < r -> fill fuel size (Fin r) t = None.
Proof.
  intro Hsize. induction fuel as [|fuel IH]; intros r t Hr; cbn [fill];
    apply gt_Fin in Hr as E; rewrite E; [reflexivity|].
  cbn [JS.sub JS.lift2].
  assert (E' : JS.le (Fin (r - size)) (Fin 0) = false)
    by (apply le_Fin_false; lra).
  rewrite E'. apply IH. lra.
Qed.

(** Whether the inner loop exits does not depend on the total so far. *)
Lemma fill_exit_independent (size : Q) (fuel : nat) :
  forall (r t t2 : number),
    fill fuel size r t = None -> fill fuel size r t2 = None.
Proof.
  induction fuel as [|fuel IH]; intros r t t2; cbn [fill];
    destruct (JS.gt r (Fin 0)); try discriminate; auto.
  destruct (JS.le (JS.sub r (Fin size)) (Fin 0)); [discriminate|]. apply IH.
Qed.

(** On a positive vial size the inner loop exits within [fill_bound]. *)
Lemma fill_bound_exits (size : Q) (r t : number) :
  0 < size -> fill (fill_bound size r) size r t <> None.
Proof.
  intros Hsize H. destruct r as [|r].
  - cbn [fill_bound fill JS.gt JS.lt] in H. discriminate.
  - apply (fill_exit_independent size _ (Fin r) t (Fin 0)) in H.
    destruct (fill_runs size Hsize (fill_bound size (Fin r)) r 0
                (fill_bound_enough size r Hsize)) as (k & r' & t' & Hf & _).
    congruence.
Qed.

(** More iterations than needed change nothing. *)
Lemma fill_more_fuel (size : Q) (fuel : nat) :
  forall (extra : nat) (r t : number) (state : number * number),
    fill fuel size r t = Some state ->
    fill (fuel + extra) size r t = Some state.
Proof.
  induction fuel as [|fuel IH]; intros extra r t state; cbn [fill Nat.add].
  - destruct (JS.gt r (Fin 0)) eqn:E; [discriminate|].
    intro H. destruct extra; cbn [fill]; rewrite E; exact H.
  - destruct (JS.gt r (Fin 0)); [|auto].
    destruct (JS.le (JS.sub r (Fin size)) (Fin 0)); [auto|]. apply IH.
Qed.

(** [fill_loop] reports no exit exactly when no number of iterations lets
    the loop exit. *)
Lemma fill_loop_diverges_iff (size : Q) (r t : number) :
  fill_loop size r t = Diverge <-> forall fuel, fill fuel size r t = None.
Proof.
  unfold fill_loop. split.
  - destruct (fill (fill_bound size r) size r t) eqn:E; [discriminate|].
    intros _ fuel. destruct (Qlt_le_dec 0 size) as [Hs|Hs].
    + exfalso. exact (fill_bound_exits size r t Hs E).
    + destruct r as [|r]; [destruct (fill_bound size NaN); discriminate|].
      destruct (Qlt_le_dec 0 r) as [Hr|Hr].
      * apply fill_never_exits; assumption.
      * apply gt_Fin_false in Hr.
        destruct (fill_bound size (Fin r)); cbn [fill] in E; rewrite Hr in E;
          discriminate.
  - intro H. rewrite H. reflexivity.
Qed.

(** When the loop exits at all, [fill_loop] returns the state it exits in. *)
Lemma fill_loop_exits_with (size : Q) (r t : number) (fuel : nat)
  (state : number * number) :
  fill fuel size r t = Some state -> fill_loop size r t = Ok state.
Proof.
  intro H. unfold fill_loop.
  destruct (fill (fill_bound size r) size r t) as [state'|] eqn:E.
  - apply (fill_more_fuel size fuel (fill_bound size r)) in H.
    apply (fill_more_fuel size _ fuel) in E.
    rewrite Nat.add_comm in E. congruence.
  - assert (Hd : fill_loop size r t = Diverge)
      by (unfold fill_loop; rewrite E; reflexivity).
    rewrite fill_loop_diverges_iff in Hd. rewrite Hd in H. discriminate.
Qed.


(** [roundToVials] on a positive dose, the largest vial being positive: it
    dispenses [k] vials of the largest size, [k] being the first count that
    covers the dose. *)
Lemma roundToVials_positive (required : Q) (vial_sizes : list Types.VialSize) :
  0 < required -> vial_sizes <> [] -> 0 < largest_size vial_sizes ->
  exists (k : nat) (dispensed : Q),
    roundToVials (Fin required) vial_sizes = Ok (Fin dispensed)
    /\ dispensed == Qn k * largest_size vial_sizes
    /\ (1 <= k)%nat
    /\ required <= dispensed
    /\ (Qn k - 1) * largest_size vial_sizes < required.
Proof.
  intros Hr Hne Hbig.
  destruct (sort_desc_head vial_sizes Hne) as (w & rest & Esort & Ew).
  assert (Hw : 0 < Types.size_mg w) by (rewrite Ew; exact Hbig).
  destruct (fill_runs (Types.size_mg w) Hw
              (fill_bound (Types.size_mg w) (Fin required)) required 0
              (fill_bound_enough _ _ Hw))
    as (k & r' & t' & Hf & Hr' & Ht' & Hle & Hpos & _).
  destruct (Hpos Hr) as [Hk Hprev].
  exists k, t'. unfold roundToVials. rewrite Esort. cbn [fill_all].
  unfold fill_loop. rewrite Hf. cbn [bind].
  apply le_Fin in Hle as L. rewrite L. cbn [bind].
  apply gt_Fin_false in Hle as G. rewrite G.
  split; [reflexivity|]. rewrite <- Ew.
  split; [lra|]. split; [exact Hk|]. split; lra.
Qed.



(** The least multiple exists as soon as the size is positive. *)
Lemma least_multiple_exists (size required : Q) :
  0 < size -> 0 < required -> exists m, least_multiple size required m.
Proof.
  intros Hs Hr.
  destruct (roundToVials_positive required [vial size] Hr)
    as (k & d & _ & Hd & Hk & Hcover & Hprev); [discriminate|exact Hs|].
  cbn [largest_size vial Types.size_mg] in Hd, Hprev.
  exists d, k. split; [exact Hk|]. split; [exact Hd|]. split; [exact Hcover|].
  intros j Hj Hreq.
  destruct (Nat.le_gt_cases k j) as [H|H]; [exact H|exfalso].
  assert (H' : (S j <= k)%nat) by lia.
  apply Qn_le in H'. rewrite Qn_S in H'. nra.
Qed.



(** A dose of 500 mg is dispensed as two vials of 420 mg, not as one of
    420 mg and one of 150 mg; the order of the configured list does not
    matter. *)
Lemma roundToVials_example :
  exists dispensed,
    roundToVials (Fin 500) [vial 150; vial 420] = Ok (Fin dispensed)
    /\ dispensed == 840.
Proof. eexists. split; [vm_compute; reflexivity|reflexivity]. Qed.

Lemma div_Fin (x y : Q) : ~ y == 0 -> JS.div (Fin x) (Fin y) = Fin (x / y).
Proof.
  intro Hy. unfold JS.div. destruct (Qeq_bool y 0) eqn:E; [|reflexivity].
  apply Qeq_bool_iff in E. contradiction.
Qed.


Lemma ge_Fin_inv (a : number) (y : Q) :
  JS.ge a (Fin y) = true -> exists x, a = Fin x /\ y <= x.
Proof.
  destruct a as [|x]; [discriminate|]. intro H. apply le_Fin in H.
  exists x. auto.
Qed.





End VialRounding.

(* ------------------------------------------------------------------ *)
(** ** Administered dose *)

Section AdministeredDose.

Import Exposure.
Local Open Scope string_scope.









(** The figures of the dosing example: 420 mg per administration and
    7300 mg a year. *)
Lemma dosing_example :
  JS.mul (Fin 6) (Fin 70) ~= Fin 420
  /\ calculateAdministeredDose (fun x => x) example_node example_assumptions
     ~= Fin 7300.
Proof. split; vm_compute; reflexivity. Qed.


End AdministeredDose.

(* ------------------------------------------------------------------ *)
(** ** Cohort allocation *)

Section Allocation.

Import Validation CohortAllocator.
Local Open Scope string_scope.

Lemma allocate_path_cases (assumptions : Types.Assumptions)
  (config : CohortAllocationConfig) (prep : Prepared)
  (entry : string * PathInfo) :
  allocate_path assumptions config prep entry
  = if negb (has_regimen_shares (configured_regimen_shares config)
               (regimen_keys (snd entry)))
       && negb (allow_equal_regimen_split (validation config))
    then Throw (NoRegimenShares (fst entry))
    else Ok (path_leaves assumptions config prep entry).
Proof.
  destruct entry as [pathKey info]. unfold allocate_path, path_leaves.
  cbn [fst snd]. fold (configured_regimen_shares config).
  destruct (path_population prep info) as [pop tr].
  destruct (negb _ && negb _); [reflexivity|].
  destruct (build_path_regimen_shares _ _ _ _). reflexivity.
Qed.

(** When no path is rejected the loop returns the leaves of all paths, in
    path order. *)
Lemma allocate_paths_ok (assumptions : Types.Assumptions)
  (config : CohortAllocationConfig) (prep : Prepared)
  (paths : JS.Record_ PathInfo) :
  (forall entry, In entry paths ->
     without_regimen_shares config entry ->
     allow_equal_regimen_split (validation config) = true) ->
  allocate_paths assumptions config prep paths
  = Ok (flat_map (path_leaves assumptions config prep) paths).
Proof.
  induction paths as [|entry rest IH]; intro H; [reflexivity|].
  cbn [allocate_paths flat_map]. rewrite allocate_path_cases.
  destruct (has_regimen_shares (configured_regimen_shares config)
              (regimen_keys (snd entry))) eqn:E.
  - cbn [negb andb bind]. rewrite IH; [reflexivity|].
    intros e He. apply H. right. exact He.
  - rewrite (H entry (or_introl eq_refl) E). cbn [negb andb bind].
    rewrite IH; [reflexivity|]. intros e He. apply H. right. exact He.
Qed.

(** When equal split is disabled and some path has no regimen shares, the
    loop throws for the first such path. *)
Lemma allocate_paths_throws (assumptions : Types.Assumptions)
  (config : CohortAllocationConfig) (prep : Prepared)
  (paths : JS.Record_ PathInfo) :
  allow_equal_regimen_split (validation config) = false ->
  (exists entry, In entry paths /\ without_regimen_shares config entry) ->
  exists entry,
    In entry paths /\ without_regimen_shares config entry
    /\ allocate_paths assumptions config prep paths
       = Throw (NoRegimenShares (fst entry)).
Proof.
  intros Hallow. induction paths as [|entry rest IH]; intros (e & He & Hno).
  - contradiction.
  - cbn [allocate_paths]. rewrite allocate_path_cases, Hallow.
    destruct (has_regimen_shares (configured_regimen_shares config)
                (regimen_keys (snd entry))) eqn:E.
    + cbn [negb andb bind]. destruct He as [->|He].
      * unfold without_regimen_shares in Hno. congruence.
      * destruct IH as (e' & He' & Hno' & Hthrow); [exists e; auto|].
        exists e'. split; [right; exact He'|]. split; [exact Hno'|].
        rewrite Hthrow. reflexivity.
    + exists entry. split; [left; reflexivity|]. split; [exact E|reflexivity].
Qed.

Lemma get_map_key {V : Type} (f : string -> V) (k : string)
  (ks : list string) :
  In k ks -> JS.get k (map (fun r => (r, f r)) ks) = Some (f k).
Proof.
  induction ks as [|a ks IH]; [contradiction|]. intros [->|H]; simpl.
  - rewrite String.eqb_refl. reflexivity.
  - destruct (String.eqb k a) eqn:E.
    + apply String.eqb_eq in E. subst a. reflexivity.
    + apply IH, H.
Qed.

Lemma size_positive (xs : list string) (x : string) :
  In x xs -> exists n, size xs = Fin n /\ 1 <= n.
Proof.
  intro H. unfold size. eexists. split; [reflexivity|].
  change 1 with (inject_Z 1). rewrite <- Zle_Qle.
  destruct xs; [contradiction|]. simpl. lia.
Qed.

(** The leaf of a regimen on a path split equally: its share is [1/n]. *)
Lemma equal_split_leaf (assumptions : Types.Assumptions)
  (config : CohortAllocationConfig) (prep : Prepared)
  (entry : string * PathInfo) (regimen : string) :
  without_regimen_shares config entry ->
  In regimen (regimen_keys (snd entry)) ->
  exists leaf,
    In leaf (path_leaves assumptions config prep entry)
    /\ path leaf = {| subtype_key := path_subtype_key (snd entry);
                      setting_key := path_setting_key (snd entry);
                      line_key := path_line_key (snd entry);
                      regimen_key := regimen |}
    /\ patients leaf
       = JS.mul (fst (path_population prep (snd entry)))
           (JS.div (Fin 1) (size (regimen_keys (snd entry)))).
Proof.
  intros Hno Hin. unfold path_leaves, build_path_regimen_shares.
  unfold without_regimen_shares in Hno. rewrite Hno.
  destruct (path_population prep (snd entry)) as [pop tr]. cbn [fst].
  eexists. split; [apply in_map, Hin|]. split; [reflexivity|].
  cbn [patients make_leaf].
  rewrite (get_map_key (fun _ => JS.div (Fin 1) _) regimen _ Hin).
  destruct (size_positive _ _ Hin) as (n & En & Hn). rewrite En.
  rewrite div_Fin by lra. cbn [JS.or_default JS.truthy].
  destruct (Qeq_bool (1 / n) 0) eqn:E; [|reflexivity].
  apply Qeq_bool_iff in E. exfalso.
  assert (0 < 1 / n) by (apply Qlt_shift_div_l; lra). lra.
Qed.

Lemma get_In_entry {V : Type} (k : string) (m : JS.Record_ V) (v : V) :
  JS.get k m = Some v -> In (k, v) m.
Proof.
  induction m as [|[k' v'] m IH]; simpl; [discriminate|].
  destruct (String.eqb k k') eqn:E.
  - apply String.eqb_eq in E. subst k'. intro H. injection H as ->.
    left. reflexivity.
  - intro H. right. apply IH, H.
Qed.

Lemma put_entries {V : Type} (k : string) (v : V) (m : JS.Record_ V)
  (e : string * V) :
  In e (JS.put k v m) -> e = (k, v) \/ In e m.
Proof.
  induction m as [|[k' v'] m IH]; simpl.
  - intros [H|[]]. left. congruence.
  - destruct (String.eqb k k') eqn:E.
    + apply String.eqb_eq in E. subst k'. intros [H|H]; [left; congruence|].
      right; right; exact H.
    + intros [H|H]; [right; left; exact H|].
      destruct (IH H) as [H'|H']; [left; exact H'|right; right; exact H'].
Qed.

Lemma add_path_keys (paths : JS.Record_ PathInfo)
  (node : Types.TreatmentNode) :
  Forall key_names_path paths -> Forall key_names_path (add_path paths node).
Proof.
  intro H. unfold add_path.
  set (pathKey := buildPathKey _ _ _).
  destruct (JS.get pathKey paths) as [p|] eqn:E.
  - rewrite E. destruct (JS.includes _ _); [exact H|].
    apply Forall_forall. intros e He. apply put_entries in He as [->|He].
    + apply get_In_entry in E. rewrite Forall_forall in H.
      exact (H _ E).
    + rewrite Forall_forall in H. exact (H e He).
  - assert (E' : JS.get pathKey
                   (paths ++ [(pathKey,
                               {| path_subtype_key := Types.subtype_key node;
                                  path_setting_key := Types.setting_key node;
                                  path_line_key := Types.line_key node;
                                  regimen_keys := [] |})])%list
                 <> None).
    { clear H. induction paths as [|[k v] rest IH]; simpl.
      - rewrite String.eqb_refl. discriminate.
      - simpl in E. destruct (String.eqb pathKey k); [discriminate|].
        apply IH, E. }
    destruct (JS.get pathKey (paths ++ _)%list) as [p|] eqn:E2; [|congruence].
    assert (Hall : Forall key_names_path
                     (paths ++ [(pathKey,
                                 {| path_subtype_key := Types.subtype_key node;
                                    path_setting_key := Types.setting_key node;
                                    path_line_key := Types.line_key node;
                                    regimen_keys := [] |})])%list).
    { apply Forall_app. split; [exact H|]. constructor; [|constructor].
      reflexivity. }
    destruct (JS.includes _ _); [exact Hall|].
    apply Forall_forall. intros e He. apply put_entries in He as [->|He].
    + apply get_In_entry in E2. rewrite Forall_forall in Hall.
      exact (Hall _ E2).
    + rewrite Forall_forall in Hall. exact (Hall e He).
Qed.

Lemma unique_paths_keys (nodes : list Types.TreatmentNode)
  (entry : string * PathInfo) :
  In entry (unique_paths nodes) -> key_names_path entry.
Proof.
  unfold unique_paths.
  assert (H : forall acc,
            Forall key_names_path acc ->
            Forall key_names_path (fold_left add_path nodes acc)).
  { induction nodes as [|n ns IH]; intros acc Hacc; [exact Hacc|].
    cbn [fold_left]. apply IH, add_path_keys, Hacc. }
  intro Hin. specialize (H [] (Forall_nil _)).
  rewrite Forall_forall in H. exact (H entry Hin).
Qed.

(** C5. Steps 1 to 4 having succeeded, suppose some path has no regimen
    with an entry in the configured regimen shares.  With
    [allow_equal_regimen_split] false the allocation fails with the error
    that names such a path; with it true the allocation succeeds and each
    of the [n] regimens of such a path receives exactly [1/n] of the
    path's population. *)
Theorem regimen_split_without_shares (treatment_map : Types.TreatmentMap)
  (assumptions : Types.Assumptions) (config : CohortAllocationConfig)
  (prep : Prepared) :
  prepare treatment_map assumptions config = Ok prep ->
  (exists entry,
     In entry (unique_paths (Types.nodes treatment_map))
     /\ without_regimen_shares config entry) ->
  (allow_equal_regimen_split (validation config) = false ->
   exists entry,
     In entry (unique_paths (Types.nodes treatment_map))
     /\ without_regimen_shares config entry
     /\ allocateCohorts treatment_map assumptions config
        = Throw (NoRegimenShares
                   (buildPathKey (path_subtype_key (snd entry))
                      (path_setting_key (snd entry))
                      (path_line_key (snd entry)))))
  /\ (allow_equal_regimen_split (validation config) = true ->
      exists result,
        allocateCohorts treatment_map assumptions config = Ok result
        /\ forall entry regimen,
             In entry (unique_paths (Types.nodes treatment_map)) ->
             without_regimen_shares config entry ->
             In regimen (regimen_keys (snd entry)) ->
             exists leaf,
               In leaf (leaf_cohorts result)
               /\ path leaf
                  = {| subtype_key := path_subtype_key (snd entry);
                       setting_key := path_setting_key (snd entry);
                       line_key := path_line_key (snd entry);
                       regimen_key := regimen |}
               /\ patients leaf
                  = JS.mul (fst (path_population prep (snd entry)))
                      (JS.div (Fin 1) (size (regimen_keys (snd entry))))).
Proof.
  intros Hprep Hsome. split; intro Hallow.
  - destruct (allocate_paths_throws assumptions config prep _ Hallow Hsome)
      as (entry & Hin & Hno & Hthrow).
    exists entry. split; [exact Hin|]. split; [exact Hno|].
    unfold allocateCohorts. rewrite Hprep. cbn [bind]. rewrite Hthrow.
    rewrite (unique_paths_keys _ _ Hin). reflexivity.
  - unfold allocateCohorts. rewrite Hprep. cbn [bind].
    rewrite allocate_paths_ok by (intros; exact Hallow). cbn [bind].
    destruct (conservation prep config _) as [[total ratio] w].
    eexists. split; [reflexivity|]. cbn [leaf_cohorts].
    intros entry regimen Hin Hno Hreg.
    destruct (equal_split_leaf assumptions config prep entry regimen Hno Hreg)
      as (leaf & Hleaf & Hpath & Hpat).
    exists leaf. split; [|split; assumption].
    apply in_flat_map. exists entry. split; assumption.
Qed.

Lemma regimen_split_without_shares_witness :
  (allow_equal_regimen_split (validation DEFAULT_ALLOCATION_CONFIG) = false ->
   exists entry,
     In entry (unique_paths (Types.nodes split_example_map))
     /\ without_regimen_shares DEFAULT_ALLOCATION_CONFIG entry
     /\ allocateCohorts split_example_map split_example_assumptions
          DEFAULT_ALLOCATION_CONFIG
        = Throw (NoRegimenShares
                   (buildPathKey (path_subtype_key (snd entry))
                      (path_setting_key (snd entry))
                      (path_line_key (snd entry)))))
  /\ (allow_equal_regimen_split (validation DEFAULT_ALLOCATION_CONFIG) = true ->
      exists result,
        allocateCohorts split_example_map split_example_assumptions
          DEFAULT_ALLOCATION_CONFIG = Ok result
        /\ forall entry regimen,
             In entry (unique_paths (Types.nodes split_example_map)) ->
             without_regimen_shares DEFAULT_ALLOCATION_CONFIG entry ->
             In regimen (regimen_keys (snd entry)) ->
             exists leaf,
               In leaf (leaf_cohorts result)
               /\ path leaf
                  = {| subtype_key := path_subtype_key (snd entry);
                       setting_key := path_setting_key (snd entry);
                       line_key := path_line_key (snd entry);
                       regimen_key := regimen |}
               /\ patients leaf
                  = JS.mul
                      (fst (path_population split_example_prepared
                              (snd entry)))
                      (JS.div (Fin 1) (size (regimen_keys (snd entry))))).
Proof.
  apply (regimen_split_without_shares split_example_map
           split_example_assumptions DEFAULT_ALLOCATION_CONFIG
           split_example_prepared).
  - vm_compute. reflexivity.
  - eexists. split; [left; reflexivity|reflexivity].
Defined.

(** The equal-split example: three regimens on one path of 900,000
    patients receive 300,000 each, a third of the path's population. *)
Lemma equal_split_example :
  exists result,
    allocateCohorts split_example_map split_example_assumptions
      DEFAULT_ALLOCATION_CONFIG = Ok result
    /\ Forall2 (fun leaf regimen =>
                  regimen_key (path leaf) = regimen
                  /\ patients leaf ~= Fin 300000)
         (leaf_cohorts result) ["r1"; "r2"; "r3"].
Proof.
  eexists. split; [vm_compute; reflexivity|].
  repeat constructor.
Qed.

(** With equal split disabled the same allocation fails, and the error
    names the path. *)
Lemma equal_split_disabled_example :
  allocateCohorts split_example_map split_example_assumptions
    {| validation :=
         {| allow_share_renormalization := true;
            allow_equal_regimen_split := false;
            share_sum_tolerance := 0.05;
            max_renormalization_deviation := 0.15;
            max_population := Some (Fin 350000000) |};
       population_model := auto;
       regimen_shares := None |}
  = Throw (NoRegimenShares "_|s1|_").
Proof. vm_compute. reflexivity. Qed.

(** *** Non-negative populations *)

Lemma nonneg_ge (a : number) : nonneg a <-> JS.ge a (Fin 0) = true.
Proof.
  split.
  - intros (q & -> & H). apply le_Fin, H.
  - intro H. apply ge_Fin_inv in H as (q & E & Hq). exists q. auto.
Qed.

Lemma nonneg_mul (a b : number) : nonneg a -> nonneg b -> nonneg (JS.mul a b).
Proof.
  intros (x & -> & Hx) (y & -> & Hy). exists (x * y).
  split; [reflexivity|]. nra.
Qed.

Lemma get_nonneg (k : string) (m : JS.Record_ number) (v : number) :
  nonneg_map m -> JS.get k m = Some v -> nonneg v.
Proof.
  intros Hm Hget. apply get_In_entry in Hget. unfold nonneg_map in Hm.
  rewrite Forall_forall in Hm. exact (Hm (k, v) Hget).
Qed.

(** [x || 0] is not negative when [x], if present, is not negative. *)
Lemma or_zero_nonneg (x : option number) :
  (forall v, x = Some v -> JS.lt v (Fin 0) = false) ->
  nonneg (JS.or_default x (Fin 0)).
Proof.
  intro H. destruct x as [[|q]|]; cbn [JS.or_default JS.truthy].
  - exists 0. split; [reflexivity|apply Qle_refl].
  - destruct (negb (Qeq_bool q 0)).
    + exists q. split; [reflexivity|]. apply lt_Fin_false, H. reflexivity.
    + exists 0. split; [reflexivity|apply Qle_refl].
  - exists 0. split; [reflexivity|apply Qle_refl].
Qed.

Lemma accepted_nonneg_map (shares : JS.Record_ number) :
  Forall (fun e => in_unit_interval (snd e)) shares -> nonneg_map shares.
Proof.
  apply Forall_impl. intros e (q & E & H0 & _). exists q. auto.
Qed.

Lemma renormalize_nonneg (shares : JS.Record_ number) (s : Q) :
  0 < s ->
  Forall (fun e => in_unit_interval (snd e)) shares ->
  nonneg_map (renormalize shares (Fin s)).
Proof.
  intros Hs. induction 1 as [|[k v] rest (q & E & H0 & _) _ IH]; simpl.
  - constructor.
  - constructor; [|exact IH]. cbn [snd] in *. subst v.
    rewrite div_Fin by lra. exists (q / s). split; [reflexivity|].
    apply Qle_shift_div_l; lra.
Qed.

(** A valid result of [validateShares] carries normalized shares, none of
    them negative, provided an all-zero map is never renormalized
    ([max_renormalization_deviation] below 1). *)
Lemma validateShares_normalized_nonneg (shares : JS.Record_ number)
  (dimension_name : string) (config : ValidationConfig) :
  max_renormalization_deviation config < 1 ->
  valid (fst (validateShares shares dimension_name config)) = true ->
  exists n,
    normalized_value (fst (validateShares shares dimension_name config))
    = Some n
    /\ nonneg_map n.
Proof.
  intros Hmax. unfold validateShares.
  destruct shares as [|e rest]; [discriminate|].
  destruct (check_shares dimension_name (e :: rest)) eqn:Echk; [|discriminate].
  apply check_shares_nil in Echk.
  destruct (accepted_sum_finite _ Echk) as [s Es]. rewrite Es.
  cbn [JS.sub JS.abs JS.lift2].
  destruct (JS.gt (Fin (Qabs (s - 1))) (Fin (share_sum_tolerance config)));
    [destruct (JS.gt (Fin s) (Fin 1)) eqn:Egt;
     [destruct (allow_share_renormalization config
                && JS.le (Fin (Qabs (s - 1)))
                     (Fin (max_renormalization_deviation config)))
     |destruct (JS.gt (Fin (Qabs (s - 1)))
                  (Fin (max_renormalization_deviation config))) eqn:Emax;
      [|destruct (allow_share_renormalization config)]]|];
    cbn [fst valid normalized_value]; try discriminate; intros _;
    order_facts;
    try (eexists; split; [reflexivity|apply accepted_nonneg_map, Echk]).
  - eexists. split; [reflexivity|]. apply renormalize_nonneg; [lra|exact Echk].
  - eexists. split; [reflexivity|]. apply renormalize_nonneg; [|exact Echk].
    destruct (Qlt_le_dec 0 s) as [H|H]; [exact H|].
    rewrite Qabs_neg in Emax by lra. lra.
Qed.

Lemma equal_shares_nonneg (unique : list string) :
  nonneg_map (map (fun k => (k, JS.div (Fin 1) (size unique))) unique).
Proof.
  destruct unique as [|x xs] eqn:E; [constructor|]. rewrite <- E.
  destruct (size_positive unique x) as (n & En & Hn);
    [rewrite E; left; reflexivity|].
  unfold nonneg_map. rewrite Forall_map. apply Forall_forall. intros k _.
  cbn [snd]. rewrite En, div_Fin by lra. exists (1 / n).
  split; [reflexivity|]. apply Qle_shift_div_l; lra.
Qed.

Lemma throwIfInvalid_ok (result : ValidationResult) (context : string) :
  throwIfInvalid result context = Ok tt <-> valid result = true.
Proof.
  unfold throwIfInvalid. destruct (valid result); split; congruence.
Qed.

(** The shares step 4 leaves for a dimension are never negative. *)
Lemma dimension_shares_nonneg (unique : list string)
  (raw : option (JS.Record_ number)) (name : string)
  (config : CohortAllocationConfig)
  (shares : JS.Record_ number) (w : list message)
  (tr : option ShareValidationTrace) :
  max_renormalization_deviation (validation config) < 1 ->
  dimension_shares unique raw name config = Ok (shares, w, tr) ->
  nonneg_map shares.
Proof.
  intros Hmax. unfold dimension_shares.
  destruct unique as [|u us]; [intro H; injection H as <- _ _; constructor|].
  destruct raw as [given|].
  - destruct (validateShares _ name (validation config)) as [result t] eqn:Ev.
    unfold throwIfInvalid. destruct (valid result) eqn:Evalid; [|discriminate].
    cbn [bind]. intro H. injection H as <- _ _.
    pose proof (validateShares_normalized_nonneg
                  (filterSharesForDimension given (u :: us)) name
                  (validation config) Hmax) as Hn.
    rewrite Ev in Hn. cbn [fst] in Hn.
    destruct (Hn Evalid) as (n & En & Hnn). rewrite En. exact Hnn.
  - intro H. injection H as <- _ _. exact (equal_shares_nonneg (u :: us)).
Qed.

Lemma validatePopulation_valid (population : number) (name : string)
  (config : ValidationConfig) :
  valid (validatePopulation population name config) = true ->
  nonneg population.
Proof.
  unfold validatePopulation. destruct population as [|b]; [discriminate|].
  cbn [JS.isNaN]. destruct (JS.lt (Fin b) (Fin 0)) eqn:E; [discriminate|].
  intros _. order_facts. exists b. auto.
Qed.

Lemma validateRate_valid (rate : number) (name : string) :
  valid (validateRate rate name) = true -> in_unit_interval rate.
Proof.
  unfold validateRate. destruct rate as [|r]; [discriminate|].
  cbn [JS.isNaN]. destruct (JS.lt (Fin r) (Fin 0)) eqn:E0; [discriminate|].
  destruct (JS.gt (Fin r) (Fin 1)) eqn:E1; [discriminate|].
  intros _. order_facts. exists r. auto.
Qed.

(** What a successful run of steps 1 to 4 establishes. *)
Lemma prepare_inv (treatment_map : Types.TreatmentMap)
  (assumptions : Types.Assumptions) (config : CohortAllocationConfig)
  (prep : Prepared) :
  prepare treatment_map assumptions config = Ok prep ->
  let nodes := Types.nodes treatment_map in
  nonneg (prep_base_pool prep)
  /\ in_unit_interval (prep_treated_rate prep)
  /\ prep_treated_rate prep = Types.treated_rate assumptions
  /\ prep_base_pool prep = fst (fst (select_base_pool config assumptions))
  /\ prep_treated_pool prep
     = JS.mul (prep_base_pool prep) (prep_treated_rate prep)
  /\ (exists w tr,
        dimension_shares (unique_values Types.subtype_key nodes)
          (Types.subtype_shares assumptions) "subtype_shares" config
        = Ok (prep_subtype_shares prep, w, tr))
  /\ (exists w tr,
        dimension_shares (unique_values Types.setting_key nodes)
          (match Types.setting_shares assumptions with
           | Some x => Some x
           | None => Types.stage_shares assumptions
           end) "setting_shares" config
        = Ok (prep_setting_shares prep, w, tr))
  /\ (exists w tr,
        dimension_shares (unique_values Types.line_key nodes)
          (Types.line_shares assumptions) "line_shares" config
        = Ok (prep_line_shares prep, w, tr)).
Proof.
  unfold prepare.
  destruct (select_base_pool config assumptions) as [[base source] w0].
  unfold throwIfInvalid at 1.
  destruct (valid (validatePopulation base "base_pool" (validation config)))
    eqn:Epop; [|discriminate].
  cbn [bind]. unfold throwIfInvalid at 1.
  destruct (valid (validateRate (Types.treated_rate assumptions)
                     "treated_rate")) eqn:Erate; [|discriminate].
  cbn [bind].
  destruct (dimension_shares (unique_values Types.subtype_key _) _ _ _)
    as [[[s sw] st]| |] eqn:Es; try discriminate.
  cbn [bind].
  destruct (dimension_shares (unique_values Types.setting_key _) _ _ _)
    as [[[t tw] tt']| |] eqn:Et; try discriminate.
  cbn [bind].
  destruct (dimension_shares (unique_values Types.line_key _) _ _ _)
    as [[[l lw] lt]| |] eqn:El; try discriminate.
  cbn [bind]. intro H. injection H as <-. cbv zeta.
  cbn [prep_base_pool prep_treated_rate prep_treated_pool prep_subtype_shares
       prep_setting_shares prep_line_shares fst].
  split; [eapply validatePopulation_valid, Epop|].
  split; [eapply validateRate_valid, Erate|].
  repeat split; eauto.
Qed.

Lemma allocate_paths_inv (assumptions : Types.Assumptions)
  (config : CohortAllocationConfig) (prep : Prepared)
  (paths : JS.Record_ PathInfo) (leaves : list LeafCohort) :
  allocate_paths assumptions config prep paths = Ok leaves ->
  leaves = flat_map (path_leaves assumptions config prep) paths.
Proof.
  revert leaves. induction paths as [|entry rest IH]; intros leaves.
  - cbn [allocate_paths flat_map]. congruence.
  - cbn [allocate_paths flat_map]. rewrite allocate_path_cases.
    destruct (negb _ && negb _); [discriminate|]. cbn [bind].
    destruct (allocate_paths assumptions config prep rest) as [more| |];
      try discriminate.
    cbn [bind]. intro H. injection H as <-. rewrite (IH more eq_refl).
    reflexivity.
Qed.

(** What a successful allocation returns. *)
Lemma allocateCohorts_inv (treatment_map : Types.TreatmentMap)
  (assumptions : Types.Assumptions) (config : CohortAllocationConfig)
  (result : CohortAllocationResult) :
  allocateCohorts treatment_map assumptions config = Ok result ->
  exists prep,
    prepare treatment_map assumptions config = Ok prep
    /\ leaf_cohorts result
       = flat_map (path_leaves assumptions config prep)
           (unique_paths (Types.nodes treatment_map))
    /\ treated_pool result = prep_treated_pool prep
    /\ base_pool result = prep_base_pool prep
    /\ total_allocated result
       = fst (fst (conservation prep config (leaf_cohorts result)))
    /\ conservation_ratio result
       = snd (fst (conservation prep config (leaf_cohorts result)))
    /\ warnings result
       = (prep_warnings prep
          ++ snd (conservation prep config (leaf_cohorts result)))%list.
Proof.
  unfold allocateCohorts.
  destruct (prepare treatment_map assumptions config) as [prep| |];
    try discriminate.
  cbn [bind].
  destruct (allocate_paths assumptions config prep _) as [leaves| |] eqn:E;
    try discriminate.
  cbn [bind]. apply allocate_paths_inv in E.
  destruct (conservation prep config leaves) as [[total ratio] w] eqn:Ec.
  intro H. injection H as <-. exists prep.
  cbn [leaf_cohorts treated_pool base_pool total_allocated conservation_ratio
       warnings].
  rewrite Ec. cbn [fst snd]. repeat split; auto.
Qed.

Lemma apply_share_nonneg (step_name : string) (key : option string)
  (shares : JS.Record_ number) (norm : option bool) (population : number) :
  nonneg_map shares -> nonneg population ->
  nonneg (fst (apply_share step_name key shares norm population)).
Proof.
  intros Hm Hp. unfold apply_share. destruct key as [k|]; [|exact Hp].
  destruct (JS.truthy_str (Some k)); [|exact Hp].
  destruct (JS.get k shares) as [share|] eqn:E; [|exact Hp].
  cbn [fst]. apply nonneg_mul; [exact Hp|]. eapply get_nonneg; eassumption.
Qed.

Lemma path_population_nonneg (prep : Prepared) (info : PathInfo) :
  nonneg (prep_treated_pool prep) ->
  nonneg_map (prep_subtype_shares prep) ->
  nonneg_map (prep_setting_shares prep) ->
  nonneg_map (prep_line_shares prep) ->
  nonneg (fst (path_population prep info)).
Proof.
  intros Hp Hs Ht Hl. unfold path_population.
  pose proof (apply_share_nonneg "subtype_allocation" (path_subtype_key info)
                _ (trace_normalized (trace_subtype_shares (prep_traces prep)))
                _ Hs Hp) as H1.
  destruct (apply_share "subtype_allocation" _ _ _ _) as [p1 t1].
  cbn [fst] in H1.
  pose proof (apply_share_nonneg "setting_allocation" (path_setting_key info)
                _ (trace_normalized (trace_setting_shares (prep_traces prep)))
                _ Ht H1) as H2.
  destruct (apply_share "setting_allocation" _ _ _ _) as [p2 t2].
  cbn [fst] in H2.
  pose proof (apply_share_nonneg "line_allocation" (path_line_key info)
                _ (trace_normalized (trace_line_shares (prep_traces prep)))
                _ Hl H2) as H3.
  destruct (apply_share "line_allocation" _ _ _ _) as [p3 t3].
  exact H3.
Qed.

Lemma sum_of_nonneg (vs : list number) :
  Forall nonneg vs -> nonneg (JS.sum_of vs).
Proof.
  intro H. unfold JS.sum_of.
  assert (Hacc : nonneg (Fin 0)) by (exists 0; split; [reflexivity|apply Qle_refl]).
  revert Hacc. generalize (Fin 0) as acc.
  induction H as [|v vs (q & -> & Hq) _ IH]; intros acc Hacc; [exact Hacc|].
  cbn [fold_left]. apply IH. destruct Hacc as (a & -> & Ha).
  exists (a + q). split; [reflexivity|]. lra.
Qed.

Lemma provided_shares_nonneg (shares : JS.Record_ number)
  (regimens : list string) :
  (forall k v, In (k, v) shares -> JS.lt v (Fin 0) = false) ->
  nonneg_map
    (map (fun r => (r, JS.or_default (JS.get r shares) (Fin 0))) regimens).
Proof.
  intro H. unfold nonneg_map. rewrite Forall_map. apply Forall_forall.
  intros r _. cbn [snd]. apply or_zero_nonneg. intros v Hv.
  apply get_In_entry in Hv. exact (H r v Hv).
Qed.

Lemma nonneg_not_negative (v : number) : nonneg v -> JS.lt v (Fin 0) = false.
Proof. intros (q & -> & Hq). apply lt_Fin_false, Hq. Qed.

Lemma build_path_regimen_shares_nonneg (shares : JS.Record_ number)
  (pathKey : string) (regimens : list string) (population : number) :
  (forall k v, In (k, v) shares -> JS.lt v (Fin 0) = false) ->
  nonneg_map
    (fst (build_path_regimen_shares shares pathKey regimens population)).
Proof.
  intro H. unfold build_path_regimen_shares.
  destruct (has_regimen_shares shares regimens).
  - pose proof (provided_shares_nonneg shares regimens H) as Hprov.
    set (provided := map _ regimens) in *.
    assert (Hsum : nonneg (JS.sum_of (JS.values provided))).
    { apply sum_of_nonneg. unfold JS.values. rewrite Forall_map. exact Hprov. }
    destruct Hsum as (ps & Eps & Hps). rewrite Eps.
    destruct (JS.gt (Fin ps) (Fin 0)) eqn:Egt; cbn [andb].
    + destruct (JS.gt _ (Fin 0.001)); cbn [fst]; [|exact Hprov].
      order_facts. unfold nonneg_map. rewrite Forall_map.
      apply Forall_forall. intros r _. cbn [snd].
      assert (Hr : nonneg (JS.or_default (JS.get r provided) (Fin 0))).
      { apply or_zero_nonneg. intros v Hv. apply nonneg_not_negative.
        eapply get_nonneg; eassumption. }
      destruct Hr as (q & -> & Hq). rewrite div_Fin by lra.
      exists (q / ps). split; [reflexivity|]. apply Qle_shift_div_l; lra.
    + cbn [fst]. exact Hprov.
  - cbn [fst]. apply equal_shares_nonneg.
Qed.

Lemma make_leaf_nonneg (assumptions : Types.Assumptions) (info : PathInfo)
  (path_regimen_shares : JS.Record_ number) (population : number)
  (tr : list AllocationTrace) (regimen : string) :
  nonneg_map path_regimen_shares -> nonneg population ->
  nonneg (patients (make_leaf assumptions info path_regimen_shares population
                      tr regimen))
  /\ (months_not_negative assumptions ->
      nonneg (patient_years (make_leaf assumptions info path_regimen_shares
                               population tr regimen))).
Proof.
  intros Hm Hp.
  assert (Hpat : nonneg (JS.mul population
                           (JS.or_default (JS.get regimen path_regimen_shares)
                              (Fin 0)))).
  { apply nonneg_mul; [exact Hp|]. apply or_zero_nonneg. intros v Hv.
    apply nonneg_not_negative. eapply get_nonneg; eassumption. }
  split; [exact Hpat|]. intro Hmonths. cbn [patient_years make_leaf].
  destruct (time_on_treatment assumptions info) as [[l m]|] eqn:Et;
    [|exact Hpat].
  apply nonneg_mul; [exact Hpat|].
  unfold time_on_treatment in Et.
  destruct (path_line_key info) as [l'|]; [|discriminate].
  destruct (Types.time_on_treatment_months assumptions) as [months|] eqn:Em;
    [|discriminate].
  destruct (JS.truthy_str (Some l')); [|discriminate].
  destruct (JS.get l' months) as [m'|] eqn:Eg; [|discriminate].
  destruct (JS.truthy m') eqn:Etr; [|discriminate].
  injection Et as <- <-. apply get_In_entry in Eg.
  pose proof (Hmonths months l' m' Em Eg) as Hneg.
  destruct m' as [|q]; [discriminate|]. order_facts.
  rewrite div_Fin by discriminate. exists (q / 12).
  split; [reflexivity|]. apply Qle_shift_div_l; [reflexivity|]. lra.
Qed.

(** C8, as the code has it.  When the allocation is accepted, no
    configured regimen share is negative and an all-zero share map is
    never renormalized ([max_renormalization_deviation] below 1), every
    leaf cohort has [patients >= 0], and [patient_years >= 0] as well when
    no [time_on_treatment_months] entry is negative. *)
Theorem leaf_cohorts_not_negative (treatment_map : Types.TreatmentMap)
  (assumptions : Types.Assumptions) (config : CohortAllocationConfig)
  (result : CohortAllocationResult) :
  allocateCohorts treatment_map assumptions config = Ok result ->
  regimen_shares_not_negative config ->
  max_renormalization_deviation (validation config) < 1 ->
  forall leaf,
    In leaf (leaf_cohorts result) ->
    JS.ge (patients leaf) (Fin 0) = true
    /\ (months_not_negative assumptions ->
        JS.ge (patient_years leaf) (Fin 0) = true).
Proof.
  intros Hok Hreg Hmax leaf Hleaf.
  apply allocateCohorts_inv in Hok as (prep & Hprep & Hleaves & _).
  rewrite Hleaves in Hleaf. apply in_flat_map in Hleaf as (entry & _ & Hleaf).
  pose proof (prepare_inv _ _ _ _ Hprep) as
    (Hbase & Hrate & _ & _ & Hpool & (sw & st & Hs) & (tw & tt' & Ht)
     & (lw & lt & Hl)).
  assert (Hpop : nonneg (fst (path_population prep (snd entry)))).
  { apply path_population_nonneg.
    - rewrite Hpool. apply nonneg_mul; [exact Hbase|].
      destruct Hrate as (r & E & H0 & _). exists r. auto.
    - eapply dimension_shares_nonneg; eassumption.
    - eapply dimension_shares_nonneg; eassumption.
    - eapply dimension_shares_nonneg; eassumption. }
  unfold path_leaves in Hleaf.
  destruct (path_population prep (snd entry)) as [pop tr]. cbn [fst] in Hpop.
  pose proof (build_path_regimen_shares_nonneg
                (configured_regimen_shares config) (fst entry)
                (regimen_keys (snd entry)) pop Hreg) as Hprs.
  destruct (build_path_regimen_shares _ _ _ _) as [prs tr'].
  cbn [fst] in Hprs. apply in_map_iff in Hleaf as (regimen & <- & _).
  destruct (make_leaf_nonneg assumptions (snd entry) prs pop (tr ++ tr')%list
              regimen Hprs Hpop) as [H1 H2].
  split; [apply nonneg_ge, H1|]. intro Hm. apply nonneg_ge, H2, Hm.
Qed.

(** The end-to-end allocation example: 400,000, 250,000 and 350,000
    patients. *)
Lemma settings_example :
  allocateCohorts settings_example_map settings_example_assumptions
    DEFAULT_ALLOCATION_CONFIG = Ok settings_example_result
  /\ Forall2 (fun leaf expected =>
                setting_key (path leaf) = Some (fst expected)
                /\ patients leaf ~= Fin (snd expected))
       (leaf_cohorts settings_example_result)
       [("adjuvant", 400000); ("neoadjuvant", 250000);
        ("metastatic", 350000)].
Proof.
  split; [vm_compute; reflexivity|]. repeat constructor.
Qed.

Lemma leaf_cohorts_not_negative_witness :
  Forall (fun leaf => JS.ge (patients leaf) (Fin 0) = true
                      /\ JS.ge (patient_years leaf) (Fin 0) = true)
    (leaf_cohorts settings_example_result).
Proof.
  apply Forall_forall. intros leaf Hin.
  refine (match leaf_cohorts_not_negative settings_example_map
                  settings_example_assumptions DEFAULT_ALLOCATION_CONFIG
                  settings_example_result _ _ _ leaf Hin with
          | conj Hpatients Hyears => conj Hpatients (Hyears _)
          end).
  - vm_compute. reflexivity.
  - intros k v [].
  - reflexivity.
  - intros months k v H. discriminate H.
Defined.

(** C8 as stated fails.  Both allocations below are accepted without a
    validation error.  In the first a configured regimen share of -0.5
    (regimen shares are never validated) gives a cohort -500,000
    patients; in the second the one subtype share, 0, is renormalized by
    the sum 0, and the cohort's patients are NaN. *)
Lemma leaf_cohort_negative :
  (exists result leaf,
     allocateCohorts two_regimens_map plain_assumptions negative_share_config
     = Ok result
     /\ In leaf (leaf_cohorts result)
     /\ patients leaf ~= Fin (-500000)
     /\ JS.ge (patients leaf) (Fin 0) = false)
  /\ (exists result leaf,
        allocateCohorts zero_share_map zero_share_assumptions
          renormalize_all_config = Ok result
        /\ In leaf (leaf_cohorts result)
        /\ patients leaf = NaN
        /\ JS.ge (patients leaf) (Fin 0) = false).
Proof.
  split.
  - eexists. eexists. split; [vm_compute; reflexivity|].
    split; [right; left; reflexivity|]. split; reflexivity.
  - eexists. eexists. split; [vm_compute; reflexivity|].
    split; [left; reflexivity|]. split; reflexivity.
Qed.

(** *** Conservation *)

Lemma Qsum_app (xs ys : list Q) : Qsum (xs ++ ys) == Qsum xs + Qsum ys.
Proof.
  induction xs as [|x xs IH]; simpl; [ring|]. rewrite IH. ring.
Qed.

Lemma Qsum_perm (xs ys : list Q) : Permutation xs ys -> Qsum xs == Qsum ys.
Proof.
  induction 1; simpl.
  - reflexivity.
  - rewrite IHPermutation. reflexivity.
  - ring.
  - rewrite IHPermutation1. exact IHPermutation2.
Qed.

Lemma Qsum_map_ext {A : Type} (f g : A -> Q) (xs : list A) :
  (forall x, In x xs -> f x == g x) -> Qsum (map f xs) == Qsum (map g xs).
Proof.
  induction xs as [|x xs IH]; intro H; simpl; [reflexivity|].
  rewrite (H x (or_introl eq_refl)), IH; [reflexivity|].
  intros y Hy. apply H. right. exact Hy.
Qed.

Lemma Qsum_map_scale {A : Type} (c : Q) (f : A -> Q) (xs : list A) :
  Qsum (map (fun x => c * f x) xs) == c * Qsum (map f xs).
Proof.
  induction xs as [|x xs IH]; simpl; [ring|]. rewrite IH. ring.
Qed.

Lemma Qsum_flat_map {A B : Type} (f : A -> list B) (g : B -> Q)
  (xs : list A) :
  Qsum (map g (flat_map f xs)) == Qsum (map (fun x => Qsum (map g (f x))) xs).
Proof.
  induction xs as [|x xs IH]; simpl; [reflexivity|].
  rewrite map_app, Qsum_app, IH. reflexivity.
Qed.

Lemma Qsum_const {A : Type} (c : Q) (xs : list A) :
  Qsum (map (fun _ => c) xs) == Qn (List.length xs) * c.
Proof.
  induction xs as [|x xs IH]; cbn [map Qsum fold_right List.length].
  - change (Qn 0) with 0. ring.
  - fold (Qsum (map (fun _ : A => c) xs)). rewrite IH, Qn_S. ring.
Qed.

(** Bounds on a weighted sum whose weights are within [e] of 1. *)
Lemma Qsum_weighted_bounds {A : Type} (p w : A -> Q) (e : Q) (xs : list A) :
  (forall x, In x xs -> 0 <= p x /\ 1 - e <= w x /\ w x <= 1 + e) ->
  (1 - e) * Qsum (map p xs) <= Qsum (map (fun x => p x * w x) xs)
  /\ Qsum (map (fun x => p x * w x) xs) <= (1 + e) * Qsum (map p xs).
Proof.
  induction xs as [|x xs IH]; intro H; simpl; [split; lra|].
  destruct (H x (or_introl eq_refl)) as (Hp & Hl & Hu).
  destruct IH as [IHl IHu]; [intros y Hy; apply H; right; exact Hy|].
  split; nra.
Qed.

Lemma sum_of_finite (vs : list number) :
  Forall finite vs ->
  exists s, JS.sum_of vs = Fin s /\ s == Qsum (map valQ vs).
Proof.
  intro H. apply all_finite_map in H as [qs ->].
  destruct (sum_of_Fin qs) as (s & Es & Hs). exists s. split; [exact Es|].
  rewrite Hs, map_map. cbn [valQ]. rewrite map_id. reflexivity.
Qed.

Lemma Qsum_combinations (f g h : option string -> Q)
  (subtypes settings lines : list (option string)) :
  Qsum (map (fun c => f (fst (fst c)) * g (snd (fst c)) * h (snd c))
          (combinations subtypes settings lines))
  == Qsum (map f subtypes) * Qsum (map g settings) * Qsum (map h lines).
Proof.
  unfold combinations. rewrite Qsum_flat_map.
  induction subtypes as [|s ss IH]; cbn [map Qsum fold_right]; [ring|].
  fold (Qsum (map f ss)).
  fold (Qsum (map (fun x => Qsum (map (fun c => f (fst (fst c))
                                    * g (snd (fst c)) * h (snd c))
                               (flat_map (fun t => map (fun l => (x, t, l))
                                            lines) settings))) ss)).
  rewrite IH. clear IH.
  assert (E : Qsum (map (fun c => f (fst (fst c)) * g (snd (fst c))
                                  * h (snd c))
                      (flat_map (fun t => map (fun l => (s, t, l)) lines)
                         settings))
              == f s * (Qsum (map g settings) * Qsum (map h lines))).
  { rewrite Qsum_flat_map.
    induction settings as [|t ts IHt]; cbn [map Qsum fold_right]; [ring|].
    fold (Qsum (map g ts)).
    fold (Qsum (map (fun x => Qsum (map (fun c => f (fst (fst c))
                                      * g (snd (fst c)) * h (snd c))
                                 (map (fun l => (s, x, l)) lines))) ts)).
    rewrite IHt. rewrite map_map. cbn [fst snd].
    rewrite (Qsum_map_scale (f s * g t) h lines). ring. }
  rewrite E. ring.
Qed.

Lemma filter_covered (shares : JS.Record_ number) (unique : list string) :
  Forall (fun k => exists q, JS.get k shares = Some (Fin q)
                             /\ 0 <= q /\ q <= 1) unique ->
  filterSharesForDimension shares unique
  = map (fun k => (k, Fin (lookupQ shares k))) unique.
Proof.
  induction 1 as [|k ks (q & E & _) _ IH]; [reflexivity|].
  cbn [filterSharesForDimension flat_map map]. unfold lookupQ at 1.
  rewrite E. cbn [app]. f_equal. exact IH.
Qed.

Lemma lookupQ_map (f : string -> Q) (k : string) (ks : list string) :
  In k ks -> lookupQ (map (fun r => (r, Fin (f r))) ks) k = f k.
Proof.
  intro H. unfold lookupQ.
  rewrite (get_map_key (fun r => Fin (f r)) k ks H). reflexivity.
Qed.

(** A covering map whose shares sum to 1 passes validation unchanged. *)
Lemma validateShares_exact (f : string -> Q) (unique : list string)
  (name : string) (config : ValidationConfig) :
  unique <> [] ->
  Forall (fun k => 0 <= f k /\ f k <= 1) unique ->
  Qsum (map f unique) == 1 ->
  0 <= share_sum_tolerance config ->
  let shares := map (fun k => (k, Fin (f k))) unique in
  valid (fst (validateShares shares name config)) = true
  /\ normalized_value (fst (validateShares shares name config)) = Some shares
  /\ Validation.warnings (fst (validateShares shares name config)) = [].
Proof.
  intros Hne Hall Hsum Htol shares.
  assert (Hacc : Forall (fun e => in_unit_interval (snd e)) shares).
  { unfold shares. rewrite Forall_map. eapply Forall_impl; [|exact Hall].
    cbn [snd]. intros k [H0 H1]. exists (f k). auto. }
  assert (Hs : exists s, JS.sum_of (JS.values shares) = Fin s /\ s == 1).
  { unfold JS.values, shares. rewrite map_map. cbn [snd].
    rewrite <- (map_map f Fin). destruct (sum_of_Fin (map f unique))
      as (s & Es & Hs). exists s. split; [exact Es|]. rewrite Hs. exact Hsum. }
  destruct Hs as (s & Es & Hs1).
  unfold validateShares.
  destruct shares as [|e rest] eqn:Eshares.
  { destruct unique; [congruence|discriminate]. }
  apply (check_shares_nil name) in Hacc. rewrite Hacc, Es.
  cbn [JS.sub JS.abs JS.lift2].
  assert (Hdev : JS.gt (Fin (Qabs (s - 1))) (Fin (share_sum_tolerance config))
                 = false).
  { apply gt_Fin_false. rewrite Hs1. setoid_replace (1 - 1) with 0 by ring.
    exact Htol. }
  rewrite Hdev. cbn [fst valid normalized_value Validation.warnings].
  repeat split.
Qed.

Lemma equal_shares_sum (unique : list string) :
  unique <> [] ->
  exists n,
    JS.div (Fin 1) (size unique) = Fin (1 / n)
    /\ 1 <= n
    /\ Qsum (map (fun _ => 1 / n) unique) == 1.
Proof.
  intro Hne. destruct unique as [|x xs] eqn:E; [congruence|]. rewrite <- E.
  destruct (size_positive unique x) as (n & En & Hn);
    [rewrite E; left; reflexivity|].
  exists n. rewrite En, div_Fin by lra. split; [reflexivity|].
  split; [exact Hn|]. rewrite Qsum_const.
  unfold size in En. injection En as <-. fold (Qn (List.length unique)).
  field. fold (Qn (List.length unique)) in Hn. lra.
Qed.

Lemma dimension_shares_given (unique : list string)
  (shares : JS.Record_ number) (name : string)
  (config : CohortAllocationConfig) :
  unique <> [] ->
  dimension_shares unique (Some shares) name config
  = (let '(result, tr) :=
       validateShares (filterSharesForDimension shares unique) name
         (validation config) in
     throwIfInvalid result name ;;;
     Ok (match normalized_value result with Some n => n | None => [] end,
         Validation.warnings result, Some tr)).
Proof. destruct unique; [congruence|reflexivity]. Qed.

Lemma dimension_shares_equal (unique : list string) (name : string)
  (config : CohortAllocationConfig) :
  unique <> [] ->
  dimension_shares unique None name config
  = Ok (map (fun k => (k, JS.div (Fin 1) (size unique))) unique,
        [EqualDistribution name (JS.div (Fin 1) (size unique))], None).
Proof. destruct unique; [congruence|reflexivity]. Qed.

Lemma dimension_shares_sums_to_one (unique : list string)
  (raw : option (JS.Record_ number)) (name : string)
  (config : CohortAllocationConfig) (prepared : JS.Record_ number)
  (w : list message) (tr : option ShareValidationTrace) :
  0 <= share_sum_tolerance (validation config) ->
  dimension_covered unique raw ->
  dimension_shares unique raw name config = Ok (prepared, w, tr) ->
  dimension_sums_to_one unique prepared.
Proof.
  intros Htol Hcov.
  destruct unique as [|u us] eqn:EU.
  { destruct raw; intro H; injection H as <- _ _;
      (split; [intros k []|cbn; reflexivity]). }
  rewrite <- EU in *. assert (Hne : unique <> []) by (rewrite EU; discriminate).
  assert (Hopt : dimension_options unique = map Some unique)
    by (rewrite EU; reflexivity).
  clear EU. destruct raw as [shares|].
  - rewrite (dimension_shares_given unique shares name config Hne).
    destruct Hcov as [Hnil|[Hall Hsum]]; [congruence|].
    rewrite (filter_covered shares unique Hall).
    destruct (validateShares_exact (lookupQ shares) unique name
                (validation config) Hne) as (Hv & Hn & _); auto.
    { eapply Forall_impl; [|exact Hall]. cbn. intros k (q & E & H0 & H1).
      unfold lookupQ. rewrite E. auto. }
    destruct (validateShares _ name (validation config)) as [result t].
    cbn [fst] in Hv, Hn. unfold throwIfInvalid. rewrite Hv, Hn. cbn [bind].
    intro H. injection H as <- _ _. split.
    + intros k Hk. rewrite (get_map_key (fun r => Fin (lookupQ shares r)) k _ Hk).
      rewrite Forall_forall in Hall. destruct (Hall k Hk) as (q & E & H0 & _).
      exists (lookupQ shares k). split; [reflexivity|].
      unfold lookupQ. rewrite E. exact H0.
    + rewrite Hopt, map_map. cbn [share_factor].
      rewrite <- Hsum. apply Qsum_map_ext. intros k Hk.
      rewrite (lookupQ_map (lookupQ shares) k unique Hk). reflexivity.
  - rewrite (dimension_shares_equal unique name config Hne).
    intro H.
    assert (Hp : prepared
                 = map (fun k => (k, JS.div (Fin 1) (size unique))) unique)
      by congruence.
    subst prepared. clear H.
    destruct (equal_shares_sum unique Hne) as (n & En & Hn & Hsum).
    split.
    + intros k Hk.
      rewrite (get_map_key (fun _ => JS.div (Fin 1) (size unique)) k unique Hk).
      rewrite En. exists (1 / n). split; [reflexivity|].
      apply Qle_shift_div_l; lra.
    + rewrite Hopt, map_map. cbn [share_factor]. rewrite <- Hsum.
      apply Qsum_map_ext. intros k Hk. unfold lookupQ.
      rewrite (get_map_key (fun _ => JS.div (Fin 1) (size unique)) k unique Hk).
      rewrite En. reflexivity.
Qed.

Lemma in_dimension_options (k : string) (unique : list string) :
  In (Some k) (dimension_options unique) -> In k unique.
Proof.
  destruct unique as [|u us]; cbn [dimension_options].
  - intros [H|[]]. discriminate.
  - intro H. apply in_map_iff in H as (x & E & Hx). injection E as ->.
    exact Hx.
Qed.

Lemma in_combinations (c : option string * option string * option string)
  (subtypes settings lines : list (option string)) :
  In c (combinations subtypes settings lines) ->
  In (fst (fst c)) subtypes /\ In (snd (fst c)) settings /\ In (snd c) lines.
Proof.
  unfold combinations. intro H.
  apply in_flat_map in H as (s & Hs & H).
  apply in_flat_map in H as (t & Ht & H).
  apply in_map_iff in H as (l & <- & Hl). auto.
Qed.

(** One "apply share" block multiplies the population by the factor of
    the dimension. *)
Lemma apply_share_value (step_name : string) (key : option string)
  (unique : list string) (shares : JS.Record_ number) (norm : option bool)
  (p : Q) :
  dimension_sums_to_one unique shares ->
  In (read_key key) (dimension_options unique) ->
  exists p',
    fst (apply_share step_name key shares norm (Fin p)) = Fin p'
    /\ p' == p * share_factor shares (read_key key).
Proof.
  intros [Hget _] Hin. unfold apply_share, read_key in *.
  destruct key as [k|]; [|exists p; split; [reflexivity|cbn; ring]].
  destruct (JS.truthy_str (Some k)) eqn:Et;
    [|exists p; split; [reflexivity|cbn; ring]].
  apply in_dimension_options in Hin. destruct (Hget k Hin) as (q & E & _).
  rewrite E. exists (p * q). split; [reflexivity|].
  cbn [share_factor]. unfold lookupQ. rewrite E. reflexivity.
Qed.

(** The population of a path is the treated pool times the factors of its
    three dimensions. *)
Lemma path_population_value (prep : Prepared) (info : PathInfo)
  (subtypes settings lines : list string) (pool : Q) :
  prep_treated_pool prep = Fin pool ->
  dimension_sums_to_one subtypes (prep_subtype_shares prep) ->
  dimension_sums_to_one settings (prep_setting_shares prep) ->
  dimension_sums_to_one lines (prep_line_shares prep) ->
  In (path_dimensions info)
    (combinations (dimension_options subtypes) (dimension_options settings)
       (dimension_options lines)) ->
  exists p,
    fst (path_population prep info) = Fin p
    /\ p == pool
            * (share_factor (prep_subtype_shares prep)
                 (fst (fst (path_dimensions info)))
               * share_factor (prep_setting_shares prep)
                   (snd (fst (path_dimensions info)))
               * share_factor (prep_line_shares prep)
                   (snd (path_dimensions info))).
Proof.
  intros Hpool Hs Ht Hl Hin. apply in_combinations in Hin as (Is & It & Il).
  cbn [path_dimensions fst snd] in *. unfold path_population. rewrite Hpool.
  destruct (apply_share_value "subtype_allocation" (path_subtype_key info)
              subtypes _
              (trace_normalized (trace_subtype_shares (prep_traces prep)))
              pool Hs Is) as (p1 & E1 & H1).
  destruct (apply_share "subtype_allocation" _ _ _ _) as [x1 t1].
  cbn [fst] in E1. subst x1.
  destruct (apply_share_value "setting_allocation" (path_setting_key info)
              settings _
              (trace_normalized (trace_setting_shares (prep_traces prep)))
              p1 Ht It) as (p2 & E2 & H2).
  destruct (apply_share "setting_allocation" _ _ _ _) as [x2 t2].
  cbn [fst] in E2. subst x2.
  destruct (apply_share_value "line_allocation" (path_line_key info)
              lines _
              (trace_normalized (trace_line_shares (prep_traces prep)))
              p2 Hl Il) as (p3 & E3 & H3).
  destruct (apply_share "line_allocation" _ _ _ _) as [x3 t3].
  cbn [fst] in E3. subst x3.
  exists p3. split; [reflexivity|]. rewrite H3, H2, H1. ring.
Qed.

Lemma share_factor_nonneg (unique : list string)
  (shares : JS.Record_ number) (key : option string) :
  dimension_sums_to_one unique shares ->
  In key (dimension_options unique) ->
  0 <= share_factor shares key.
Proof.
  intros [Hget _] Hin. destruct key as [k|]; cbn [share_factor]; [|lra].
  apply in_dimension_options in Hin. destruct (Hget k Hin) as (q & E & Hq).
  unfold lookupQ. rewrite E. exact Hq.
Qed.

(** [x || 0] is finite, and carries the value of [x]. *)
Lemma or_zero_value (a : number) :
  exists q, JS.or_default (Some a) (Fin 0) = Fin q /\ q == valQ a.
Proof.
  destruct a as [|q]; cbn [JS.or_default JS.truthy valQ].
  - exists 0. split; reflexivity.
  - destruct (Qeq_bool q 0) eqn:E; cbn [negb].
    + apply Qeq_bool_iff in E. exists 0. split; [reflexivity|].
      symmetry. exact E.
    + exists q. split; reflexivity.
Qed.

Lemma or_zero_finite (x : option number) :
  exists q, JS.or_default x (Fin 0) = Fin q.
Proof.
  destruct x as [a|].
  - destruct (or_zero_value a) as (q & E & _). exists q. exact E.
  - exists 0. reflexivity.
Qed.

(** The shares of the regimens of a path sum to 1, or to the sum of the
    configured shares when that sum is within 0.001 of 1. *)
Lemma path_regimen_shares_sum (shares : JS.Record_ number)
  (pathKey : string) (regimens : list string) (population : number) :
  regimens <> [] ->
  (has_regimen_shares shares regimens = true ->
   0 < Qsum (map (regimen_shareQ shares) regimens)) ->
  let prs :=
    fst (build_path_regimen_shares shares pathKey regimens population) in
  0.999 <= Qsum (map (leaf_shareQ prs) regimens)
  /\ Qsum (map (leaf_shareQ prs) regimens) <= 1.001.
Proof.
  intros Hne Hcover prs. unfold prs, build_path_regimen_shares.
  destruct (has_regimen_shares shares regimens).
  - specialize (Hcover eq_refl).
    set (provided := map (fun r => (r, JS.or_default (JS.get r shares) (Fin 0)))
                       regimens).
    assert (Hvals : JS.values provided
                    = map Fin (map (regimen_shareQ shares) regimens)).
    { unfold JS.values, provided. rewrite !map_map. apply map_ext.
      intro r. cbn [snd]. unfold regimen_shareQ.
      destruct (or_zero_finite (JS.get r shares)) as (q & ->). reflexivity. }
    rewrite Hvals.
    destruct (sum_of_Fin (map (regimen_shareQ shares) regimens))
      as (s & Es & Hs).
    rewrite Es. rewrite <- Hs in Hcover.
    assert (Hprov : forall r, In r regimens ->
              leaf_shareQ provided r == regimen_shareQ shares r).
    { intros r Hr. unfold leaf_shareQ, provided.
      rewrite (get_map_key (fun r => JS.or_default (JS.get r shares) (Fin 0))
                 r regimens Hr).
      destruct (or_zero_value (JS.or_default (JS.get r shares) (Fin 0)))
        as (q & -> & Hq). exact Hq. }
    apply gt_Fin in Hcover as G. rewrite G. cbn [andb JS.sub JS.abs JS.lift2].
    destruct (JS.gt (Fin (Qabs (s - 1))) (Fin 0.001)) eqn:Edev; cbn [fst].
    + assert (Hsum :
        Qsum (map (leaf_shareQ
                     (map (fun r => (r, JS.div (JS.or_default
                                                  (JS.get r provided) (Fin 0))
                                          (Fin s))) regimens)) regimens)
        == Qsum (map (fun r => (1 / s) * regimen_shareQ shares r) regimens)).
      { apply Qsum_map_ext. intros r Hr. unfold leaf_shareQ.
        rewrite (get_map_key
                   (fun r => JS.div (JS.or_default (JS.get r provided) (Fin 0))
                               (Fin s)) r regimens Hr).
        pose proof (Hprov r Hr) as Hp. unfold leaf_shareQ in Hp.
        destruct (or_zero_finite (JS.get r provided)) as (x & Ex).
        rewrite Ex in *. cbn [valQ] in Hp. rewrite div_Fin by lra.
        destruct (or_zero_value (Fin (x / s))) as (y & -> & Hy).
        cbn [valQ] in *. rewrite Hy, Hp. field. lra. }
      rewrite Hsum, Qsum_map_scale, <- Hs.
      assert (E1 : 1 / s * s == 1) by (field; lra).
      rewrite E1. split; lra.
    + order_facts.
      rewrite (Qsum_map_ext _ _ _ Hprov), <- Hs.
      revert Edev. apply Qabs_case; intros; split; lra.
  - cbn [fst].
    destruct (equal_shares_sum regimens Hne) as (n & En & Hn & Hsum).
    assert (Heq : Qsum (map (leaf_shareQ
                               (map (fun r => (r, JS.div (Fin 1)
                                                    (size regimens)))
                                  regimens)) regimens)
                  == Qsum (map (fun _ => 1 / n) regimens)).
    { apply Qsum_map_ext. intros r Hr. unfold leaf_shareQ.
      rewrite (get_map_key (fun _ => JS.div (Fin 1) (size regimens)) r
                 regimens Hr), En.
      destruct (or_zero_value (Fin (1 / n))) as (y & -> & Hy). exact Hy. }
    rewrite Heq, Hsum. split; lra.
Qed.

(** The patients of the leaves of a path: the population of the path
    times the shares of its regimens. *)
Lemma path_leaves_patients (assumptions : Types.Assumptions)
  (config : CohortAllocationConfig) (prep : Prepared)
  (entry : string * PathInfo) (p : Q) :
  fst (path_population prep (snd entry)) = Fin p ->
  let prs :=
    fst (build_path_regimen_shares (configured_regimen_shares config)
           (fst entry) (regimen_keys (snd entry)) (Fin p)) in
  map patients (path_leaves assumptions config prep entry)
  = map (fun r => Fin (p * leaf_shareQ prs r)) (regimen_keys (snd entry)).
Proof.
  intros Hp prs. unfold path_leaves, prs.
  destruct (path_population prep (snd entry)) as [pop tr]. cbn [fst] in Hp.
  subst pop.
  destruct (build_path_regimen_shares _ _ _ _) as [shares tr'].
  cbn [fst]. rewrite map_map. apply map_ext. intro r.
  cbn [patients make_leaf]. unfold leaf_shareQ.
  destruct (or_zero_finite (JS.get r shares)) as (q & ->). reflexivity.
Qed.

Lemma get_app_absent {V : Type} (k : string) (m : JS.Record_ V) (x : V) :
  JS.get k m = None -> JS.get k (m ++ [(k, x)])%list = Some x.
Proof.
  induction m as [|[k' v'] m IH]; simpl.
  - rewrite String.eqb_refl. reflexivity.
  - destruct (String.eqb k k'); [discriminate|exact IH].
Qed.

Lemma put_app_absent {V : Type} (k : string) (m : JS.Record_ V) (x v : V) :
  JS.get k m = None ->
  JS.put k v (m ++ [(k, x)])%list = (m ++ [(k, v)])%list.
Proof.
  induction m as [|[k' v'] m IH]; simpl.
  - rewrite String.eqb_refl. reflexivity.
  - destruct (String.eqb k k'); [discriminate|]. intro H.
    rewrite (IH H). reflexivity.
Qed.

(** Every path of [unique_paths] has at least one regimen. *)
Lemma add_path_regimens (paths : JS.Record_ PathInfo)
  (node : Types.TreatmentNode) :
  Forall (fun e => regimen_keys (snd e) <> []) paths ->
  Forall (fun e => regimen_keys (snd e) <> []) (add_path paths node).
Proof.
  intro H. unfold add_path.
  set (pathKey := buildPathKey _ _ _).
  destruct (JS.get pathKey paths) as [p|] eqn:E.
  - rewrite E. destruct (JS.includes _ _); [exact H|].
    apply Forall_forall. intros e He. apply put_entries in He as [->|He].
    + cbn [snd regimen_keys]. intro Hnil. apply app_eq_nil in Hnil as [_ Hnil].
      discriminate.
    + rewrite Forall_forall in H. exact (H e He).
  - rewrite (get_app_absent pathKey paths _ E). cbn [regimen_keys JS.includes existsb].
    rewrite (put_app_absent pathKey paths _ _ E).
    apply Forall_app. split; [exact H|]. constructor; [|constructor].
    cbn [snd regimen_keys app]. discriminate.
Qed.

Lemma unique_paths_regimens (nodes : list Types.TreatmentNode)
  (entry : string * PathInfo) :
  In entry (unique_paths nodes) -> regimen_keys (snd entry) <> [].
Proof.
  unfold unique_paths.
  assert (H : forall acc,
            Forall (fun e => regimen_keys (snd e) <> []) acc ->
            Forall (fun e : string * PathInfo => regimen_keys (snd e) <> [])
              (fold_left add_path nodes acc)).
  { induction nodes as [|n ns IH]; intros acc Hacc; [exact Hacc|].
    cbn [fold_left]. apply IH, add_path_regimens, Hacc. }
  intro Hin. specialize (H [] (Forall_nil _)).
  rewrite Forall_forall in H. exact (H entry Hin).
Qed.

Lemma validateShares_warnings (shares : JS.Record_ number) (name : string)
  (config : ValidationConfig) :
  Forall (fun m => is_conservation_check m = false)
    (Validation.warnings (fst (validateShares shares name config))).
Proof.
  unfold validateShares. destruct shares as [|e rest]; [constructor|].
  destruct (check_shares name (e :: rest)); [|constructor].
  repeat match goal with
         | |- context [if ?b then _ else _] => destruct b
         end; cbn [fst Validation.warnings]; repeat constructor.
Qed.

Lemma dimension_shares_warnings (unique : list string)
  (raw : option (JS.Record_ number)) (name : string)
  (config : CohortAllocationConfig) (shares : JS.Record_ number)
  (w : list message) (tr : option ShareValidationTrace) :
  dimension_shares unique raw name config = Ok (shares, w, tr) ->
  Forall (fun m => is_conservation_check m = false) w.
Proof.
  unfold dimension_shares.
  destruct unique as [|u us]; [intro H; injection H as _ <- _; constructor|].
  destruct raw as [given|].
  - pose proof (validateShares_warnings
                  (filterSharesForDimension given (u :: us)) name
                  (validation config)) as Hw.
    destruct (validateShares _ name (validation config)) as [result t].
    cbn [fst] in Hw. destruct (throwIfInvalid result name); try discriminate.
    cbn [bind]. intro H. injection H as _ <- _. exact Hw.
  - intro H. injection H as _ <- _. repeat constructor.
Qed.

(** The warnings of steps 1 to 4 never include the conservation check. *)
Lemma prepare_warnings (treatment_map : Types.TreatmentMap)
  (assumptions : Types.Assumptions) (config : CohortAllocationConfig)
  (prep : Prepared) :
  prepare treatment_map assumptions config = Ok prep ->
  Forall (fun m => is_conservation_check m = false) (prep_warnings prep).
Proof.
  unfold prepare.
  destruct (select_base_pool config assumptions) as [[base source] w0] eqn:Eb.
  assert (Hw0 : Forall (fun m => is_conservation_check m = false) w0).
  { unfold select_base_pool in Eb.
    destruct (population_model config);
      repeat match type of Eb with
             | context [match ?x with _ => _ end] => destruct x
             end; injection Eb as _ _ <-; repeat constructor. }
  destruct (throwIfInvalid _ "base_pool"); try discriminate. cbn [bind].
  destruct (throwIfInvalid _ "treated_rate"); try discriminate. cbn [bind].
  destruct (dimension_shares (unique_values Types.subtype_key _) _ _ _)
    as [[[s sw] st]| |] eqn:Es; try discriminate.
  cbn [bind].
  destruct (dimension_shares (unique_values Types.setting_key _) _ _ _)
    as [[[t tw] tt']| |] eqn:Et; try discriminate.
  cbn [bind].
  destruct (dimension_shares (unique_values Types.line_key _) _ _ _)
    as [[[l lw] lt]| |] eqn:El; try discriminate.
  cbn [bind]. intro H. injection H as <-. cbn [prep_warnings].
  apply dimension_shares_warnings in Es, Et, El.
  repeat (apply Forall_app; split); auto.
  unfold validatePopulation. destruct (JS.isNaN base); [constructor|].
  cbn [Validation.warnings]. destruct (JS.gt base (Fin 100000000));
    repeat constructor.
Qed.

Section Conservation.

Variable treatment_map : Types.TreatmentMap.
Variable assumptions : Types.Assumptions.
Variable config : CohortAllocationConfig.
Variable prep : Prepared.

Let nodes := Types.nodes treatment_map.
Let subtypes := unique_values Types.subtype_key nodes.
Let settings := unique_values Types.setting_key nodes.
Let lines := unique_values Types.line_key nodes.
Let paths := unique_paths nodes.

Hypothesis prepared : prepare treatment_map assumptions config = Ok prep.
Hypothesis covered : fully_covered treatment_map assumptions config.
Hypothesis tolerance : 0 <= share_sum_tolerance (validation config).

Lemma prepared_pool :
  exists pool, prep_treated_pool prep = Fin pool /\ 0 <= pool.
Proof.
  destruct (prepare_inv _ _ _ _ prepared)
    as ((b & Eb & Hb) & (r & Er & Hr0 & _) & _ & _ & Hpool & _).
  rewrite Hpool, Eb, Er. exists (b * r). split; [reflexivity|]. nra.
Qed.

Lemma prepared_dimensions :
  dimension_sums_to_one subtypes (prep_subtype_shares prep)
  /\ dimension_sums_to_one settings (prep_setting_shares prep)
  /\ dimension_sums_to_one lines (prep_line_shares prep).
Proof.
  destruct (prepare_inv _ _ _ _ prepared)
    as (_ & _ & _ & _ & _ & (sw & st & Hs) & (tw & tt' & Ht) & (lw & lt & Hl)).
  destruct covered as (Cs & Ct & Cl & _).
  repeat split;
    eapply dimension_shares_sums_to_one; try eassumption.
Qed.

Lemma path_in_combinations (entry : string * PathInfo) :
  In entry paths ->
  In (path_dimensions (snd entry))
    (combinations (dimension_options subtypes) (dimension_options settings)
       (dimension_options lines)).
Proof.
  intro Hin. destruct covered as (_ & _ & _ & Hperm & _).
  eapply Permutation_in; [exact Hperm|].
  apply (in_map (fun e => path_dimensions (snd e))), Hin.
Qed.

(** The patients of the leaves of one path. *)
Lemma entry_patients (pool : Q) (entry : string * PathInfo) :
  prep_treated_pool prep = Fin pool -> 0 <= pool ->
  In entry paths ->
  Forall finite (map patients (path_leaves assumptions config prep entry))
  /\ Qsum (map valQ (map patients
                       (path_leaves assumptions config prep entry)))
     == path_populationQ prep pool entry * path_weightQ config prep entry
  /\ 0 <= path_populationQ prep pool entry
  /\ 1 - 0.001 <= path_weightQ config prep entry
  /\ path_weightQ config prep entry <= 1 + 0.001.
Proof.
  intros Hpool Hpos Hin.
  destruct prepared_dimensions as (Hs & Ht & Hl).
  pose proof (path_in_combinations entry Hin) as Hcomb.
  destruct (path_population_value prep (snd entry) subtypes settings lines
              pool Hpool Hs Ht Hl Hcomb) as (p & Ep & Hp).
  fold (path_populationQ prep pool entry) in Hp.
  pose proof (path_leaves_patients assumptions config prep entry p Ep) as Hpat.
  cbv zeta in Hpat.
  assert (Hw : 0.999 <= path_weightQ config prep entry
               /\ path_weightQ config prep entry <= 1.001).
  { unfold path_weightQ. apply path_regimen_shares_sum.
    - apply (unique_paths_regimens nodes entry Hin).
    - destruct covered as (_ & _ & _ & _ & Hreg). apply Hreg, Hin. }
  assert (Hnn : 0 <= path_populationQ prep pool entry).
  { unfold path_populationQ. apply in_combinations in Hcomb as (Is & It & Il).
    pose proof (share_factor_nonneg _ _ _ Hs Is).
    pose proof (share_factor_nonneg _ _ _ Ht It).
    pose proof (share_factor_nonneg _ _ _ Hl Il).
    repeat apply Qmult_le_0_compat; assumption. }
  split.
  - rewrite Hpat. rewrite Forall_map. apply Forall_forall. intros r _.
    eexists. reflexivity.
  - split; [|split; [exact Hnn|split; lra]].
    rewrite Hpat, map_map. cbn [valQ]. rewrite Qsum_map_scale.
    unfold path_weightQ. rewrite Ep.
    apply Qmult_comp; [exact Hp|reflexivity].
Qed.

(** The populations of all paths add up to the treated pool. *)
Lemma path_populations_sum (pool : Q) :
  Qsum (map (path_populationQ prep pool) paths) == pool.
Proof.
  destruct prepared_dimensions as ((_ & Hs) & (_ & Ht) & (_ & Hl)).
  destruct covered as (_ & _ & _ & Hperm & _).
  set (f := fun c : option string * option string * option string =>
              share_factor (prep_subtype_shares prep) (fst (fst c))
              * share_factor (prep_setting_shares prep) (snd (fst c))
              * share_factor (prep_line_shares prep) (snd c)).
  assert (E : Qsum (map (path_populationQ prep pool) paths)
              == pool * Qsum (map f (map (fun e => path_dimensions (snd e))
                                       paths))).
  { rewrite map_map, <- Qsum_map_scale. apply Qsum_map_ext.
    intros e _. reflexivity. }
  rewrite E.
  assert (Hq : Qsum (map f (map (fun e => path_dimensions (snd e)) paths))
               == 1).
  { apply Qeq_trans
      with (Qsum (map f (combinations (dimension_options subtypes)
                           (dimension_options settings)
                           (dimension_options lines)))).
    - apply Qsum_perm, Permutation_map, Hperm.
    - unfold f. rewrite Qsum_combinations, Hs, Ht, Hl. ring. }
  rewrite Hq. ring.
Qed.

(** The patients of all leaves add up to the treated pool, within one
    part in a thousand. *)
Lemma leaves_patients_sum (pool : Q) :
  prep_treated_pool prep = Fin pool -> 0 <= pool ->
  exists total,
    JS.sum_of (map patients
                 (flat_map (path_leaves assumptions config prep) paths))
    = Fin total
    /\ (1 - 0.001) * pool <= total
    /\ total <= (1 + 0.001) * pool.
Proof.
  intros Hpool Hpos.
  assert (Hfin : Forall finite
            (map patients
               (flat_map (path_leaves assumptions config prep) paths))).
  { rewrite Forall_map. apply Forall_forall. intros leaf Hleaf.
    apply in_flat_map in Hleaf as (entry & Hentry & Hleaf).
    destruct (entry_patients pool entry Hpool Hpos Hentry) as (Hf & _).
    rewrite Forall_map, Forall_forall in Hf. exact (Hf leaf Hleaf). }
  destruct (sum_of_finite _ Hfin) as (total & Et & Htot).
  exists total. split; [exact Et|].
  assert (Hsum : total
                 == Qsum (map (fun e => path_populationQ prep pool e
                                        * path_weightQ config prep e) paths)).
  { rewrite Htot, map_map, Qsum_flat_map. apply Qsum_map_ext.
    intros e He.
    destruct (entry_patients pool e Hpool Hpos He) as (_ & Hs & _).
    rewrite <- Hs, map_map. reflexivity. }
  destruct (Qsum_weighted_bounds (path_populationQ prep pool)
              (path_weightQ config prep) 0.001 paths) as [Hlo Hhi].
  { intros e He.
    destruct (entry_patients pool e Hpool Hpos He) as (_ & _ & H0 & H1 & H2).
    auto. }
  rewrite (path_populations_sum pool) in Hlo, Hhi.
  rewrite Hsum. split; assumption.
Qed.

End Conservation.

(** C1, as the code has it.  In every accepted allocation the leaf
    cohorts are those the allocation loop produced, [total_allocated] is
    the sum of their patients, and a conservation ratio further than
    [share_sum_tolerance] from 1 adds one warning and changes nothing
    else.  When, in addition, every dimension value of the taxonomy is
    covered by shares in [0, 1] that sum to 1, the paths of the taxonomy
    are exactly the combinations of its subtype, setting and line values,
    the configured regimen shares have a positive sum on every path that
    has any, and the tolerance is at least 0.001, then the patients of the
    leaf cohorts sum to the treated pool within the tolerance: the
    conservation ratio is within the tolerance of 1 and no conservation
    warning is recorded. *)
Theorem conservation_of_patients (treatment_map : Types.TreatmentMap)
  (assumptions : Types.Assumptions) (config : CohortAllocationConfig)
  (result : CohortAllocationResult) :
  allocateCohorts treatment_map assumptions config = Ok result ->
  let tolerance := share_sum_tolerance (validation config) in
  (exists prep,
     prepare treatment_map assumptions config = Ok prep
     /\ leaf_cohorts result
        = flat_map (path_leaves assumptions config prep)
            (unique_paths (Types.nodes treatment_map))
     /\ total_allocated result
        = JS.sum_of (map patients (leaf_cohorts result))
     /\ (JS.gt (JS.abs (JS.sub (conservation_ratio result) (Fin 1)))
           (Fin tolerance) = true
         <-> In (ConservationCheck (total_allocated result)
                   (treated_pool result) (conservation_ratio result))
               (warnings result)))
  /\ (fully_covered treatment_map assumptions config ->
      0.001 <= tolerance ->
      exists total pool ratio,
        total_allocated result = Fin total
        /\ treated_pool result = Fin pool
        /\ conservation_ratio result = Fin ratio
        /\ Qabs (ratio - 1) <= tolerance
        /\ Qabs (total - pool) <= tolerance * pool
        /\ forall t p r, ~ In (ConservationCheck t p r) (warnings result)).
Proof.
  intros Hok tolerance.
  destruct (allocateCohorts_inv _ _ _ _ Hok)
    as (prep & Hprep & Hleaves & Hpool & _ & Htotal & Hratio & Hwarn).
  pose proof (prepare_warnings _ _ _ _ Hprep) as Hpw.
  assert (Hnone : forall t p r, ~ In (ConservationCheck t p r)
                                    (prep_warnings prep)).
  { intros t p r Hin. rewrite Forall_forall in Hpw.
    specialize (Hpw _ Hin). discriminate. }
  unfold conservation in Htotal, Hratio, Hwarn. cbn [fst snd] in *.
  split.
  - exists prep. split; [exact Hprep|]. split; [exact Hleaves|].
    split; [exact Htotal|]. rewrite Hwarn.
    rewrite <- Hratio, <- Htotal, <- Hpool. fold tolerance.
    destruct (JS.gt (JS.abs (JS.sub (conservation_ratio result) (Fin 1)))
                (Fin tolerance)).
    + split; [intros _|reflexivity]. apply in_or_app. right. left.
      reflexivity.
    + split; [discriminate|]. intro Hin. apply in_app_or in Hin as [Hin|[]].
      exfalso. exact (Hnone _ _ _ Hin).
  - intros Hcov Htol.
    assert (Htol0 : 0 <= share_sum_tolerance (validation config))
      by (fold tolerance; lra).
    destruct (prepared_pool _ _ _ _ Hprep) as (pool & Epool & Hpos).
    destruct (leaves_patients_sum _ _ _ _ Hprep Hcov Htol0 pool Epool Hpos)
      as (total & Etotal & Hlo & Hhi).
    rewrite <- Hleaves in Etotal. rewrite Etotal in *. rewrite Epool in *.
    assert (Hr : exists ratio,
              conservation_ratio result = Fin ratio
              /\ Qabs (ratio - 1) <= 0.001).
    { rewrite Hratio. destruct (JS.gt (Fin pool) (Fin 0)) eqn:G; order_facts.
      - rewrite div_Fin by lra. exists (total / pool). split; [reflexivity|].
        assert (H1 : 1 - 0.001 <= total / pool)
          by (apply Qle_shift_div_l; lra).
        assert (H2 : total / pool <= 1 + 0.001)
          by (apply Qle_shift_div_r; lra).
        apply Qabs_case; intros; lra.
      - exists 1. split; [reflexivity|]. apply Qabs_case; intros; lra. }
    destruct Hr as (ratio & Er & Hr).
    exists total, pool, ratio. rewrite Hpool.
    split; [exact Htotal|]. split; [reflexivity|]. split; [exact Er|].
    split; [lra|]. split.
    + apply Qabs_case; intros; nra.
    + intros t p r Hin. rewrite Hwarn in Hin.
      apply in_app_or in Hin as [Hin|Hin]; [exact (Hnone _ _ _ Hin)|].
      rewrite <- Hratio, Er in Hin. cbn [JS.sub JS.abs JS.lift2] in Hin.
      assert (G : JS.gt (Fin (Qabs (ratio - 1)))
                    (Fin (share_sum_tolerance (validation config))) = false)
        by (apply gt_Fin_false; fold tolerance; lra).
      rewrite G in Hin. destruct Hin.
Qed.

Lemma no_shares_configured (regimens : list string) :
  has_regimen_shares [] regimens = false.
Proof. induction regimens as [|r rs IH]; [reflexivity|exact IH]. Qed.

Lemma settings_example_covered :
  fully_covered settings_example_map settings_example_assumptions
    DEFAULT_ALLOCATION_CONFIG.
Proof.
  unfold fully_covered. cbv zeta. split; [|split; [|split; [|split]]].
  - right. split; [|reflexivity].
    repeat constructor; eexists; (split; [reflexivity|split; discriminate]).
  - right. split; [|reflexivity].
    repeat constructor; eexists; (split; [reflexivity|split; discriminate]).
  - right. split; [|reflexivity].
    repeat constructor; eexists; (split; [reflexivity|split; discriminate]).
  - apply Permutation_refl.
  - intros entry _ H. cbn in H. rewrite no_shares_configured in H.
    discriminate.
Qed.

Lemma conservation_of_patients_witness :
  let tolerance :=
    share_sum_tolerance (validation DEFAULT_ALLOCATION_CONFIG) in
  (exists prep,
     prepare settings_example_map settings_example_assumptions
       DEFAULT_ALLOCATION_CONFIG = Ok prep
     /\ leaf_cohorts settings_example_result
        = flat_map (path_leaves settings_example_assumptions
                      DEFAULT_ALLOCATION_CONFIG prep)
            (unique_paths (Types.nodes settings_example_map))
     /\ total_allocated settings_example_result
        = JS.sum_of (map patients (leaf_cohorts settings_example_result))
     /\ (JS.gt (JS.abs (JS.sub (conservation_ratio settings_example_result)
                          (Fin 1))) (Fin tolerance) = true
         <-> In (ConservationCheck (total_allocated settings_example_result)
                   (treated_pool settings_example_result)
                   (conservation_ratio settings_example_result))
               (warnings settings_example_result)))
  /\ (exists total pool ratio,
        total_allocated settings_example_result = Fin total
        /\ treated_pool settings_example_result = Fin pool
        /\ conservation_ratio settings_example_result = Fin ratio
        /\ Qabs (ratio - 1) <= tolerance
        /\ Qabs (total - pool) <= tolerance * pool
        /\ forall t p r,
             ~ In (ConservationCheck t p r)
                 (warnings settings_example_result)).
Proof.
  cbv zeta.
  refine (match conservation_of_patients settings_example_map
                  settings_example_assumptions DEFAULT_ALLOCATION_CONFIG
                  settings_example_result _ with
          | conj general covered =>
              conj general (covered settings_example_covered _)
          end).
  - vm_compute. reflexivity.
  - discriminate.
Defined.

(** C1 as stated fails.  Every dimension value of the taxonomy below has
    a share, the shares of each dimension sum to 1 and the regimens are
    split equally, yet only 54% of the treated pool is allocated: the
    paths A/s2 and B/s1 are not in the taxonomy. *)
Lemma conservation_fails_on_sparse_paths :
  let nodes := Types.nodes sparse_map in
  dimension_covered (unique_values Types.subtype_key nodes)
    (Types.subtype_shares sparse_assumptions)
  /\ dimension_covered (unique_values Types.setting_key nodes)
       (raw_setting_shares sparse_assumptions)
  /\ dimension_covered (unique_values Types.line_key nodes)
       (Types.line_shares sparse_assumptions)
  /\ exists result,
       allocateCohorts sparse_map sparse_assumptions
         DEFAULT_ALLOCATION_CONFIG = Ok result
       /\ treated_pool result ~= Fin 1000000
       /\ total_allocated result ~= Fin 540000
       /\ conservation_ratio result ~= Fin 0.54
       /\ JS.gt (JS.abs (JS.sub (conservation_ratio result) (Fin 1)))
            (Fin (share_sum_tolerance
                    (validation DEFAULT_ALLOCATION_CONFIG))) = true.
Proof.
  cbv zeta. split; [|split; [|split]].
  - right. split; [|reflexivity].
    repeat constructor; eexists; (split; [reflexivity|split; discriminate]).
  - right. split; [|reflexivity].
    repeat constructor; eexists; (split; [reflexivity|split; discriminate]).
  - exact I.
  - eexists. split; [vm_compute; reflexivity|]. repeat split.
Qed.

(** Why the regimen shares must have a positive sum on a path: shares
    that sum to 0 are applied as they are, and nothing is allocated. *)
Lemma conservation_fails_on_zero_regimen_shares :
  exists result,
    allocateCohorts (map_of [node_on "n1" None None None "r1"])
      plain_assumptions zero_regimen_config = Ok result
    /\ treated_pool result ~= Fin 1000000
    /\ total_allocated result ~= Fin 0
    /\ conservation_ratio result ~= Fin 0.
Proof. eexists. split; [vm_compute; reflexivity|]. repeat split. Qed.

(** Why the tolerance must be at least 0.001: regimen shares within 0.001
    of 1 are applied as they are, and their excess is allocated. *)
Lemma conservation_fails_below_regimen_threshold :
  exists result,
    allocateCohorts two_regimens_map plain_assumptions tight_tolerance_config
    = Ok result
    /\ treated_pool result ~= Fin 1000000
    /\ total_allocated result ~= Fin 1000500
    /\ conservation_ratio result ~= Fin 1.0005
    /\ JS.gt (JS.abs (JS.sub (conservation_ratio result) (Fin 1)))
         (Fin (share_sum_tolerance (validation tight_tolerance_config)))
       = true.
Proof. eexists. split; [vm_compute; reflexivity|]. repeat split. Qed.

End Allocation.

(* ------------------------------------------------------------------ *)
(** ** Forecast generation *)

Section ForecastProperties.

Import Forecast.
Local Open Scope string_scope.

Variable Math_sqrt : number -> number.

Lemma in_sequence_app {A : Type} (xs ys : list (outcome (list A))) :
  in_sequence (xs ++ ys)
  = (a <- in_sequence xs ;; b <- in_sequence ys ;; Ok (a ++ b)%list).
Proof.
  induction xs as [|x xs IH]; cbn [in_sequence app bind].
  - destruct (in_sequence ys); reflexivity.
  - destruct x as [a| |]; cbn [bind]; try reflexivity.
    rewrite IH. destruct (in_sequence xs) as [b| |]; cbn [bind]; try reflexivity.
    destruct (in_sequence ys) as [c| |]; cbn [bind]; try reflexivity.
    rewrite app_assoc. reflexivity.
Qed.

Lemma forecast_years_sequence (treatment_map : Types.TreatmentMap)
  (base_assumptions : Types.Assumptions) (scenario_name : string)
  (scenario_params : Types.ScenarioParameters) (offsets : list nat)
  (records : list Types.ForecastRecord) :
  forecast_years Math_sqrt treatment_map base_assumptions scenario_name
    scenario_params offsets records
  = (more <- in_sequence
               (map (forecast_year Math_sqrt treatment_map base_assumptions
                       scenario_name scenario_params) offsets) ;;
     Ok (records ++ more)%list).
Proof.
  revert records. induction offsets as [|t ts IH]; intro records;
    cbn [forecast_years map in_sequence bind].
  - rewrite app_nil_r. reflexivity.
  - destruct (forecast_year Math_sqrt treatment_map base_assumptions
                scenario_name scenario_params t) as [a| |]; cbn [bind];
      try reflexivity.
    rewrite IH. destruct (in_sequence _) as [b| |]; cbn [bind];
      try reflexivity.
    rewrite app_assoc. reflexivity.
Qed.

Lemma forecast_scenarios_sequence (treatment_map : Types.TreatmentMap)
  (base_assumptions : Types.Assumptions)
  (scenarios : JS.Record_ Types.ScenarioParameters)
  (records : list Types.ForecastRecord) :
  forecast_scenarios Math_sqrt treatment_map base_assumptions scenarios records
  = (more <- in_sequence
               (flat_map
                  (fun s => map (forecast_year Math_sqrt treatment_map
                                   base_assumptions (fst s) (snd s))
                              (year_offsets
                                 (Types.horizon_years base_assumptions)))
                  scenarios) ;;
     Ok (records ++ more)%list).
Proof.
  revert records. induction scenarios as [|[name params] rest IH];
    intro records; cbn [forecast_scenarios flat_map in_sequence bind fst snd].
  - rewrite app_nil_r. reflexivity.
  - rewrite forecast_years_sequence, in_sequence_app.
    destruct (in_sequence (map _ _)) as [a| |]; cbn [bind]; try reflexivity.
    rewrite IH. destruct (in_sequence _) as [b| |]; cbn [bind];
      try reflexivity.
    rewrite app_assoc. reflexivity.
Qed.

Lemma find_first {A : Type} (f : A -> bool) (x : A) (xs : list A) :
  In x xs -> f x = true -> exists y, find f xs = Some y /\ f y = true.
Proof.
  intros Hin Hf. destruct (find f xs) as [y|] eqn:E.
  - exists y. split; [reflexivity|]. apply find_some in E. apply E.
  - exfalso. pose proof (find_none f xs E x Hin). congruence.
Qed.

(** The demand nodes follow the population nodes one for one when every
    population node names a node of the taxonomy. *)
Lemma calculateDemand_ids (treatment_map : Types.TreatmentMap)
  (assumptions : Types.Assumptions)
  (population_nodes : list Types.PopulationNode)
  (demand : list Types.DemandNode) :
  Forall (fun p => exists n, In n (Types.nodes treatment_map)
                             /\ Types.node_id n = Types.pn_node_id p)
    population_nodes ->
  Exposure.calculateDemand Math_sqrt treatment_map population_nodes assumptions
  = Ok demand ->
  map Types.dn_node_id demand = map Types.pn_node_id population_nodes.
Proof.
  intro Hall. revert demand.
  induction Hall as [|p ps (n & Hn & Eid) _ IH]; intro demand;
    cbn [Exposure.calculateDemand].
  - intro H. injection H as <-. reflexivity.
  - unfold Exposure.demand_of at 1.
    destruct (find_first
                (fun m => String.eqb (Types.node_id m) (Types.pn_node_id p))
                n (Types.nodes treatment_map) Hn) as (y & Ey & _).
    { rewrite Eid. apply String.eqb_refl. }
    rewrite Ey.
    destruct (Exposure.calculateDispensedDose y assumptions _) as [d| |];
      cbn [bind]; try discriminate.
    destruct (Exposure.calculateDemand Math_sqrt treatment_map ps assumptions)
      as [ds| |]; cbn [bind]; try discriminate.
    intro H. injection H as <-. cbn [map app Types.dn_node_id].
    rewrite (IH ds eq_refl). reflexivity.
Qed.

(** One forecast record per demand node, carrying the year and the
    scenario, when every demand node names a population node. *)
Lemma records_of_demand (year : number) (scenario_name : string)
  (population_nodes : list Types.PopulationNode)
  (demand : list Types.DemandNode) :
  Forall (fun d => In (Types.dn_node_id d)
                     (map Types.pn_node_id population_nodes)) demand ->
  let records :=
    flat_map (record_of year scenario_name population_nodes) demand in
  map Types.fr_node_id records = map Types.dn_node_id demand
  /\ Forall (fun r => Types.year r = year
                      /\ Types.scenario r = scenario_name) records.
Proof.
  induction 1 as [|d ds Hd _ [IH1 IH2]]; cbn [flat_map map].
  - split; [reflexivity|constructor].
  - unfold record_of at 1 3. apply in_map_iff in Hd as (p & Ep & Hp).
    destruct (find_first
                (fun n => String.eqb (Types.pn_node_id n) (Types.dn_node_id d))
                p population_nodes Hp) as (y & Ey & _).
    { rewrite Ep. apply String.eqb_refl. }
    rewrite Ey. cbn [app map Types.fr_node_id]. split.
    + f_equal. exact IH1.
    + constructor; [split; reflexivity|exact IH2].
Qed.

(** A successful year of a scenario yields one record per node of the
    taxonomy, in the order of the nodes. *)
Lemma forecast_year_records (treatment_map : Types.TreatmentMap)
  (base_assumptions : Types.Assumptions) (scenario_name : string)
  (scenario_params : Types.ScenarioParameters) (year_offset : nat)
  (records : list Types.ForecastRecord) :
  forecast_year Math_sqrt treatment_map base_assumptions scenario_name
    scenario_params year_offset = Ok records ->
  map Types.fr_node_id records
  = map Types.node_id (Types.nodes treatment_map)
  /\ Forall (fun r =>
               Types.year r
               = JS.add (Types.base_year base_assumptions)
                   (Fin (inject_Z (Z.of_nat year_offset)))
               /\ Types.scenario r = scenario_name) records.
Proof.
  unfold forecast_year, Population.allocatePopulation.
  destruct (CohortAllocator.allocateCohorts _ _ _) as [result| |];
    cbn [bind]; try discriminate.
  destruct (fold_left _ _ _) as [rollups traces].
  cbn [bind Population.nodes].
  set (pops := map _ (Types.nodes treatment_map)).
  assert (Hids : map Types.pn_node_id pops
                 = map Types.node_id (Types.nodes treatment_map)).
  { unfold pops. rewrite map_map. apply map_ext. intro n.
    unfold Population.population_node. destruct (JS.get _ _); reflexivity. }
  destruct (Exposure.calculateDemand Math_sqrt treatment_map pops _)
    as [demand| |] eqn:Ed; cbn [bind]; try discriminate.
  intro H. injection H as <-.
  assert (Hd : map Types.dn_node_id demand = map Types.pn_node_id pops).
  { eapply calculateDemand_ids; [|exact Ed]. unfold pops.
    rewrite Forall_map. apply Forall_forall. intros n Hn. exists n.
    split; [exact Hn|]. unfold Population.population_node.
    destruct (JS.get _ _); reflexivity. }
  destruct (records_of_demand
              (JS.add (Types.base_year base_assumptions)
                 (Fin (inject_Z (Z.of_nat year_offset))))
              scenario_name pops demand) as [H1 H2].
  { apply Forall_forall. intros d Hin. rewrite <- Hd.
    apply in_map, Hin. }
  split; [|exact H2]. rewrite H1, Hd, Hids. reflexivity.
Qed.

(** The base population the allocation selects depends on the prevalence
    and the incidence only through what it reads of them. *)
Lemma select_base_pool_reads (config : CohortAllocator.CohortAllocationConfig)
  (a a' : Types.Assumptions) :
  read_population (Types.prevalence a) = read_population (Types.prevalence a') ->
  read_population (Types.incidence a) = read_population (Types.incidence a') ->
  CohortAllocator.select_base_pool config a
  = CohortAllocator.select_base_pool config a'.
Proof.
  unfold CohortAllocator.select_base_pool, read_population, JS.or_default,
    JS.truthy_opt.
  destruct (CohortAllocator.population_model config);
    destruct (Types.prevalence a) as [p|], (Types.prevalence a') as [p'|],
      (Types.incidence a) as [i|], (Types.incidence a') as [i'|];
    try destruct (JS.truthy p) eqn:Ep; try destruct (JS.truthy p') eqn:Ep';
    try destruct (JS.truthy i) eqn:Ei; try destruct (JS.truthy i') eqn:Ei';
    intros H1 H2; try discriminate;
    try (injection H1 as <-); try (injection H2 as <-);
    rewrite ?Ep, ?Ei; cbn [andb]; reflexivity.
Qed.

Lemma mul_falsy (v s : number) :
  JS.truthy v = false -> JS.truthy (JS.mul v s) = false.
Proof.
  destruct v as [|x], s as [|y]; simpl; try reflexivity.
  rewrite !negb_false_iff. intro H. apply Qeq_bool_iff in H.
  apply Qeq_bool_iff. rewrite H. ring.
Qed.

(** [value ? value * scale : undefined] and [value * scale] read the
    same. *)
Lemma read_scaled (x : option number) (s : number) :
  read_population (scale_opt x s)
  = read_population (option_map (fun v => JS.mul v s) x).
Proof.
  destruct x as [v|]; [|reflexivity]. simpl.
  destruct (JS.truthy v) eqn:E; [reflexivity|].
  simpl. rewrite (mul_falsy v s E). reflexivity.
Qed.

Section Year.

Variable treatment_map : Types.TreatmentMap.
Variable base_assumptions : Types.Assumptions.
Variable scenario_params : Types.ScenarioParameters.
Variable t : nat.

Let coded := year_assumptions base_assumptions scenario_params t.
Let worded := scaled_assumptions base_assumptions scenario_params t.

Lemma select_base_pool_scaled
  (config : CohortAllocator.CohortAllocationConfig) :
  CohortAllocator.select_base_pool config coded
  = CohortAllocator.select_base_pool config worded.
Proof. apply select_base_pool_reads; apply read_scaled. Qed.

Lemma prepare_scaled (config : CohortAllocator.CohortAllocationConfig) :
  CohortAllocator.prepare treatment_map coded config
  = CohortAllocator.prepare treatment_map worded config.
Proof.
  unfold CohortAllocator.prepare. rewrite select_base_pool_scaled.
  reflexivity.
Qed.

Lemma allocate_paths_scaled (config : CohortAllocator.CohortAllocationConfig)
  (prep : CohortAllocator.Prepared)
  (paths : JS.Record_ CohortAllocator.PathInfo) :
  CohortAllocator.allocate_paths coded config prep paths
  = CohortAllocator.allocate_paths worded config prep paths.
Proof.
  induction paths as [|entry rest IH]; [reflexivity|].
  cbn [CohortAllocator.allocate_paths]. rewrite IH.
  change (CohortAllocator.allocate_path coded config prep entry)
    with (CohortAllocator.allocate_path worded config prep entry).
  reflexivity.
Qed.

Lemma allocateCohorts_scaled
  (config : CohortAllocator.CohortAllocationConfig) :
  CohortAllocator.allocateCohorts treatment_map coded config
  = CohortAllocator.allocateCohorts treatment_map worded config.
Proof.
  unfold CohortAllocator.allocateCohorts. rewrite prepare_scaled.
  destruct (CohortAllocator.prepare treatment_map worded config) as [prep| |];
    cbn [bind]; try reflexivity.
  rewrite allocate_paths_scaled. reflexivity.
Qed.

Lemma calculateDemand_scaled (population_nodes : list Types.PopulationNode) :
  Exposure.calculateDemand Math_sqrt treatment_map population_nodes coded
  = Exposure.calculateDemand Math_sqrt treatment_map population_nodes worded.
Proof.
  induction population_nodes as [|p ps IH]; [reflexivity|].
  cbn [Exposure.calculateDemand]. rewrite IH.
  change (Exposure.demand_of Math_sqrt treatment_map coded p)
    with (Exposure.demand_of Math_sqrt treatment_map worded p).
  reflexivity.
Qed.

(** The body of the year loop is the recomputation on the scaled
    assumptions: a base population of 0, which the code leaves out of the
    year's assumptions instead of scaling it, is read by the allocation as
    no population either way. *)
Lemma forecast_year_scaled (scenario_name : string) :
  forecast_year Math_sqrt treatment_map base_assumptions scenario_name
    scenario_params t
  = recomputed_year Math_sqrt treatment_map base_assumptions scenario_name
      scenario_params t.
Proof.
  unfold forecast_year, recomputed_year. cbv zeta.
  fold coded. fold worded.
  unfold Population.allocatePopulation.
  rewrite allocateCohorts_scaled.
  destruct (CohortAllocator.allocateCohorts treatment_map worded _)
    as [result| |]; cbn [bind]; try reflexivity.
  destruct (fold_left _ _ _) as [rollups traces].
  cbn [bind Population.nodes].
  rewrite calculateDemand_scaled. reflexivity.
Qed.

End Year.

(** The scaled base populations, in figures. *)
Lemma scaled_populations (base_assumptions : Types.Assumptions)
  (scenario_params : Types.ScenarioParameters) (t : nat) (x cagr : Q) :
  Types.incidence_cagr scenario_params = Fin cagr ->
  (Types.incidence base_assumptions = Some (Fin x) ->
   exists scaled,
     Types.incidence (scaled_assumptions base_assumptions scenario_params t)
     = Some (Fin scaled)
     /\ scaled == x * (1 + cagr) ^ Z.of_nat t)
  /\ (Types.prevalence base_assumptions = Some (Fin x) ->
      exists scaled,
        Types.prevalence
          (scaled_assumptions base_assumptions scenario_params t)
        = Some (Fin scaled)
        /\ scaled == x * (1 + cagr) ^ Z.of_nat t).
Proof.
  intro Hc.
  assert (H : exists y,
            JS.pow (JS.add (Fin 1) (Types.incidence_cagr scenario_params)) t
            = Fin y
            /\ y == (1 + cagr) ^ Z.of_nat t).
  { rewrite Hc. cbn [JS.add JS.lift2].
    destruct t; simpl; eexists; split; reflexivity. }
  destruct H as (y & Ey & Hy).
  split; intro E; unfold scaled_assumptions; cbv zeta;
    cbn [Types.incidence Types.prevalence]; rewrite E, Ey; simpl;
    eexists; (split; [reflexivity|]); rewrite Hy; reflexivity.
Qed.

(** The scaled months on treatment, entry by entry. *)
Lemma scaled_months (base_assumptions : Types.Assumptions)
  (scenario_params : Types.ScenarioParameters) (t : nat)
  (months : JS.Record_ number) (line : string) :
  Types.time_on_treatment_months base_assumptions = Some months ->
  exists scaled,
    Types.time_on_treatment_months
      (scaled_assumptions base_assumptions scenario_params t) = Some scaled
    /\ JS.keys scaled = JS.keys months
    /\ JS.get line scaled
       = option_map
           (fun m => JS.mul m (Types.tot_multiplier scenario_params))
           (JS.get line months).
Proof.
  intro Em. unfold scaled_assumptions. cbv zeta.
  cbn [Types.time_on_treatment_months]. rewrite Em. eexists.
  split; [reflexivity|]. split.
  - unfold JS.keys. rewrite map_map. apply map_ext. intros [k v].
    reflexivity.
  - clear Em. induction months as [|[k v] rest IH]; [reflexivity|].
    cbn [map JS.get]. destruct (String.eqb line k); [reflexivity|].
    exact IH.
Qed.

(** C7. [generateForecast] runs, for every scenario in order and every
    year offset [t] from 0 to [horizon_years] in order, the full
    allocation and demand calculation on the assumptions scaled for that
    year: incidence and prevalence multiplied by [(1 + cagr)^t], the
    treated rate by the scenario's rate multiplier and every
    [time_on_treatment_months] entry by its time-on-treatment multiplier.
    Each such year yields one forecast record per node, carrying the year
    and the scenario, and the result is their concatenation (a year that
    does not return a value ends the run). *)
Theorem generateForecast_recomputes_each_year
  (treatment_map : Types.TreatmentMap) (base_assumptions : Types.Assumptions)
  (base_population : Population.PopulationAllocation)
  (base_demand : list Types.DemandNode) :
  generateForecast Math_sqrt treatment_map base_assumptions base_population
    base_demand
  = in_sequence
      (flat_map
         (fun s => map (recomputed_year Math_sqrt treatment_map
                          base_assumptions (fst s) (snd s))
                     (year_offsets (Types.horizon_years base_assumptions)))
         (scenarios_of base_assumptions))
  /\ (forall n : nat,
        year_offsets (Fin (inject_Z (Z.of_nat n))) = List.seq 0 (n + 1))
  /\ (forall scenario_name scenario_params t,
        let assumptions :=
          scaled_assumptions base_assumptions scenario_params t in
        forecast_year Math_sqrt treatment_map base_assumptions scenario_name
          scenario_params t
        = recomputed_year Math_sqrt treatment_map base_assumptions
            scenario_name scenario_params t
        /\ Types.treated_rate assumptions
           = JS.mul (Types.treated_rate base_assumptions)
               (Types.treated_rate_multiplier scenario_params)
        /\ (forall x cagr,
              Types.incidence_cagr scenario_params = Fin cagr ->
              (Types.incidence base_assumptions = Some (Fin x) ->
               exists scaled,
                 Types.incidence assumptions = Some (Fin scaled)
                 /\ scaled == x * (1 + cagr) ^ Z.of_nat t)
              /\ (Types.prevalence base_assumptions = Some (Fin x) ->
                  exists scaled,
                    Types.prevalence assumptions = Some (Fin scaled)
                    /\ scaled == x * (1 + cagr) ^ Z.of_nat t))
        /\ (forall months line,
              Types.time_on_treatment_months base_assumptions = Some months ->
              exists scaled,
                Types.time_on_treatment_months assumptions = Some scaled
                /\ JS.keys scaled = JS.keys months
                /\ JS.get line scaled
                   = option_map
                       (fun m => JS.mul m (Types.tot_multiplier scenario_params))
                       (JS.get line months))
        /\ (forall records,
              recomputed_year Math_sqrt treatment_map base_assumptions
                scenario_name scenario_params t = Ok records ->
              map Types.fr_node_id records
              = map Types.node_id (Types.nodes treatment_map)
              /\ Forall (fun r =>
                           Types.year r
                           = JS.add (Types.base_year base_assumptions)
                               (Fin (inject_Z (Z.of_nat t)))
                           /\ Types.scenario r = scenario_name) records)).
Proof.
  split; [|split].
  - unfold generateForecast. fold (scenarios_of base_assumptions).
    rewrite forecast_scenarios_sequence.
    assert (E : forall scenarios,
              flat_map
                (fun s => map (forecast_year Math_sqrt treatment_map
                                 base_assumptions (fst s) (snd s))
                            (year_offsets
                               (Types.horizon_years base_assumptions)))
                scenarios
              = flat_map
                  (fun s => map (recomputed_year Math_sqrt treatment_map
                                   base_assumptions (fst s) (snd s))
                              (year_offsets
                                 (Types.horizon_years base_assumptions)))
                  scenarios).
    { intro scenarios. apply flat_map_ext. intro s. apply map_ext. intro t.
      apply forecast_year_scaled. }
    rewrite E. destruct (in_sequence _); reflexivity.
  - intro n. unfold year_offsets.
    assert (E : Qle_bool 0 (inject_Z (Z.of_nat n)) = true).
    { apply Qle_bool_iff. change 0 with (inject_Z 0). rewrite <- Zle_Qle. lia. }
    rewrite E, Qfloor_Z, Nat2Z.id. reflexivity.
  - intros scenario_name scenario_params t assumptions.
    split; [apply forecast_year_scaled|]. split; [reflexivity|].
    split; [|split].
    + intros x cagr Hc. apply scaled_populations, Hc.
    + intros months line Em. apply scaled_months, Em.
    + intros records H. rewrite <- forecast_year_scaled in H.
      apply forecast_year_records in H. exact H.
Qed.

End ForecastProperties.

(* ------------------------------------------------------------------ *)
(** ** Forecast examples and determinism *)

Section Determinism.

Import Forecast CohortAllocator.
Local Open Scope string_scope.

(** Forecast compounding: with a base incidence of 100,000 and a growth
    rate of 0.01, the computation of year offset 5 uses an incidence of
    100,000 x 1.01^5 (105,101.00501). *)
Lemma forecast_compounding_example :
  exists scaled,
    Types.incidence (year_assumptions example_assumptions high_scenario 5)
    = Some (Fin scaled)
    /\ scaled == 100000 * 1.01 ^ 5
    /\ scaled == 105101.00501.
Proof. eexists. split; [reflexivity|]. split; reflexivity. Qed.

(** One year of one scenario of the example: one record for the one node. *)
Lemma forecast_year_example :
  exists record,
    forecast_year (fun x => x) (map_of [example_node]) example_assumptions
      "high" high_scenario 5 = Ok [record]
    /\ Types.fr_node_id record = "n1"
    /\ Types.year record ~= Fin 2029
    /\ Types.scenario record = "high".
Proof.
  eexists. split; [vm_compute; reflexivity|]. repeat split.
Qed.

(** The forecast of the example: the one scenario used by default, the
    eleven years 2024 to 2034, one record a year for the one node. *)
Lemma forecast_example :
  exists records,
    generateForecast (fun x => x) (map_of [example_node]) example_assumptions
      (base_allocation (Fin 2024)) [] = Ok records
    /\ List.length records = 11%nat
    /\ Forall (fun r => Types.fr_node_id r = "n1"
                        /\ Types.scenario r = "base") records
    /\ Forall2 (fun r y => Types.year r ~= Fin (inject_Z y)) records
         [2024; 2025; 2026; 2027; 2028; 2029; 2030; 2031; 2032; 2033;
          2034]%Z.
Proof.
  eexists. split; [vm_compute; reflexivity|]. split; [reflexivity|].
  split; repeat constructor.
Qed.

(** A scaled treated rate above 1 (0.95 x 1.1, in the "high" scenario)
    fails validation, and the whole forecast with it. *)
Lemma forecast_aborts_on_invalid_rate
  (base_population : Population.PopulationAllocation)
  (base_demand : list Types.DemandNode) :
  generateForecast (fun x => x) (map_of [example_node]) high_rate_assumptions
    base_population base_demand
  = Throw (ValidationFailed "treated_rate"
             [CannotExceedOne "treated_rate" None (Fin (0.95 * 1.1))]).
Proof. vm_compute. reflexivity. Qed.

(** The year-offset-5 computation of the example, read off the C7
    theorem: the incidence it uses is 100,000 x 1.01^5. *)
Lemma generateForecast_recomputes_each_year_witness :
  exists scaled,
    Types.incidence (scaled_assumptions example_assumptions high_scenario 5)
    = Some (Fin scaled)
    /\ scaled == 100000 * (1 + 0.01) ^ 5.
Proof.
  destruct (generateForecast_recomputes_each_year (fun x => x)
              (map_of [example_node]) example_assumptions
              (base_allocation (Fin 2024)) []) as (_ & _ & Hyear).
  destruct (Hyear "high" high_scenario 5%nat) as (_ & _ & Hscaled & _).
  destruct (Hscaled 100000 0.01 eq_refl) as [Hincidence _].
  apply Hincidence. reflexivity.
Defined.



End Determinism.

(* ================================================================== *)
(** * Further properties *)

(* ------------------------------------------------------------------ *)
(** ** Validation results *)

Section ValidationResults.

Import Validation.

Lemma validateRate_consistent (rate : number) (name : string) :
  consistent (validateRate rate name).
Proof.
  unfold consistent, validateRate.
  destruct (JS.isNaN rate); [right; split; [reflexivity|discriminate]|].
  destruct (JS.lt rate (Fin 0)); [right; split; [reflexivity|discriminate]|].
  destruct (JS.gt rate (Fin 1)); [right; split; [reflexivity|discriminate]|].
  left. split; reflexivity.
Qed.

Lemma validatePopulation_consistent (population : number) (name : string)
  (config : ValidationConfig) :
  consistent (validatePopulation population name config).
Proof.
  unfold consistent, validatePopulation.
  destruct (JS.isNaN population);
    [right; split; [reflexivity|discriminate]|].
  cbn [valid errors].
  destruct (_ ++ _)%list; [left|right]; split; try reflexivity; discriminate.
Qed.

Lemma validateShares_consistent (shares : JS.Record_ number)
  (dimension_name : string) (config : ValidationConfig) :
  consistent (fst (validateShares shares dimension_name config)).
Proof.
  unfold consistent.
  destruct (valid (fst (validateShares shares dimension_name config))) eqn:E.
  - left. split; [reflexivity|]. revert E. unfold validateShares.
    destruct shares as [|e rest]; [discriminate|].
    destruct (check_shares dimension_name (e :: rest)); [|discriminate].
    repeat match goal with
           | |- context [if ?b then _ else _] => destruct b
           end; cbn [fst valid errors]; try discriminate; reflexivity.
  - right. split; [reflexivity|].
    apply validateShares_invalid_has_errors, E.
Qed.

Lemma aggregate_consistent (results : list ValidationResult) :
  Forall consistent results ->
  consistent (aggregateValidationResults results).
Proof.
  unfold consistent, aggregateValidationResults. cbn [valid errors].
  induction 1 as [|r rs Hr _ IH]; [left; split; reflexivity|].
  cbn [forallb flat_map].
  destruct Hr as [[Hv He]|[Hv He]]; rewrite Hv; cbn [andb].
  - rewrite He. exact IH.
  - right. split; [reflexivity|].
    destruct (errors r); [congruence|discriminate].
Qed.

(** X1. Each result of [validateRate], [validatePopulation] and
    [validateShares] is valid without errors, or invalid with at least one
    error.  The aggregate of such results is valid exactly when every
    result is; [throwIfInvalid] on it returns exactly when no error was
    recorded, and what it throws otherwise carries the context and all the
    errors, at least one. *)
Theorem validation_errors_iff_invalid (results : list ValidationResult)
  (context : string) :
  Forall validator_result results ->
  let all := aggregateValidationResults results in
  Forall consistent results
  /\ (valid all = true <-> Forall (fun r => valid r = true) results)
  /\ (throwIfInvalid all context = Ok tt <-> flat_map errors results = [])
  /\ (flat_map errors results <> [] ->
      throwIfInvalid all context
      = Throw (ValidationFailed context (flat_map errors results))).
Proof.
  intros Hall all.
  assert (Hc : Forall consistent results).
  { eapply Forall_impl; [|exact Hall].
    intros r [(x & n & ->)|[(p & n & c & ->)|(s & n & c & ->)]].
    - apply validateRate_consistent.
    - apply validatePopulation_consistent.
    - apply validateShares_consistent. }
  pose proof (aggregate_consistent results Hc) as Hagg. fold all in Hagg.
  change (flat_map errors results) with (errors all).
  split; [exact Hc|]. split; [|split].
  - unfold all, aggregateValidationResults. cbn [valid].
    rewrite forallb_forall, Forall_forall. reflexivity.
  - unfold throwIfInvalid.
    destruct Hagg as [[Hv He]|[Hv He]]; rewrite Hv.
    + split; [intros _; exact He|reflexivity].
    + split; [discriminate|]. intro E. contradiction.
  - intro Hne. unfold throwIfInvalid.
    destruct Hagg as [[Hv He]|[Hv He]]; [contradiction|].
    rewrite Hv. reflexivity.
Qed.

Lemma validation_errors_iff_invalid_witness :
  let all := aggregateValidationResults example_results in
  Forall consistent example_results
  /\ (valid all = true <-> Forall (fun r => valid r = true) example_results)
  /\ (throwIfInvalid all "inputs" = Ok tt
      <-> flat_map errors example_results = [])
  /\ (flat_map errors example_results <> [] ->
      throwIfInvalid all "inputs"
      = Throw (ValidationFailed "inputs" (flat_map errors example_results))).
Proof.
  apply (validation_errors_iff_invalid example_results "inputs").
  apply Forall_cons; [|apply Forall_cons; [|apply Forall_nil]].
  - left. eexists. eexists. reflexivity.
  - right. left. eexists. eexists. eexists. reflexivity.
Defined.

(** [validatePopulation] accepts exactly the finite populations that are
    not negative and within the ceiling. *)
Lemma validatePopulation_valid_iff (population : number) (name : string)
  (config : ValidationConfig) :
  valid (validatePopulation population name config) = true
  <-> exists p, population = Fin p /\ 0 <= p /\ within_ceiling config p.
Proof.
  unfold validatePopulation, within_ceiling.
  destruct population as [|p]; cbn [JS.isNaN].
  - cbn [valid]. split; [discriminate|]. intros (q & E & _). discriminate.
  - destruct (JS.lt (Fin p) (Fin 0)) eqn:E0; order_facts.
    + cbn [app valid]. split; [discriminate|].
      intros (q & E & H0 & _). injection E as <-. lra.
    + cbn [app]. destruct (max_population config) as [[|m]|].
      * cbn [JS.truthy andb valid]. split; [|reflexivity].
        intros _. exists p. auto.
      * cbn [JS.truthy]. destruct (Qeq_bool m 0) eqn:Em.
        -- cbn [negb andb valid]. split; [|reflexivity]. intros _.
           exists p. split; [reflexivity|]. split; [exact E0|].
           left. apply Qeq_bool_iff, Em.
        -- cbn [negb andb]. destruct (JS.gt (Fin p) (Fin m)) eqn:Eg;
             order_facts; cbn [valid].
           ++ split; [discriminate|].
              intros (q & E & _ & [H|H]); injection E as <-.
              ** apply Qeq_bool_iff in H. congruence.
              ** lra.
           ++ split; [|reflexivity]. intros _. exists p. auto.
      * cbn [valid]. split; [|reflexivity]. intros _. exists p. auto.
Qed.

(** X2. [validatePopulation] accepts exactly a finite population that is
    not negative and not above the configured ceiling, a ceiling that is
    missing, 0 or NaN being no ceiling; apart from that verdict, it warns
    exactly when the population is above 100,000,000. *)
Theorem validatePopulation_verdict (population : number) (name : string)
  (config : ValidationConfig) :
  let result := validatePopulation population name config in
  (valid result = true
   <-> exists p, population = Fin p /\ 0 <= p /\ within_ceiling config p)
  /\ (warnings result <> []
      <-> exists p, population = Fin p /\ 100000000 < p).
Proof.
  cbv zeta. split; [apply validatePopulation_valid_iff|].
  unfold validatePopulation. destruct population as [|p]; cbn [JS.isNaN].
  - cbn [warnings]. split.
    + intro H. exfalso. apply H. reflexivity.
    + intros (q & E & _). discriminate.
  - cbn [warnings]. destruct (JS.gt (Fin p) (Fin 100000000)) eqn:Eg;
      order_facts; split.
    + intros _. exists p. auto.
    + discriminate.
    + intro H. exfalso. apply H. reflexivity.
    + intros (q & E & H). injection E as <-. lra.
Qed.

Lemma renormalize_keys (shares : JS.Record_ number) (sum : number) :
  JS.keys (renormalize shares sum) = JS.keys shares.
Proof.
  unfold JS.keys, renormalize. rewrite map_map. apply map_ext.
  intros [k v]. reflexivity.
Qed.

Lemma renormalize_values (qs : list Q) (shares : JS.Record_ number) (s : Q) :
  JS.values shares = map Fin qs ->
  ~ s == 0 ->
  JS.values (renormalize shares (Fin s)) = map Fin (map (fun q => q / s) qs).
Proof.
  intros Eqs Hne. unfold JS.values, renormalize in *. rewrite map_map.
  revert qs Eqs. induction shares as [|[k v] rest IH]; intros qs Eqs.
  - destruct qs; [reflexivity|discriminate].
  - destruct qs as [|q qs]; [discriminate|]. simpl in Eqs.
    injection Eqs as Ev Erest. cbn [map snd]. subst v.
    rewrite div_Fin by exact Hne. rewrite (IH qs Erest). reflexivity.
Qed.

Lemma Qsum_div (s : Q) (qs : list Q) :
  Qsum (map (fun q => q / s) qs) == Qsum qs / s.
Proof.
  induction qs as [|q qs IH]; simpl.
  - unfold Qdiv. ring.
  - rewrite IH. unfold Qdiv. ring.
Qed.

Lemma Qsum_member_le (qs : list Q) (q : Q) :
  Forall (fun x => 0 <= x) qs -> In q qs -> 0 <= Qsum qs /\ q <= Qsum qs.
Proof.
  induction 1 as [|x xs Hx Hxs IH]; intro Hin; [contradiction|].
  simpl. assert (H0 : 0 <= Qsum xs).
  { clear IH Hin. induction Hxs as [|y ys Hy _ IHy]; simpl; lra. }
  destruct Hin as [->|Hin]; [lra|]. destruct (IH Hin). lra.
Qed.

(** The values of an accepted map, as rationals. *)
Lemma accepted_values (shares : JS.Record_ number) :
  Forall (fun e => in_unit_interval (snd e)) shares ->
  exists qs, JS.values shares = map Fin qs
             /\ Forall (fun q => 0 <= q /\ q <= 1) qs.
Proof.
  induction 1 as [|[k v] rest (q & E & Hq) _ (qs & Eqs & Hqs)].
  - exists []. split; [reflexivity|constructor].
  - exists (q :: qs). simpl in *. subst v. rewrite <- Eqs.
    split; [reflexivity|]. constructor; assumption.
Qed.

(** How [validateShares] accepts a map. *)
Lemma validateShares_accepted_cases (shares : JS.Record_ number)
  (dimension_name : string) (config : ValidationConfig) :
  valid (fst (validateShares shares dimension_name config)) = true ->
  shares <> []
  /\ Forall (fun e => in_unit_interval (snd e)) shares
  /\ exists s how,
    JS.sum_of (JS.values shares) = Fin s
    /\ accepted_as config s how
    /\ validateShares shares dimension_name config
       = ({| valid := true; errors := [];
             warnings := accepted_warnings dimension_name s how;
             normalized_value := Some (accepted_shares shares s how) |},
          {| original_shares := shares; original_sum := Fin s;
             normalized_shares := accepted_shares shares s how;
             normalized := match how with
                           | RenormalizedBySum => true
                           | _ => false
                           end;
             warning := match how with
                        | RenormalizedBySum =>
                            Some (Renormalized dimension_name (Fin s))
                        | _ => None
                        end |}).
Proof.
  unfold validateShares.
  destruct shares as [|e rest]; [discriminate|].
  destruct (check_shares dimension_name (e :: rest)) eqn:Echk; [|discriminate].
  apply check_shares_nil in Echk.
  destruct (accepted_sum_finite _ Echk) as [s Es]. rewrite Es.
  cbn [JS.sub JS.abs JS.lift2]. intro Hv.
  split; [discriminate|]. split; [exact Echk|]. exists s. revert Hv.
  destruct (JS.gt (Fin (Qabs (s - 1))) (Fin (share_sum_tolerance config)))
    eqn:Etol;
    [destruct (JS.gt (Fin s) (Fin 1)) eqn:Egt;
     [destruct (allow_share_renormalization config) eqn:Eallow;
      [destruct (JS.le (Fin (Qabs (s - 1)))
                   (Fin (max_renormalization_deviation config))) eqn:Emax|]
     |destruct (JS.gt (Fin (Qabs (s - 1)))
                  (Fin (max_renormalization_deviation config))) eqn:Emax;
      [|destruct (allow_share_renormalization config) eqn:Eallow]]|];
    cbn [andb fst valid]; try discriminate; intros _; order_facts.
  - exists RenormalizedBySum. split; [reflexivity|].
    split; [cbn; auto|reflexivity].
  - exists KeptAsPatientLoss. split; [reflexivity|].
    split; [cbn; auto|reflexivity].
  - exists RenormalizedBySum. split; [reflexivity|].
    split; [cbn; auto|reflexivity].
  - exists KeptUnflagged. split; [reflexivity|].
    split; [cbn; auto|reflexivity].
  - exists KeptWithinTolerance. split; [reflexivity|].
    split; [cbn; auto|reflexivity].
Qed.

(** X3. When [validateShares] accepts a map, whose values sum to [s], it
    does so in one of four ways, told apart by the sum and the
    configuration.  The map is returned as it is when the sum is within
    the tolerance of 1.  It is renormalized by the sum, with a warning,
    when the sum is off by more than the tolerance and at most the maximal
    deviation and renormalization is allowed (a sum short of 1 included).
    It is returned as it is with a patient-loss warning when the sum is
    short of 1 by more than the maximal deviation.  It is returned as it
    is without a warning when the sum is short of 1 by more than the
    tolerance and at most the maximal deviation and renormalization is
    not allowed.  The trace records the sum and the same shares. *)
Theorem validateShares_accepted_outcome (shares : JS.Record_ number)
  (dimension_name : string) (config : ValidationConfig) :
  valid (fst (validateShares shares dimension_name config)) = true ->
  exists s how,
    JS.sum_of (JS.values shares) = Fin s
    /\ accepted_as config s how
    /\ let result := fst (validateShares shares dimension_name config) in
       let trace := snd (validateShares shares dimension_name config) in
       normalized_value result = Some (accepted_shares shares s how)
       /\ warnings result = accepted_warnings dimension_name s how
       /\ original_sum trace = Fin s
       /\ normalized_shares trace = accepted_shares shares s how
       /\ (normalized trace = true <-> how = RenormalizedBySum).
Proof.
  intro Hv.
  destruct (validateShares_accepted_cases _ _ _ Hv)
    as (_ & _ & s & how & Es & Hhow & E).
  exists s, how. rewrite E. cbn [fst snd normalized_value warnings
    original_sum normalized_shares normalized].
  repeat split; try assumption; destruct how; congruence.
Qed.

Lemma validateShares_accepted_outcome_witness :
  exists s how,
    JS.sum_of (JS.values short_shares) = Fin s
    /\ accepted_as DEFAULT_VALIDATION_CONFIG s how
    /\ let result :=
         fst (validateShares short_shares "line" DEFAULT_VALIDATION_CONFIG) in
       let trace :=
         snd (validateShares short_shares "line" DEFAULT_VALIDATION_CONFIG) in
       normalized_value result = Some (accepted_shares short_shares s how)
       /\ warnings result = accepted_warnings "line" s how
       /\ original_sum trace = Fin s
       /\ normalized_shares trace = accepted_shares short_shares s how
       /\ (normalized trace = true <-> how = RenormalizedBySum).
Proof.
  apply (validateShares_accepted_outcome short_shares "line"
           DEFAULT_VALIDATION_CONFIG).
  reflexivity.
Defined.

(** X4. With a tolerance that is not negative and a maximal deviation
    below 1, the shares [validateShares] accepts and returns keep the keys
    of the map, in its order; each is a number between 0 and 1; and they
    sum to at most 1 plus the tolerance: to 1 when the trace says they
    were renormalized, and they are the map itself otherwise. *)
Theorem validateShares_accepted_shares_bounded (shares : JS.Record_ number)
  (dimension_name : string) (config : ValidationConfig) :
  0 <= share_sum_tolerance config ->
  max_renormalization_deviation config < 1 ->
  valid (fst (validateShares shares dimension_name config)) = true ->
  exists returned t,
    normalized_value (fst (validateShares shares dimension_name config))
    = Some returned
    /\ JS.keys returned = JS.keys shares
    /\ Forall in_unit_interval (JS.values returned)
    /\ JS.sum_of (JS.values returned) = Fin t
    /\ t <= 1 + share_sum_tolerance config
    /\ (if normalized (snd (validateShares shares dimension_name config))
        then t == 1
        else returned = shares).
Proof.
  intros Htol Hmax Hv.
  destruct (validateShares_accepted_cases _ _ _ Hv)
    as (_ & Hall & s & how & Es & Hhow & E).
  rewrite E. cbn [fst snd normalized_value normalized].
  destruct (accepted_values shares Hall) as (qs & Eqs & Hqs).
  assert (Hs : s == Qsum qs).
  { rewrite Eqs in Es. destruct (sum_of_Fin qs) as (s' & Es' & Hs').
    rewrite Es' in Es. injection Es as <-. exact Hs'. }
  assert (Hkept : forall d, 0 <= d -> Qabs (s - 1) <= d \/ s <= 1 ->
            Forall in_unit_interval (JS.values shares) /\ s <= 1 + d).
  { intros d Hd Hdev. split.
    - rewrite Eqs. apply Forall_map. eapply Forall_impl; [|exact Hqs].
      intros q Hq. exists q. split; [reflexivity|exact Hq].
    - destruct Hdev as [Hdev|Hdev]; [|lra].
      apply Qabs_Qle_condition in Hdev. lra. }
  destruct how; cbn [accepted_as accepted_shares] in *.
  - exists shares, s. destruct (Hkept _ Htol (or_introl Hhow)). auto 10.
  - destruct Hhow as (Hlow & Hhigh & _).
    assert (Hpos : 0 < s).
    { destruct (Qlt_le_dec 0 s) as [H|H]; [exact H|].
      rewrite Qabs_neg in Hhigh by lra. lra. }
    assert (Hne : ~ s == 0) by lra.
    exists (renormalize shares (Fin s)).
    rewrite (renormalize_values qs shares s Eqs Hne), renormalize_keys.
    destruct (sum_of_Fin (map (fun q => q / s) qs)) as (t & Et & Ht).
    exists t. rewrite Et.
    assert (Ht1 : t == 1).
    { rewrite Ht, Qsum_div, <- Hs. field. exact Hne. }
    repeat split; try reflexivity; [|lra|exact Ht1].
    apply Forall_map, Forall_map. apply Forall_forall. intros q Hin.
    exists (q / s). split; [reflexivity|].
    assert (H0 : Forall (fun x => 0 <= x) qs).
    { eapply Forall_impl; [|exact Hqs]. intros x [Hx _]. exact Hx. }
    destruct (Qsum_member_le qs q H0 Hin) as [_ Hle].
    rewrite Forall_forall in Hqs. destruct (Hqs q Hin) as [Hq0 _].
    split.
    + apply Qle_shift_div_l; [exact Hpos|lra].
    + apply Qle_shift_div_r; [exact Hpos|lra].
  - exists shares, s. destruct Hhow as (Hle & _).
    destruct (Hkept _ Htol (or_intror Hle)). auto 10.
  - exists shares, s. destruct Hhow as (Hle & _).
    destruct (Hkept _ Htol (or_intror Hle)). auto 10.
Qed.

Lemma validateShares_accepted_shares_bounded_witness :
  exists returned t,
    normalized_value
      (fst (validateShares short_shares "line" DEFAULT_VALIDATION_CONFIG))
    = Some returned
    /\ JS.keys returned = JS.keys short_shares
    /\ Forall in_unit_interval (JS.values returned)
    /\ JS.sum_of (JS.values returned) = Fin t
    /\ t <= 1 + share_sum_tolerance DEFAULT_VALIDATION_CONFIG
    /\ (if normalized
             (snd (validateShares short_shares "line"
                     DEFAULT_VALIDATION_CONFIG))
        then t == 1
        else returned = short_shares).
Proof.
  apply (validateShares_accepted_shares_bounded short_shares "line"
           DEFAULT_VALIDATION_CONFIG).
  - discriminate.
  - reflexivity.
  - reflexivity.
Defined.

End ValidationResults.

(* ------------------------------------------------------------------ *)
(** ** Paths, cohorts and nodes *)

Section Paths.

Import Validation CohortAllocator.
Local Open Scope string_scope.

(** *** Lookups in records *)

Lemma get_None_keys {V : Type} (k : string) (m : JS.Record_ V) :
  JS.get k m = None <-> ~ In k (JS.keys m).
Proof.
  induction m as [|[k' v] m IH]; cbn [JS.get JS.keys map In fst].
  - tauto.
  - destruct (String.eqb k k') eqn:E.
    + apply String.eqb_eq in E. subst k'. split; [discriminate|tauto].
    + apply String.eqb_neq in E. unfold JS.keys in IH. rewrite IH.
      split; [intros H [H'|H']; [congruence|tauto]|tauto].
Qed.

Lemma In_get {V : Type} (k : string) (v : V) (m : JS.Record_ V) :
  NoDup (JS.keys m) -> In (k, v) m -> JS.get k m = Some v.
Proof.
  induction m as [|[k' v'] m IH]; [contradiction|].
  cbn [JS.keys map fst JS.get In]. intros Hnd [H|H].
  - injection H as -> ->. rewrite String.eqb_refl. reflexivity.
  - destruct (String.eqb k k') eqn:E.
    + apply String.eqb_eq in E. subst k'. apply NoDup_cons_iff in Hnd.
      exfalso. apply (proj1 Hnd). apply (in_map fst) in H. exact H.
    + apply IH; [|exact H]. apply NoDup_cons_iff in Hnd. apply Hnd.
Qed.

Lemma get_app_None {V : Type} (k : string) (m m' : JS.Record_ V) :
  JS.get k m = None -> JS.get k (m ++ m')%list = JS.get k m'.
Proof.
  induction m as [|[k' v] m IH]; [reflexivity|]. cbn [JS.get app].
  destruct (String.eqb k k'); [discriminate|exact IH].
Qed.

Lemma put_app_None {V : Type} (k : string) (v : V) (m m' : JS.Record_ V) :
  JS.get k m = None ->
  JS.put k v (m ++ m')%list = (m ++ JS.put k v m')%list.
Proof.
  induction m as [|[k' v'] m IH]; [reflexivity|]. cbn [JS.get JS.put app].
  destruct (String.eqb k k'); [discriminate|]. intro H. rewrite (IH H).
  reflexivity.
Qed.

Lemma put_In_new {V : Type} (k : string) (v : V) (m : JS.Record_ V) :
  In (k, v) (JS.put k v m) \/ exists k', String.eqb k k' = true
                                         /\ In (k', v) (JS.put k v m).
Proof.
  induction m as [|[k' v'] m IH]; cbn [JS.put].
  - left. left. reflexivity.
  - destruct (String.eqb k k') eqn:E.
    + apply String.eqb_eq in E. subst k'. left. left. reflexivity.
    + destruct IH as [H|(k2 & E2 & H)]; [left; right; exact H|].
      right. exists k2. split; [exact E2|right; exact H].
Qed.

Lemma put_holds {V : Type} (k : string) (v : V) (m : JS.Record_ V) :
  In (k, v) (JS.put k v m).
Proof.
  destruct (put_In_new k v m) as [H|(k' & E & H)]; [exact H|].
  apply String.eqb_eq in E. subst k'. exact H.
Qed.

Lemma put_keeps {V : Type} (k : string) (v : V) (m : JS.Record_ V)
  (e : string * V) :
  In e m -> fst e <> k -> In e (JS.put k v m).
Proof.
  induction m as [|[k' v'] m IH]; [contradiction|]. cbn [JS.put In].
  intros [H|H] Hne.
  - subst e. cbn [fst] in Hne. destruct (String.eqb k k') eqn:E.
    + apply String.eqb_eq in E. congruence.
    + left. reflexivity.
  - destruct (String.eqb k k'); right; [exact H|apply IH; assumption].
Qed.

Lemma put_keys {V : Type} (k : string) (v p : V) (m : JS.Record_ V) :
  JS.get k m = Some p -> JS.keys (JS.put k v m) = JS.keys m.
Proof.
  induction m as [|[k' v'] m IH]; [discriminate|].
  cbn [JS.get JS.put]. destruct (String.eqb k k'); [reflexivity|].
  intro H. cbn [JS.keys map fst]. f_equal. apply IH, H.
Qed.

Lemma get_put_same {V : Type} (k : string) (v : V) (m : JS.Record_ V) :
  JS.get k (JS.put k v m) = Some v.
Proof.
  induction m as [|[k' v'] m IH]; cbn [JS.put JS.get].
  - rewrite String.eqb_refl. reflexivity.
  - destruct (String.eqb k k') eqn:E; cbn [JS.get]; rewrite E;
      [reflexivity|exact IH].
Qed.

Lemma get_put_other {V : Type} (k k' : string) (v : V) (m : JS.Record_ V) :
  k' <> k -> JS.get k' (JS.put k v m) = JS.get k' m.
Proof.
  intro Hne. induction m as [|[k2 v2] m IH]; cbn [JS.put JS.get].
  - apply String.eqb_neq in Hne. rewrite Hne. reflexivity.
  - destruct (String.eqb k k2) eqn:E; cbn [JS.get].
    + apply String.eqb_eq in E. subst k2. apply String.eqb_neq in Hne.
      rewrite Hne. reflexivity.
    + destruct (String.eqb k' k2); [reflexivity|exact IH].
Qed.

Lemma includes_In (x : string) (xs : list string) :
  JS.includes x xs = true <-> In x xs.
Proof.
  unfold JS.includes. rewrite existsb_exists. split.
  - intros (y & Hy & E). apply String.eqb_eq in E. subst y. exact Hy.
  - intro H. exists x. split; [exact H|apply String.eqb_refl].
Qed.

(** X5. [filterSharesForDimension] keeps of a share map exactly the entries
    of the dimension keys: in the filtered map a key reads as in the share
    map when it is one of the dimension keys, and as undefined otherwise;
    the keys kept are the dimension keys that have an entry, each once when
    the dimension keys are distinct. *)
Theorem filterSharesForDimension_lookup (shares : JS.Record_ number)
  (dimension_keys : list string) (key : string) :
  JS.get key (filterSharesForDimension shares dimension_keys)
  = (if JS.includes key dimension_keys then JS.get key shares else None)
  /\ (forall k, In k (JS.keys (filterSharesForDimension shares dimension_keys))
                <-> In k dimension_keys /\ JS.get k shares <> None)
  /\ (NoDup dimension_keys ->
      NoDup (JS.keys (filterSharesForDimension shares dimension_keys))).
Proof.
  unfold filterSharesForDimension. split; [|split].
  - induction dimension_keys as [|d ds IH]; [reflexivity|].
    cbn [flat_map JS.includes existsb]. fold (JS.includes key ds).
    destruct (String.eqb key d) eqn:E.
    + apply String.eqb_eq in E. subst d. cbn [orb].
      destruct (JS.get key shares) as [v|] eqn:Ev.
      * cbn [app JS.get]. rewrite String.eqb_refl. reflexivity.
      * cbn [app]. rewrite IH. destruct (JS.includes key ds); reflexivity.
    + cbn [orb]. destruct (JS.get d shares) as [v|]; cbn [app JS.get];
        [rewrite E|]; exact IH.
  - intro k. induction dimension_keys as [|d ds IH]; cbn [flat_map].
    + split; [contradiction|intros [[] _]].
    + unfold JS.keys in *. rewrite map_app, in_app_iff, IH. cbn [In].
      destruct (JS.get d shares) as [v|] eqn:Ev; cbn [map In fst]; split.
      * intros [[<-|[]]|H]; [|tauto]. split; [auto|congruence].
      * intros [[<-|H] Hk]; [left; left; reflexivity|right; auto].
      * intros [[]|H]; tauto.
      * intros [[<-|H] Hk]; [congruence|right; auto].
  - intro Hnd. induction Hnd as [|d ds Hd _ IH]; [constructor|].
    cbn [flat_map]. unfold JS.keys in *. rewrite map_app.
    destruct (JS.get d shares) as [v|]; cbn [map app]; [|exact IH].
    constructor; [|exact IH]. intro Hin. apply Hd.
    apply in_map_iff in Hin as ([k' v'] & Ek & Hin). cbn [fst] in Ek. subst k'.
    apply in_flat_map in Hin as (x & Hx & Hin).
    destruct (JS.get x shares); [|contradiction].
    destruct Hin as [H|[]]. injection H as -> _. exact Hx.
Qed.

(** *** Path keys *)

Lemma bar_split (s s' t t' : string) :
  bar_free s = true -> bar_free s' = true ->
  (s ++ "|" ++ t = s' ++ "|" ++ t')%string -> s = s' /\ t = t'.
Proof.
  revert s'. induction s as [|c s IH]; intros [|c' s'] Hs Hs' E;
    cbn [String.append] in E.
  - injection E as ->. auto.
  - injection E as <- _. cbn [bar_free] in Hs'.
    rewrite Ascii.eqb_refl in Hs'. discriminate.
  - injection E as -> _. cbn [bar_free] in Hs.
    rewrite Ascii.eqb_refl in Hs. discriminate.
  - injection E as <- E. cbn [bar_free] in Hs, Hs'.
    apply andb_true_iff in Hs as [_ Hs]. apply andb_true_iff in Hs' as [_ Hs'].
    destruct (IH s' Hs Hs' E) as [-> ->]. auto.
Qed.

Lemma str_or_clean (k : option string) :
  clean_key k -> bar_free (JS.str_or k "_") = true.
Proof.
  destruct k as [[|c s]|]; cbn [clean_key JS.str_or]; try reflexivity.
  intros (_ & _ & H). exact H.
Qed.

Lemma str_or_injective (k k' : option string) :
  clean_key k -> clean_key k' ->
  JS.str_or k "_" = JS.str_or k' "_" -> k = k'.
Proof.
  destruct k as [[|c s]|], k' as [[|c' s']|]; cbn [clean_key JS.str_or];
    intros H H' E;
    repeat match goal with
           | C : _ /\ _ |- _ => destruct C
           end; congruence.
Qed.

(** X6. [buildPathKey] tells paths apart when their keys are clean (null,
    or a text that is not empty, is not the placeholder and has no bar):
    two such paths with the same path key have the same subtype, setting
    and line.  (Null, the empty text and the placeholder all render as the
    placeholder, so the hypothesis is needed.) *)
Theorem buildPathKey_injective
  (subtype setting line subtype' setting' line' : option string) :
  clean_key subtype -> clean_key setting ->
  clean_key subtype' -> clean_key setting' ->
  clean_key line -> clean_key line' ->
  buildPathKey subtype setting line = buildPathKey subtype' setting' line' ->
  subtype = subtype' /\ setting = setting' /\ line = line'.
Proof.
  intros Hs Ht Hs' Ht' Hl Hl'. unfold buildPathKey. intro E.
  apply bar_split in E as [E1 E]; try (apply str_or_clean; assumption).
  apply bar_split in E as [E2 E3]; try (apply str_or_clean; assumption).
  split; [|split]; apply str_or_injective; assumption.
Qed.

Lemma buildPathKey_injective_witness :
  Some "HER2+" = Some "HER2+" /\ Some "adjuvant" = Some "adjuvant"
  /\ @None string = None.
Proof.
  apply (buildPathKey_injective (Some "HER2+") (Some "adjuvant") None
           (Some "HER2+") (Some "adjuvant") None);
    cbn; repeat split; try discriminate.
Defined.

(** *** Checked inputs *)

Lemma select_base_pool_auto (config : CohortAllocationConfig)
  (assumptions : Types.Assumptions) :
  population_model config = auto ->
  exists p, fst (fst (select_base_pool config assumptions)) = Fin p /\ 0 <= p.
Proof.
  intro Hauto. unfold select_base_pool. rewrite Hauto.
  destruct (Types.prevalence assumptions) as [[|p]|],
    (Types.incidence assumptions) as [[|i]|]; cbn [JS.truthy andb fst];
    repeat match goal with
           | |- context [if ?b then _ else _] => destruct b eqn:?
           end; cbn [fst];
    repeat match goal with
           | H : (_ && _)%bool = true |- _ =>
               apply andb_true_iff in H as [_ H]
           end; order_facts;
    eexists; (split; [reflexivity|lra]).
Qed.

(** X7. [allocateCohorts] checks the base pool first and the treated rate
    second, before it looks at the taxonomy or the shares: an invalid base
    pool throws the validation error of base_pool with the errors of
    [validatePopulation]; a valid pool with an invalid rate throws that of
    treated_rate with the errors of [validateRate].  In [auto] mode the
    base pool selected is a finite number that is not negative, so only
    the ceiling can reject it.  A result, when there is one, has a base
    pool that is finite, not negative and within the ceiling, a treated
    rate between 0 and 1, and their product as treated pool. *)
Theorem allocateCohorts_checks_inputs (treatment_map : Types.TreatmentMap)
  (assumptions : Types.Assumptions) (config : CohortAllocationConfig) :
  let pool := fst (fst (select_base_pool config assumptions)) in
  let population_check :=
    validatePopulation pool "base_pool" (validation config) in
  let rate_check :=
    validateRate (Types.treated_rate assumptions) "treated_rate" in
  (valid population_check = false ->
   allocateCohorts treatment_map assumptions config
   = Throw (ValidationFailed "base_pool" (errors population_check)))
  /\ (valid population_check = true -> valid rate_check = false ->
      allocateCohorts treatment_map assumptions config
      = Throw (ValidationFailed "treated_rate" (errors rate_check)))
  /\ (population_model config = auto ->
      exists p, pool = Fin p /\ 0 <= p
                /\ (valid population_check = true
                    <-> within_ceiling (validation config) p))
  /\ (forall result,
        allocateCohorts treatment_map assumptions config = Ok result ->
        exists p r,
          base_pool result = Fin p /\ Types.treated_rate assumptions = Fin r
          /\ treated_pool result = Fin (p * r)
          /\ 0 <= p /\ within_ceiling (validation config) p
          /\ 0 <= r <= 1).
Proof.
  cbv zeta. split; [|split; [|split]].
  - intro Hbad. unfold allocateCohorts, prepare.
    destruct (select_base_pool config assumptions) as [[pool source] w0].
    cbn [fst] in Hbad. unfold throwIfInvalid at 1. rewrite Hbad.
    reflexivity.
  - intros Hpool Hbad. unfold allocateCohorts, prepare.
    destruct (select_base_pool config assumptions) as [[pool source] w0].
    cbn [fst] in Hpool. unfold throwIfInvalid at 1. rewrite Hpool.
    cbn [bind]. unfold throwIfInvalid at 1. rewrite Hbad. reflexivity.
  - intro Hauto.
    destruct (select_base_pool_auto config assumptions Hauto) as (p & E & Hp).
    exists p. split; [exact E|]. split; [exact Hp|].
    rewrite validatePopulation_valid_iff, E. split.
    + intros (q & Eq & _ & H). injection Eq as <-. exact H.
    + intro H. exists p. auto.
  - intros result Hrun.
    destruct (allocateCohorts_inv _ _ _ _ Hrun)
      as (prep & Hprep & _ & Epool & Ebase & _).
    rewrite Epool, Ebase. clear Hrun Epool Ebase. revert Hprep.
    unfold prepare.
    destruct (select_base_pool config assumptions) as [[pool source] w0].
    destruct (valid (validatePopulation pool "base_pool" (validation config)))
      eqn:Hpool; unfold throwIfInvalid at 1; rewrite Hpool; cbn [bind];
      [|discriminate].
    destruct (valid (validateRate (Types.treated_rate assumptions)
                       "treated_rate")) eqn:Hrate;
      unfold throwIfInvalid at 1; rewrite Hrate; cbn [bind]; [|discriminate].
    apply validatePopulation_valid_iff in Hpool as (p & -> & Hp & Hceil).
    apply validateRate_valid in Hrate as (r & Er & Hr).
    destruct (dimension_shares _ _ "subtype_shares" config)
      as [[[s sw] st]| |]; cbn [bind]; try discriminate.
    destruct (dimension_shares _ _ "setting_shares" config)
      as [[[t tw] tt']| |]; cbn [bind]; try discriminate.
    destruct (dimension_shares _ _ "line_shares" config)
      as [[[l lw] lt]| |]; cbn [bind]; try discriminate.
    intro H. injection H as <-. cbn [prep_base_pool prep_treated_pool].
    exists p, r. rewrite Er. cbn [JS.mul JS.lift2]. auto 10.
Qed.

Lemma filter_agree (unique : list string) (shares shares' : JS.Record_ number) :
  agree_on unique shares shares' ->
  filterSharesForDimension shares' unique
  = filterSharesForDimension shares unique.
Proof.
  unfold agree_on, filterSharesForDimension.
  induction unique as [|k ks IH]; intro H; [reflexivity|]. cbn [flat_map].
  rewrite (H k (or_introl eq_refl)), IH; [reflexivity|].
  intros k' Hk'. apply H. right. exact Hk'.
Qed.

Lemma dimension_shares_agree (unique : list string)
  (shares shares' : JS.Record_ number) (name : string)
  (config : CohortAllocationConfig) :
  agree_on unique shares shares' ->
  dimension_shares unique (Some shares') name config
  = dimension_shares unique (Some shares) name config.
Proof.
  intro H. unfold dimension_shares. destruct unique as [|k ks]; [reflexivity|].
  rewrite (filter_agree _ _ _ H). reflexivity.
Qed.

Lemma allocate_paths_reads (a a' : Types.Assumptions)
  (config : CohortAllocationConfig) (prep : Prepared)
  (paths : JS.Record_ PathInfo) :
  Types.time_on_treatment_months a' = Types.time_on_treatment_months a ->
  allocate_paths a' config prep paths = allocate_paths a config prep paths.
Proof.
  intro H. induction paths as [|[k info] rest IH]; [reflexivity|].
  cbn [allocate_paths]. rewrite IH. f_equal.
  unfold allocate_path. destruct (path_population prep info) as [p tr].
  destruct (_ && _)%bool; [reflexivity|].
  destruct (build_path_regimen_shares _ _ _ _) as [shares tr'].
  f_equal. apply map_ext. intro r. unfold make_leaf, time_on_treatment.
  rewrite H. reflexivity.
Qed.

(** X8. Only the shares of the dimension values the taxonomy uses are
    read: share maps that give these values the same shares lead to the
    same outcome of [allocateCohorts], whatever other entries they hold
    and in whatever order. *)
Theorem shares_outside_taxonomy_ignored (treatment_map : Types.TreatmentMap)
  (assumptions : Types.Assumptions) (config : CohortAllocationConfig)
  (subtype setting line subtype' setting' line' : JS.Record_ number) :
  let nodes := Types.nodes treatment_map in
  agree_on (unique_values Types.subtype_key nodes) subtype subtype' ->
  agree_on (unique_values Types.setting_key nodes) setting setting' ->
  agree_on (unique_values Types.line_key nodes) line line' ->
  allocateCohorts treatment_map
    (with_shares assumptions subtype' setting' line') config
  = allocateCohorts treatment_map
      (with_shares assumptions subtype setting line) config.
Proof.
  intros nodes Hs Ht Hl. unfold allocateCohorts.
  assert (Hprep : prepare treatment_map
                    (with_shares assumptions subtype' setting' line') config
                  = prepare treatment_map
                      (with_shares assumptions subtype setting line) config).
  { unfold prepare.
    change (select_base_pool config
              (with_shares assumptions subtype' setting' line'))
      with (select_base_pool config
              (with_shares assumptions subtype setting line)).
    cbn [with_shares Types.subtype_shares Types.setting_shares
         Types.line_shares Types.treated_rate Types.stage_shares].
    fold nodes.
    rewrite (dimension_shares_agree _ _ _ "subtype_shares" config Hs),
      (dimension_shares_agree _ _ _ "setting_shares" config Ht),
      (dimension_shares_agree _ _ _ "line_shares" config Hl).
    reflexivity. }
  rewrite Hprep. clear Hprep.
  destruct (prepare _ _ _) as [prep| |]; cbn [bind]; try reflexivity.
  rewrite (allocate_paths_reads
             (with_shares assumptions subtype setting line)
             (with_shares assumptions subtype' setting' line'));
    reflexivity.
Qed.

Lemma shares_outside_taxonomy_ignored_witness :
  allocateCohorts settings_example_map
    (with_shares settings_example_assumptions
       [("HR+", Fin 0.7); ("HER2+", Fin 1)]
       [("metastatic", Fin 0.35); ("adjuvant", Fin 0.40);
        ("neoadjuvant", Fin 0.25)]
       [("1L", Fin 1); ("2L", Fin 0.5)])
    DEFAULT_ALLOCATION_CONFIG
  = allocateCohorts settings_example_map
      (with_shares settings_example_assumptions
         [("HER2+", Fin 1)]
         [("adjuvant", Fin 0.40); ("neoadjuvant", Fin 0.25);
          ("metastatic", Fin 0.35)]
         [("1L", Fin 1)])
      DEFAULT_ALLOCATION_CONFIG.
Proof.
  apply (shares_outside_taxonomy_ignored settings_example_map
           settings_example_assumptions DEFAULT_ALLOCATION_CONFIG).
  - intros k Hk. vm_compute in Hk. destruct Hk as [<-|[]]. reflexivity.
  - intros k Hk. vm_compute in Hk.
    destruct Hk as [<-|[<-|[<-|[]]]]; reflexivity.
  - intros k Hk. vm_compute in Hk. destruct Hk as [<-|[]]. reflexivity.
Defined.

(** X9. On a taxonomy without nodes a valid base pool and a valid treated
    rate are all [allocateCohorts] needs, the share maps are not looked
    at: it returns no leaf cohort and a total of 0; with a positive treated
    pool the conservation ratio is 0 and, for a tolerance below 1, the
    conservation warning is recorded; with a treated pool of 0 the ratio
    is 1. *)
Theorem allocateCohorts_empty_taxonomy (treatment_map : Types.TreatmentMap)
  (assumptions : Types.Assumptions) (config : CohortAllocationConfig) :
  Types.nodes treatment_map = [] ->
  valid (validatePopulation (fst (fst (select_base_pool config assumptions)))
           "base_pool" (validation config)) = true ->
  valid (validateRate (Types.treated_rate assumptions) "treated_rate")
  = true ->
  exists result pool,
    allocateCohorts treatment_map assumptions config = Ok result
    /\ leaf_cohorts result = []
    /\ total_allocated result = Fin 0
    /\ treated_pool result = Fin pool
    /\ 0 <= pool
    /\ (0 < pool ->
        conservation_ratio result ~= Fin 0
        /\ (share_sum_tolerance (validation config) < 1 ->
            In (ConservationCheck (Fin 0) (Fin pool)
                  (conservation_ratio result)) (warnings result)))
    /\ (pool == 0 -> conservation_ratio result = Fin 1).
Proof.
  intros Hnodes Hpool Hrate. unfold allocateCohorts, prepare.
  rewrite Hnodes.
  destruct (select_base_pool config assumptions) as [[pool source] w0].
  cbn [fst] in Hpool. unfold throwIfInvalid. rewrite Hpool, Hrate.
  cbn [bind unique_values fold_left dimension_shares unique_paths
       allocate_paths].
  apply validatePopulation_valid_iff in Hpool as (p & -> & Hp & _).
  apply validateRate_valid in Hrate as (r & -> & Hr).
  cbn [JS.mul JS.lift2]. unfold conservation.
  cbn [map JS.sum_of fold_left prep_treated_pool].
  assert (Hshape : forall ratio w,
            (0 < p * r ->
             ratio ~= Fin 0
             /\ (share_sum_tolerance (validation config) < 1 ->
                 In (ConservationCheck (Fin 0) (Fin (p * r)) ratio) w)) ->
            (p * r == 0 -> ratio = Fin 1) ->
            forall pw,
            exists result pool,
              Ok {| base_pool := Fin p; base_pool_source := source;
                    treated_pool := Fin (p * r); leaf_cohorts := [];
                    total_allocated := Fin 0;
                    share_traces :=
                      {| trace_subtype_shares := None;
                         trace_setting_shares := None;
                         trace_line_shares := None |};
                    conservation_ratio := ratio;
                    warnings := (pw ++ w)%list |} = Ok result
              /\ leaf_cohorts result = []
              /\ total_allocated result = Fin 0
              /\ treated_pool result = Fin pool
              /\ 0 <= pool
              /\ (0 < pool ->
                  conservation_ratio result ~= Fin 0
                  /\ (share_sum_tolerance (validation config) < 1 ->
                      In (ConservationCheck (Fin 0) (Fin pool)
                            (conservation_ratio result)) (warnings result)))
              /\ (pool == 0 -> conservation_ratio result = Fin 1)).
  { intros ratio w H1 H2 pw. eexists. exists (p * r).
    split; [reflexivity|].
    cbn [leaf_cohorts total_allocated treated_pool conservation_ratio
         warnings].
    repeat (split; [reflexivity|]). split; [nra|]. split; [|exact H2].
    intro Hpos. destruct (H1 Hpos) as [Hr0 Hw]. split; [exact Hr0|].
    intro Htol. apply in_app_iff. right. exact (Hw Htol). }
  destruct (JS.gt (Fin (p * r)) (Fin 0)) eqn:G; order_facts.
  - rewrite div_Fin by lra. cbn [JS.sub JS.abs JS.lift2].
    assert (Hq : 0 / (p * r) == 0) by (unfold Qdiv; ring).
    assert (Habs : Qabs (0 / (p * r) - 1) == 1).
    { rewrite Hq. reflexivity. }
    destruct (JS.gt _ (Fin (share_sum_tolerance (validation config)))) eqn:W;
      order_facts; apply Hshape; try (intro; exfalso; lra); intros _;
      (split; [exact Hq|]); intro Htol.
    + left. reflexivity.
    + exfalso. rewrite Habs in W. lra.
  - destruct (JS.gt _ (Fin (share_sum_tolerance (validation config))));
      apply Hshape; try (intro; exfalso; lra); intros _; reflexivity.
Qed.

Lemma allocateCohorts_empty_taxonomy_witness :
  exists result pool,
    allocateCohorts (map_of []) plain_assumptions DEFAULT_ALLOCATION_CONFIG
    = Ok result
    /\ leaf_cohorts result = []
    /\ total_allocated result = Fin 0
    /\ treated_pool result = Fin pool
    /\ 0 <= pool
    /\ (0 < pool ->
        conservation_ratio result ~= Fin 0
        /\ (share_sum_tolerance (validation DEFAULT_ALLOCATION_CONFIG) < 1 ->
            In (ConservationCheck (Fin 0) (Fin pool)
                  (conservation_ratio result)) (warnings result)))
    /\ (pool == 0 -> conservation_ratio result = Fin 1).
Proof.
  apply (allocateCohorts_empty_taxonomy (map_of []) plain_assumptions
           DEFAULT_ALLOCATION_CONFIG); reflexivity.
Defined.

(** *** The paths of the taxonomy *)

(** What adding a node does to [unique_paths]. *)
Lemma add_path_cases (paths : JS.Record_ PathInfo)
  (node : Types.TreatmentNode) :
  let key := path_key (node_path node) in
  match JS.get key paths with
  | Some p =>
      add_path paths node
      = if JS.includes (Types.regimen_key node) (regimen_keys p) then paths
        else JS.put key
               {| path_subtype_key := path_subtype_key p;
                  path_setting_key := path_setting_key p;
                  path_line_key := path_line_key p;
                  regimen_keys :=
                    (regimen_keys p ++ [Types.regimen_key node])%list |} paths
  | None =>
      add_path paths node
      = (paths
         ++ [(key, {| path_subtype_key := Types.subtype_key node;
                      path_setting_key := Types.setting_key node;
                      path_line_key := Types.line_key node;
                      regimen_keys := [Types.regimen_key node] |})])%list
  end.
Proof.
  cbv zeta. unfold add_path, path_key, node_path.
  cbn [subtype_key setting_key line_key].
  destruct (JS.get _ paths) as [p|] eqn:E.
  - rewrite E. reflexivity.
  - rewrite (get_app_None _ _ _ E). cbn [JS.get].
    rewrite String.eqb_refl. cbn [regimen_keys JS.includes existsb].
    rewrite (put_app_None _ _ _ _ E). cbn [JS.put].
    rewrite String.eqb_refl. reflexivity.
Qed.

Lemma paths_of_nil : paths_of [] [].
Proof.
  split; try constructor; intros; contradiction.
Qed.

Lemma paths_of_add (seen : list Types.TreatmentNode)
  (paths : JS.Record_ PathInfo) (node : Types.TreatmentNode) :
  paths_of seen paths -> paths_of (node :: seen) (add_path paths node).
Proof.
  intros [Hd Hn Hr Hf Hc].
  pose proof (add_path_cases paths node) as Hadd. cbv zeta in Hadd.
  set (key := path_key (node_path node)) in *.
  assert (Hold : forall k info,
            In (k, info) paths ->
            (exists n, In n (node :: seen)
                       /\ entry_path info (Types.regimen_key n) = node_path n)
            /\ forall r, In r (regimen_keys info) ->
                 exists n, In n (node :: seen)
                           /\ leaf_key (node_path n) = (k, r)).
  { intros k info Hin. destruct (Hf k info Hin) as [(n & Hn1 & Hn2) Hregs].
    split; [exists n; split; [right; exact Hn1|exact Hn2]|].
    intros r Hr'. destruct (Hregs r Hr') as (n' & H1 & H2).
    exists n'. split; [right; exact H1|exact H2]. }
  destruct (JS.get key paths) as [p|] eqn:E.
  - destruct (JS.includes (Types.regimen_key node) (regimen_keys p)) eqn:Einc;
      rewrite Hadd.
    + split; try assumption.
      intros n [<-|Hin].
      * exists p. split; [apply get_In_entry, E|apply includes_In, Einc].
      * apply Hc, Hin.
    + set (p' := {| path_subtype_key := path_subtype_key p;
                    path_setting_key := path_setting_key p;
                    path_line_key := path_line_key p;
                    regimen_keys :=
                      (regimen_keys p ++ [Types.regimen_key node])%list |}).
      assert (Hp : In (key, p) paths) by (apply get_In_entry, E).
      split.
      * rewrite (put_keys _ _ _ _ E). exact Hd.
      * apply Forall_forall. intros e He.
        apply put_entries in He as [->|He];
          [|rewrite Forall_forall in Hn; exact (Hn e He)].
        rewrite Forall_forall in Hn. exact (Hn _ Hp).
      * apply Forall_forall. intros e He.
        apply put_entries in He as [->|He];
          [|rewrite Forall_forall in Hr; exact (Hr e He)].
        cbn [snd p' regimen_keys]. rewrite Forall_forall in Hr.
        pose proof (Hr _ Hp) as Hnd. cbn [snd] in Hnd.
        apply NoDup_app; [exact Hnd|repeat constructor; intros []|].
        intros x Hx [<-|[]]. apply includes_In in Hx. congruence.
      * intros k info Hin. apply put_entries in Hin as [Hin|Hin];
          [|exact (Hold k info Hin)].
        injection Hin as -> ->. destruct (Hold key p Hp) as [H1 H2].
        split; [exact H1|]. intros r Hr'. cbn [p' regimen_keys] in Hr'.
        apply in_app_iff in Hr' as [Hr'|[<-|[]]]; [exact (H2 r Hr')|].
        exists node. split; [left; reflexivity|reflexivity].
      * intros n [<-|Hin].
        -- exists p'. split; [apply put_holds|].
           cbn [p' regimen_keys]. apply in_app_iff. right. left. reflexivity.
        -- destruct (Hc n Hin) as (info & H1 & H2).
           destruct (string_dec (path_key (node_path n)) key) as [Ek|Ek].
           ++ rewrite Ek in *. rewrite (In_get _ _ _ Hd H1) in E.
              injection E as ->. exists p'. split; [apply put_holds|].
              cbn [p' regimen_keys]. apply in_app_iff. left. exact H2.
           ++ exists info. split; [|exact H2]. apply put_keeps; assumption.
  - rewrite Hadd. split.
    + unfold JS.keys. rewrite map_app. cbn [map fst].
      apply NoDup_app; [exact Hd|repeat constructor; intros []|].
      intros x Hx [<-|[]]. apply get_None_keys in E. contradiction.
    + apply Forall_app. split; [exact Hn|]. repeat constructor.
    + apply Forall_app. split; [exact Hr|]. constructor; [|constructor].
      cbn [snd regimen_keys]. repeat constructor. intros [].
    + intros k info Hin. apply in_app_iff in Hin as [Hin|[Hin|[]]];
        [exact (Hold k info Hin)|].
      injection Hin as <- <-. split.
      * exists node. split; [left; reflexivity|reflexivity].
      * cbn [regimen_keys]. intros r [<-|[]].
        exists node. split; [left; reflexivity|reflexivity].
    + intros n [<-|Hin].
      * eexists. split; [apply in_app_iff; right; left; reflexivity|].
        left. reflexivity.
      * destruct (Hc n Hin) as (info & H1 & H2). exists info.
        split; [apply in_app_iff; left; exact H1|exact H2].
Qed.

Lemma paths_of_fold (nodes seen : list Types.TreatmentNode)
  (paths : JS.Record_ PathInfo) :
  paths_of seen paths ->
  paths_of (rev nodes ++ seen)%list (fold_left add_path nodes paths).
Proof.
  revert seen paths. induction nodes as [|n ns IH]; intros seen paths H;
    [exact H|].
  cbn [fold_left rev]. rewrite <- app_assoc. cbn [app].
  apply IH, paths_of_add, H.
Qed.

Lemma paths_of_seen_ext (seen seen' : list Types.TreatmentNode)
  (paths : JS.Record_ PathInfo) :
  (forall n, In n seen <-> In n seen') ->
  paths_of seen paths -> paths_of seen' paths.
Proof.
  intros Hext [Hd Hn Hr Hf Hc]. split; try assumption.
  - intros k info Hin. destruct (Hf k info Hin) as [(n & H1 & H2) H3].
    split; [exists n; split; [apply Hext, H1|exact H2]|].
    intros r Hr'. destruct (H3 r Hr') as (n' & H4 & H5).
    exists n'. split; [apply Hext, H4|exact H5].
  - intros n Hin. apply Hc, Hext, Hin.
Qed.

Lemma unique_paths_of (nodes : list Types.TreatmentNode) :
  paths_of nodes (unique_paths nodes).
Proof.
  apply (paths_of_seen_ext (rev nodes ++ [])%list).
  - intro n. rewrite app_nil_r, <- in_rev. reflexivity.
  - apply paths_of_fold, paths_of_nil.
Qed.

Lemma path_leaves_paths (assumptions : Types.Assumptions)
  (config : CohortAllocationConfig) (prep : Prepared)
  (entry : string * PathInfo) :
  map path (path_leaves assumptions config prep entry)
  = map (entry_path (snd entry)) (regimen_keys (snd entry)).
Proof.
  unfold path_leaves. destruct (path_population prep (snd entry)) as [p tr].
  destruct (build_path_regimen_shares _ _ _ _) as [shares tr'].
  rewrite map_map. reflexivity.
Qed.

Lemma leaves_paths (assumptions : Types.Assumptions)
  (config : CohortAllocationConfig) (prep : Prepared)
  (paths : JS.Record_ PathInfo) :
  map path (flat_map (path_leaves assumptions config prep) paths)
  = flat_map (fun e => map (entry_path (snd e)) (regimen_keys (snd e))) paths.
Proof.
  induction paths as [|e rest IH]; [reflexivity|]. cbn [flat_map].
  rewrite map_app, path_leaves_paths, IH. reflexivity.
Qed.

Lemma leaf_keys_of_paths (paths : JS.Record_ PathInfo) :
  Forall key_names_path paths ->
  map leaf_key
    (flat_map (fun e => map (entry_path (snd e)) (regimen_keys (snd e))) paths)
  = flat_map (fun e => map (pair (fst e)) (regimen_keys (snd e))) paths.
Proof.
  induction 1 as [|e rest He _ IH]; [reflexivity|]. cbn [flat_map].
  rewrite map_app, IH, map_map. f_equal. apply map_ext. intro r.
  unfold leaf_key, path_key, entry_path.
  cbn [subtype_key setting_key line_key regimen_key].
  unfold key_names_path in He. rewrite <- He. reflexivity.
Qed.

Lemma entries_distinct (paths : JS.Record_ PathInfo) :
  NoDup (JS.keys paths) ->
  Forall (fun e => NoDup (regimen_keys (snd e))) paths ->
  NoDup (flat_map (fun e => map (pair (fst e)) (regimen_keys (snd e))) paths).
Proof.
  intros Hk Hr. induction Hr as [|[k info] rest He _ IH]; [constructor|].
  cbn [flat_map fst snd]. cbn [JS.keys map fst] in Hk.
  apply NoDup_cons_iff in Hk as [Hk Hrest].
  apply NoDup_app.
  - apply Finite.Injective_map_NoDup; [|exact He].
    intros x y E. injection E as ->. reflexivity.
  - apply IH, Hrest.
  - intros [k' r] H1 H2. apply in_map_iff in H1 as (r' & E & _).
    injection E as <- _. apply in_flat_map in H2 as ([k2 i2] & Hin & H2).
    apply in_map_iff in H2 as (r2 & E2 & _). cbn [fst] in E2.
    injection E2 as -> _. apply Hk. apply (in_map fst) in Hin. exact Hin.
Qed.

(** X10. The leaf cohorts of a successful allocation are the pairs of path
    key and regimen of the treatment nodes, each once: no two leaf cohorts
    have the same path key and regimen (nor the same path), every node's
    pair has a cohort and every cohort's pair is that of a node. *)
Theorem leaf_cohorts_are_the_paths (treatment_map : Types.TreatmentMap)
  (assumptions : Types.Assumptions) (config : CohortAllocationConfig)
  (result : CohortAllocationResult) :
  allocateCohorts treatment_map assumptions config = Ok result ->
  let keys := map (fun leaf => leaf_key (path leaf)) (leaf_cohorts result) in
  NoDup keys
  /\ (forall key,
        In key keys
        <-> exists node, In node (Types.nodes treatment_map)
                         /\ leaf_key (node_path node) = key)
  /\ NoDup (map path (leaf_cohorts result)).
Proof.
  intros Hrun keys.
  destruct (allocateCohorts_inv _ _ _ _ Hrun) as (prep & _ & Eleaves & _).
  destruct (unique_paths_of (Types.nodes treatment_map))
    as [Hd Hn Hr Hf Hc].
  assert (Ekeys : keys
                  = flat_map (fun e => map (pair (fst e))
                                         (regimen_keys (snd e)))
                      (unique_paths (Types.nodes treatment_map))).
  { unfold keys. rewrite <- (map_map path leaf_key), Eleaves, leaves_paths.
    apply leaf_keys_of_paths, Hn. }
  assert (Hnd : NoDup keys) by (rewrite Ekeys; apply entries_distinct; auto).
  split; [exact Hnd|]. split.
  - intros [k r]. rewrite Ekeys, in_flat_map. split.
    + intros ([k' info] & Hin & H). cbn [fst snd] in H.
      apply in_map_iff in H as (r' & E & Hr'). injection E as -> ->.
      exact (proj2 (Hf k info Hin) r Hr').
    + intros (node & Hin & E). destruct (Hc node Hin) as (info & H1 & H2).
      exists (path_key (node_path node), info). split; [exact H1|].
      cbn [fst snd]. rewrite <- E. unfold leaf_key.
      apply in_map_iff. exists (Types.regimen_key node). split; [|exact H2].
      reflexivity.
  - unfold keys in Hnd. rewrite <- (map_map path leaf_key) in Hnd.
    apply NoDup_map_inv in Hnd. exact Hnd.
Qed.

Lemma leaf_cohorts_are_the_paths_witness :
  let keys :=
    map (fun leaf => leaf_key (path leaf))
      (leaf_cohorts settings_example_result) in
  NoDup keys
  /\ (forall key,
        In key keys
        <-> exists node, In node (Types.nodes settings_example_map)
                         /\ leaf_key (node_path node) = key)
  /\ NoDup (map path (leaf_cohorts settings_example_result)).
Proof.
  apply (leaf_cohorts_are_the_paths settings_example_map
           settings_example_assumptions DEFAULT_ALLOCATION_CONFIG
           settings_example_result).
  vm_compute. reflexivity.
Defined.

Lemma path_leaves_In (assumptions : Types.Assumptions)
  (config : CohortAllocationConfig) (prep : Prepared)
  (paths : JS.Record_ PathInfo) (leaf : LeafCohort) :
  In leaf (flat_map (path_leaves assumptions config prep) paths) ->
  exists info shares population tr regimen,
    leaf = make_leaf assumptions info shares population tr regimen.
Proof.
  intro H. apply in_flat_map in H as ([k info] & _ & H).
  unfold path_leaves in H. cbn [snd fst] in H.
  destruct (path_population prep info) as [p tr].
  destruct (build_path_regimen_shares _ _ _ _) as [shares tr'].
  apply in_map_iff in H as (r & <- & _). eauto 6.
Qed.

(** X11. The patient-years of every leaf cohort of a successful allocation
    are its patients times months/12, months being the entry of
    [time_on_treatment_months] for the cohort's line, when the line is not
    empty and the entry is a number other than 0.  With an entry of 0 or
    NaN, without an entry, or on a path without a line, the patient-years
    are the patients themselves. *)
Theorem leaf_patient_years (treatment_map : Types.TreatmentMap)
  (assumptions : Types.Assumptions) (config : CohortAllocationConfig)
  (result : CohortAllocationResult) :
  allocateCohorts treatment_map assumptions config = Ok result ->
  Forall (patient_years_follow_months assumptions) (leaf_cohorts result).
Proof.
  intro Hrun. apply Forall_forall. intros leaf Hin.
  destruct (allocateCohorts_inv _ _ _ _ Hrun) as (prep & _ & Eleaves & _).
  rewrite Eleaves in Hin.
  apply path_leaves_In in Hin as (info & shares & p & tr & r & ->).
  unfold patient_years_follow_months, make_leaf, time_on_treatment.
  cbn [path line_key patient_years patients].
  split; [|split].
  - intros line months m -> Hne -> Hget Hm. rewrite Hget.
    destruct line as [|c line]; [congruence|]. cbn [JS.truthy_str JS.truthy].
    destruct (Qeq_bool m 0) eqn:E;
      [apply Qeq_bool_iff in E; contradiction|].
    cbn [negb]. rewrite div_Fin by lra. reflexivity.
  - intros line months m -> -> Hget Hm. rewrite Hget.
    destruct (JS.truthy_str (Some line)); [|reflexivity].
    cbn [JS.truthy]. apply Qeq_bool_iff in Hm. rewrite Hm. reflexivity.
  - intros [->|[->|[->|(line & months & -> & -> & [->| ->])]]].
    + reflexivity.
    + destruct (Types.time_on_treatment_months assumptions); reflexivity.
    + destruct (path_line_key info); reflexivity.
    + destruct (JS.truthy_str (Some line)); reflexivity.
    + destruct (JS.truthy_str (Some line)); reflexivity.
Qed.

Lemma leaf_patient_years_witness :
  Forall (patient_years_follow_months months_example_assumptions)
    (leaf_cohorts months_example_result).
Proof.
  apply (leaf_patient_years settings_example_map months_example_assumptions
           DEFAULT_ALLOCATION_CONFIG months_example_result).
  vm_compute. reflexivity.
Defined.



(** *** Cohorts of the nodes *)

Lemma opt_str_eq_refl (a : option string) : JS.opt_str_eq a a = true.
Proof. destruct a; [apply String.eqb_refl|reflexivity]. Qed.

Lemma opt_str_eq_eq (a b : option string) :
  JS.opt_str_eq a b = true -> a = b.
Proof.
  destruct a, b; cbn; try discriminate; [|reflexivity].
  intro H. apply String.eqb_eq in H. congruence.
Qed.

Lemma matching_cohort_found (leaves : list LeafCohort)
  (node : Types.TreatmentNode) :
  In (node_path node) (map path leaves) ->
  exists cohort, matching_cohort leaves node = Some cohort
                 /\ In cohort leaves /\ path cohort = node_path node.
Proof.
  intro Hin. apply in_map_iff in Hin as (leaf & E & Hin).
  unfold matching_cohort.
  match goal with
  | |- context [find ?f leaves] =>
      destruct (find_first f leaf leaves Hin) as (c & Ec & Hc)
  end.
  { rewrite E. cbn [node_path subtype_key setting_key line_key regimen_key].
    rewrite !opt_str_eq_refl, String.eqb_refl. reflexivity. }
  exists c. split; [exact Ec|]. split; [apply find_some in Ec; apply Ec|].
  apply andb_true_iff in Hc as [Hc H4]. apply andb_true_iff in Hc as [Hc H3].
  apply andb_true_iff in Hc as [H1 H2].
  apply opt_str_eq_eq in H1, H2, H3. apply String.eqb_eq in H4.
  destruct (path c) as [s t l r]. cbn in *. unfold node_path. congruence.
Qed.

Lemma map_nodes_other (leaves : list LeafCohort)
  (nodes : list Types.TreatmentNode) (m : JS.Record_ LeafCohort)
  (id : string) :
  ~ In id (map Types.node_id nodes) ->
  JS.get id
    (fold_left (fun m node =>
                  match matching_cohort leaves node with
                  | Some c => JS.put (Types.node_id node) c m
                  | None => m
                  end) nodes m)
  = JS.get id m.
Proof.
  revert m. induction nodes as [|n ns IH]; intros m Hid; [reflexivity|].
  cbn [fold_left]. cbn [map In] in Hid. rewrite IH by tauto.
  destruct (matching_cohort leaves n); [|reflexivity].
  apply get_put_other. intro E. apply Hid. left. congruence.
Qed.

(** With distinct node ids, the node map holds for each node the cohort
    found for it. *)
Lemma mapCohortsToNodes_get (leaves : list LeafCohort)
  (treatment_map : Types.TreatmentMap) (node : Types.TreatmentNode) :
  NoDup (map Types.node_id (Types.nodes treatment_map)) ->
  In node (Types.nodes treatment_map) ->
  JS.get (Types.node_id node) (mapCohortsToNodes leaves treatment_map)
  = matching_cohort leaves node.
Proof.
  unfold mapCohortsToNodes. intros Hnd Hin.
  assert (H : forall m,
            JS.get (Types.node_id node)
              (fold_left (fun m node =>
                            match matching_cohort leaves node with
                            | Some c => JS.put (Types.node_id node) c m
                            | None => m
                            end) (Types.nodes treatment_map) m)
            = match matching_cohort leaves node with
              | Some c => Some c
              | None => JS.get (Types.node_id node) m
              end).
  { induction (Types.nodes treatment_map) as [|n ns IH]; intro m;
      [contradiction|].
    cbn [map] in Hnd. apply NoDup_cons_iff in Hnd as [Hn Hns].
    cbn [fold_left]. destruct Hin as [->|Hin].
    - rewrite map_nodes_other by exact Hn.
      destruct (matching_cohort leaves node) eqn:E; [|reflexivity].
      apply get_put_same.
    - rewrite (IH Hns Hin).
      destruct (matching_cohort leaves node) eqn:E; [reflexivity|].
      destruct (matching_cohort leaves n); [|reflexivity].
      apply get_put_other. intro E'. apply Hn. rewrite <- E'.
      apply in_map, Hin. }
  rewrite H. destruct (matching_cohort leaves node); reflexivity.
Qed.

End Paths.

(* ------------------------------------------------------------------ *)
(** ** Population nodes *)

Section Nodes.

Import Validation CohortAllocator Population.
Local Open Scope string_scope.

Lemma Forall2_map_self {A B : Type} (R : A -> B -> Prop) (f : A -> B)
  (xs : list A) :
  (forall x, In x xs -> R x (f x)) -> Forall2 R xs (map f xs).
Proof.
  induction xs as [|x xs IH]; intro H; cbn [map]; constructor.
  - apply H. left. reflexivity.
  - apply IH. intros y Hy. apply H. right. exact Hy.
Qed.

(** X13. When the dimension keys of all nodes are clean and the node ids
    distinct, [allocatePopulation] gives every treatment node, in the order
    of the taxonomy, the population node built from the leaf cohort on the
    node's own path and regimen: that cohort's patients, rounded, and its
    patient-years, rounded to two decimals. *)
Theorem allocatePopulation_covers_every_node
  (treatment_map : Types.TreatmentMap) (assumptions : Types.Assumptions)
  (config : CohortAllocationConfig) (population : PopulationAllocation) :
  Forall clean_node (Types.nodes treatment_map) ->
  NoDup (map Types.node_id (Types.nodes treatment_map)) ->
  allocatePopulation treatment_map assumptions config = Ok population ->
  exists result,
    allocateCohorts treatment_map assumptions config = Ok result
    /\ Forall2 (fun node population_node =>
                  exists cohort,
                    In cohort (leaf_cohorts result)
                    /\ path cohort = node_path node
                    /\ population_node = node_from_cohort node cohort)
         (Types.nodes treatment_map) (nodes population).
Proof.
  intros Hclean Hids. unfold allocatePopulation.
  destruct (allocateCohorts treatment_map assumptions config)
    as [result| |] eqn:Hrun; cbn [bind]; try discriminate.
  destruct (fold_left _ _ _) as [r traces]. intro H. injection H as <-.
  cbn [nodes]. exists result. split; [reflexivity|].
  destruct (allocateCohorts_inv _ _ _ _ Hrun) as (prep & _ & Eleaves & _).
  destruct (unique_paths_of (Types.nodes treatment_map))
    as [Hd Hn Hr Hf Hc].
  assert (Hleaf : forall node,
            In node (Types.nodes treatment_map) ->
            In (node_path node) (map path (leaf_cohorts result))).
  { intros node Hin. rewrite Eleaves, leaves_paths.
    destruct (Hc node Hin) as (info & H1 & H2).
    apply in_flat_map. eexists. split; [exact H1|]. cbn [snd].
    apply in_map_iff. exists (Types.regimen_key node). split; [|exact H2].
    destruct (proj1 (Hf _ _ H1)) as (n0 & Hn0 & E0).
    rewrite Forall_forall in Hn. pose proof (Hn _ H1) as Hname.
    unfold key_names_path in Hname. cbn [fst snd] in Hname.
    rewrite Forall_forall in Hclean.
    destruct (Hclean node Hin) as (C1 & C2 & C3).
    destruct (Hclean n0 Hn0) as (D1 & D2 & D3).
    unfold entry_path, node_path in E0. injection E0 as E1 E2 E3.
    rewrite E1, E2, E3 in Hname. unfold path_key, node_path in Hname.
    cbn [subtype_key setting_key line_key] in Hname.
    unfold buildPathKey in Hname.
    apply bar_split in Hname as [K1 Hname];
      try (apply str_or_clean; assumption).
    apply bar_split in Hname as [K2 K3];
      try (apply str_or_clean; assumption).
    apply str_or_injective in K1, K2, K3; try assumption.
    unfold entry_path, node_path. congruence. }
  apply Forall2_map_self. intros n Hin.
  destruct (matching_cohort_found _ n (Hleaf n Hin))
    as (c & Ec & Hc' & Hpath).
  exists c. split; [exact Hc'|]. split; [exact Hpath|].
  unfold population_node.
  rewrite (mapCohortsToNodes_get _ _ n Hids Hin), Ec. reflexivity.
Qed.

Lemma allocatePopulation_covers_every_node_witness :
  exists population result,
    allocatePopulation settings_example_map settings_example_assumptions
      DEFAULT_ALLOCATION_CONFIG = Ok population
    /\ allocateCohorts settings_example_map settings_example_assumptions
         DEFAULT_ALLOCATION_CONFIG = Ok result
    /\ Forall2 (fun node population_node =>
                  exists cohort,
                    In cohort (leaf_cohorts result)
                    /\ path cohort = node_path node
                    /\ population_node = node_from_cohort node cohort)
         (Types.nodes settings_example_map) (nodes population).
Proof.
  destruct (allocatePopulation settings_example_map
              settings_example_assumptions DEFAULT_ALLOCATION_CONFIG)
    as [population| |] eqn:E;
    [|vm_compute in E; discriminate E|vm_compute in E; discriminate E].
  exists population.
  destruct (allocatePopulation_covers_every_node settings_example_map
              settings_example_assumptions DEFAULT_ALLOCATION_CONFIG
              population) as (result & Hrun & Hnodes).
  - repeat (apply Forall_cons || apply Forall_nil);
      (split; [|split]); (split; [discriminate|split; [discriminate|]]);
      reflexivity.
  - cbn. repeat constructor; cbn; intuition discriminate.
  - exact E.
  - exists result. split; [reflexivity|]. split; [exact Hrun|exact Hnodes].
Defined.

(** One step of a roll-up, as [accumulate] takes it. *)
Lemma accumulate_rollups (m : JS.Record_ LeafCohort)
  (nodes : list Types.TreatmentNode) (r : Rollups)
  (traces : JS.Record_ (list AllocationTrace)) :
  let step (key_of : Types.TreatmentNode -> option string)
        (rollup : JS.Record_ number) (node : Types.TreatmentNode) :=
    match JS.get (Types.node_id node) m with
    | Some cohort => roll (key_of node) (patients cohort) rollup
    | None => rollup
    end in
  let final := fst (fold_left (accumulate m) nodes (r, traces)) in
  by_subtype final = fold_left (step Types.subtype_key) nodes (by_subtype r)
  /\ by_setting final = fold_left (step Types.setting_key) nodes (by_setting r)
  /\ by_line final = fold_left (step Types.line_key) nodes (by_line r).
Proof.
  cbv zeta. revert r traces.
  induction nodes as [|n ns IH]; intros r traces; cbn [fold_left].
  - auto.
  - unfold accumulate at 2 4 6.
    destruct (JS.get (Types.node_id n) m) as [c|]; apply IH.
Qed.

Lemma roll_other (key : option string) (p : number)
  (rollup : JS.Record_ number) (k : string) :
  JS.opt_str_eq key (Some k) = false \/ k = EmptyString ->
  JS.get k (roll key p rollup) = JS.get k rollup.
Proof.
  intro H. unfold roll. destruct key as [k'|]; [|reflexivity].
  destruct k' as [|c k']; [reflexivity|]. cbn [JS.truthy_str].
  apply get_put_other. destruct H as [H| ->]; [|discriminate].
  cbn [JS.opt_str_eq] in H. apply String.eqb_neq in H. congruence.
Qed.

Lemma roll_same (p : number) (rollup : JS.Record_ number) (k : string) :
  k <> EmptyString ->
  JS.get k (roll (Some k) p rollup)
  = Some (JS.add (JS.or_default (JS.get k rollup) (Fin 0)) p).
Proof.
  intro Hk. unfold roll. destruct k as [|c k]; [congruence|].
  cbn [JS.truthy_str]. apply get_put_same.
Qed.

Lemma rollup_step (m : JS.Record_ LeafCohort)
  (key_of : Types.TreatmentNode -> option string)
  (rollup : JS.Record_ number) (k : string) (added : list number)
  (node : Types.TreatmentNode) :
  k <> EmptyString ->
  (forall cohort, JS.get (Types.node_id node) m = Some cohort ->
                  finite (patients cohort)) ->
  rollup_entry rollup k added ->
  rollup_entry
    match JS.get (Types.node_id node) m with
    | Some cohort => roll (key_of node) (patients cohort) rollup
    | None => rollup
    end k (added ++ rolled_up m key_of [node] k)%list.
Proof.
  intros Hk Hfin Hentry. unfold rolled_up. cbn [flat_map].
  destruct (JS.get (Types.node_id node) m) as [c|];
    [|rewrite !app_nil_r; exact Hentry].
  destruct (Hfin c eq_refl) as [q Eq]. rewrite app_nil_r.
  destruct (JS.opt_str_eq (key_of node) (Some k)) eqn:E.
  - apply opt_str_eq_eq in E. rewrite E, Eq.
    right. split; [destruct added; discriminate|].
    assert (Hsum : Qsum (map valQ (added ++ [Fin q]))
                   == Qsum (map valQ added) + q).
    { rewrite map_app, Qsum_app. cbn. ring. }
    rewrite roll_same by exact Hk.
    destruct Hentry as [[-> Hget]|(_ & x & Hget & Hx)]; rewrite Hget.
    + cbn [JS.or_default JS.add JS.lift2]. eexists. split; [reflexivity|].
      cbn. ring.
    + cbn [JS.or_default JS.truthy].
      destruct (Qeq_bool x 0) eqn:E0; cbn [negb JS.add JS.lift2];
        eexists; (split; [reflexivity|]); rewrite Hsum, <- Hx; [|ring].
      apply Qeq_bool_iff in E0. rewrite E0. ring.
  - rewrite app_nil_r.
    destruct Hentry as [[-> Hget]|(Hne & x & Hget & Hx)].
    + left. split; [reflexivity|]. rewrite roll_other by (left; exact E).
      exact Hget.
    + right. split; [exact Hne|]. exists x.
      rewrite roll_other by (left; exact E). auto.
Qed.

Lemma rolled_up_cons (m : JS.Record_ LeafCohort)
  (key_of : Types.TreatmentNode -> option string)
  (node : Types.TreatmentNode) (nodes : list Types.TreatmentNode)
  (k : string) :
  rolled_up m key_of (node :: nodes) k
  = (rolled_up m key_of [node] k ++ rolled_up m key_of nodes k)%list.
Proof.
  unfold rolled_up. cbn [flat_map]. rewrite app_nil_r. reflexivity.
Qed.

Lemma rollup_fold (m : JS.Record_ LeafCohort)
  (key_of : Types.TreatmentNode -> option string) (k : string)
  (nodes : list Types.TreatmentNode) (rollup : JS.Record_ number)
  (added : list number) :
  k <> EmptyString ->
  (forall node cohort, JS.get (Types.node_id node) m = Some cohort ->
                       finite (patients cohort)) ->
  rollup_entry rollup k added ->
  rollup_entry
    (fold_left (fun r node =>
                  match JS.get (Types.node_id node) m with
                  | Some cohort => roll (key_of node) (patients cohort) r
                  | None => r
                  end) nodes rollup)
    k (added ++ rolled_up m key_of nodes k)%list.
Proof.
  intros Hk Hfin. revert rollup added.
  induction nodes as [|n ns IH]; intros rollup added Hentry.
  - cbn [fold_left]. unfold rolled_up. cbn [flat_map]. rewrite app_nil_r.
    exact Hentry.
  - cbn [fold_left]. rewrite rolled_up_cons, app_assoc. apply IH.
    apply rollup_step; [exact Hk|apply Hfin|exact Hentry].
Qed.

(** Every cohort of the node map is a leaf cohort. *)
Lemma mapCohortsToNodes_leaves (leaves : list LeafCohort)
  (treatment_map : Types.TreatmentMap) (id : string) (cohort : LeafCohort) :
  JS.get id (mapCohortsToNodes leaves treatment_map) = Some cohort ->
  In cohort leaves.
Proof.
  intro H. apply get_In_entry in H. revert H. unfold mapCohortsToNodes.
  assert (Hinv : forall treatment_nodes m,
            Forall (fun e => In (snd e) leaves) m ->
            Forall (fun e => In (snd e) leaves)
              (fold_left (fun m node =>
                            match matching_cohort leaves node with
                            | Some c => JS.put (Types.node_id node) c m
                            | None => m
                            end) treatment_nodes m)).
  { induction treatment_nodes as [|n ns IH]; intros m Hm; [exact Hm|].
    cbn [fold_left]. apply IH.
    destruct (matching_cohort leaves n) as [c|] eqn:Ec; [|exact Hm].
    apply Forall_forall. intros e He. apply put_entries in He as [->|He].
    - cbn [snd]. unfold matching_cohort in Ec. apply find_some in Ec.
      exact (proj1 Ec).
    - rewrite Forall_forall in Hm. exact (Hm e He). }
  intro H. specialize (Hinv (Types.nodes treatment_map) [] (Forall_nil _)).
  rewrite Forall_forall in Hinv. exact (Hinv _ H).
Qed.

(** X14. The roll-ups of [allocatePopulation] by subtype, setting and line
    hold, for each key that is not empty, the sum of the cohort patients
    of the nodes with that key that were given a cohort, a cohort shared
    by several nodes counting once for each; a key no such node has gets
    no entry.  This holds when the patients of all leaf cohorts are
    finite. *)
Theorem allocatePopulation_rollups (treatment_map : Types.TreatmentMap)
  (assumptions : Types.Assumptions) (config : CohortAllocationConfig)
  (population : PopulationAllocation) :
  allocatePopulation treatment_map assumptions config = Ok population ->
  exists result,
    allocateCohorts treatment_map assumptions config = Ok result
    /\ (Forall (fun leaf => finite (patients leaf)) (leaf_cohorts result) ->
        forall k, k <> EmptyString ->
          let cohorts :=
            mapCohortsToNodes (leaf_cohorts result) treatment_map in
          let nodes := Types.nodes treatment_map in
          rollup_entry (by_subtype (rollups population)) k
            (rolled_up cohorts Types.subtype_key nodes k)
          /\ rollup_entry (by_setting (rollups population)) k
               (rolled_up cohorts Types.setting_key nodes k)
          /\ rollup_entry (by_line (rollups population)) k
               (rolled_up cohorts Types.line_key nodes k)).
Proof.
  unfold allocatePopulation.
  destruct (allocateCohorts treatment_map assumptions config)
    as [result| |] eqn:Hrun; cbn [bind]; try discriminate.
  pose proof (accumulate_rollups
                (mapCohortsToNodes (leaf_cohorts result) treatment_map)
                (Types.nodes treatment_map)
                {| by_subtype := []; by_setting := []; by_line := [] |} [])
    as Hproj. cbv zeta in Hproj.
  destruct (fold_left _ _ _) as [r traces]. cbn [fst] in Hproj.
  destruct Hproj as (Es & Et & El). cbn [by_subtype by_setting by_line] in *.
  intro H. injection H as <-. cbn [rollups].
  exists result. split; [reflexivity|]. intros Hfin k Hk. cbv zeta.
  assert (Hm : forall (node : Types.TreatmentNode) cohort,
            JS.get (Types.node_id node)
              (mapCohortsToNodes (leaf_cohorts result) treatment_map)
            = Some cohort -> finite (patients cohort)).
  { intros node cohort Hget. apply mapCohortsToNodes_leaves in Hget.
    rewrite Forall_forall in Hfin. exact (Hfin cohort Hget). }
  assert (Hempty : rollup_entry [] k []) by (left; split; reflexivity).
  rewrite Es, Et, El.
  split; [|split];
    apply (rollup_fold _ _ k (Types.nodes treatment_map) [] [] Hk Hm Hempty).
Qed.

Lemma allocatePopulation_rollups_witness :
  exists population result,
    allocatePopulation settings_example_map settings_example_assumptions
      DEFAULT_ALLOCATION_CONFIG = Ok population
    /\ allocateCohorts settings_example_map settings_example_assumptions
         DEFAULT_ALLOCATION_CONFIG = Ok result
    /\ (Forall (fun leaf => finite (patients leaf)) (leaf_cohorts result) ->
        forall k, k <> EmptyString ->
          let cohorts :=
            mapCohortsToNodes (leaf_cohorts result) settings_example_map in
          let nodes := Types.nodes settings_example_map in
          rollup_entry (by_subtype (rollups population)) k
            (rolled_up cohorts Types.subtype_key nodes k)
          /\ rollup_entry (by_setting (rollups population)) k
               (rolled_up cohorts Types.setting_key nodes k)
          /\ rollup_entry (by_line (rollups population)) k
               (rolled_up cohorts Types.line_key nodes k)).
Proof.
  destruct (allocatePopulation settings_example_map
              settings_example_assumptions DEFAULT_ALLOCATION_CONFIG)
    as [population| |] eqn:E;
    [|vm_compute in E; discriminate E|vm_compute in E; discriminate E].
  exists population.
  destruct (allocatePopulation_rollups settings_example_map
              settings_example_assumptions DEFAULT_ALLOCATION_CONFIG
              population E) as (result & Hrun & Hrollups).
  exists result. split; [reflexivity|]. split; [exact Hrun|exact Hrollups].
Defined.

End Nodes.

(* ------------------------------------------------------------------ *)
(** ** Doses, intervals and demand *)

Section Doses.

Import Regex Exposure.
Local Open Scope string_scope.

(** *** Vial rounding *)




(** *** Interval correction *)

Lemma parseInt_nonneg (s : string) : exists n, parseInt s = Fin n /\ 0 <= n.
Proof.
  unfold parseInt. eexists. split; [reflexivity|].
  change 0 with (inject_Z 0). rewrite <- Zle_Qle. lia.
Qed.

Lemma convertTodays_nonneg (value : string) (unit : string) (i : number) :
  convertTodays (parseInt value) unit = Some i ->
  exists c, i = Fin c /\ 0 <= c.
Proof.
  destruct (parseInt_nonneg value) as (n & -> & Hn). unfold convertTodays.
  repeat match goal with
         | |- context [if ?b then _ else _] => destruct b
         end; intro H; try discriminate; injection H as <-;
    cbn [JS.mul JS.lift2]; eexists; (split; [reflexivity|]); lra.
Qed.

Lemma interval_of_nonneg (m : option (list string)) (i : number) :
  interval_of m = Some i -> exists c, i = Fin c /\ 0 <= c.
Proof.
  destruct m as [[|value [|unit rest]]|]; try discriminate.
  apply convertTodays_nonneg.
Qed.

Lemma diverges_correction (limit : Q) (i declared : number) :
  1 <= limit ->
  (exists c, i = Fin c /\ 0 <= c) ->
  diverges_by limit (Some i) declared = true ->
  correction_of declared i.
Proof.
  intros Hl (c & -> & Hc). unfold diverges_by.
  destruct declared as [|d]; cbn [JS.sub JS.abs JS.lift2 JS.gt].
  - rewrite andb_false_r. discriminate.
  - intro H. apply andb_true_iff in H as [_ H]. apply gt_Fin in H.
    exists c, d. repeat split; try assumption. lra.
Qed.

Lemma or_else_cases (a b : option number) (i : number) :
  or_else a b = Some i -> a = Some i \/ b = Some i.
Proof. destruct a; simpl; auto. Qed.

Lemma corrected_interval_cases (notes : option string)
  (declared_interval : number) :
  extractMaintenanceIntervalFromNotes notes declared_interval
  = declared_interval
  \/ correction_of declared_interval
       (extractMaintenanceIntervalFromNotes notes declared_interval).
Proof.
  unfold extractMaintenanceIntervalFromNotes.
  destruct notes as [[|ch text]|]; [left; reflexivity| |left; reflexivity].
  cbv zeta.
  match goal with
  | |- (match ?steps with Some _ => _ | None => _ end = _) \/ _ =>
      destruct steps as [i|] eqn:E
  end; [right|left; reflexivity].
  repeat (apply or_else_cases in E as [E|E]).
  - destruct (diverges_by 7 _ _) eqn:D in E; [|discriminate].
    rewrite E in D. apply (diverges_correction 7); [lra| |exact D].
    eapply interval_of_nonneg, E.
  - destruct (_ || _)%bool in E; [|discriminate].
    destruct (diverges_by 7 _ _) eqn:D in E; [|discriminate].
    rewrite E in D. apply (diverges_correction 7); [lra| |exact D].
    eapply interval_of_nonneg, E.
  - destruct (_ || _)%bool in E; [|discriminate].
    destruct (interval_of _) as [j|] eqn:Ej in E; [|discriminate].
    destruct (_ && _)%bool eqn:C in E; [|discriminate].
    injection E as <-.
    apply andb_true_iff in C as [C C3]. apply andb_true_iff in C as [_ C2].
    apply interval_of_nonneg in Ej as (c & -> & Hc).
    destruct declared_interval as [|d]; [discriminate|].
    order_facts. exists c, d. repeat split; try assumption.
    rewrite Qabs_pos by lra. lra.
  - destruct (_ || _)%bool in E; [|discriminate].
    destruct (match_ q_pattern _) as [[|value [|unit_char rest]]|] in E;
      try discriminate.
    destruct (diverges_by 7 _ _) eqn:D in E; [|discriminate].
    rewrite E in D. apply (diverges_correction 7); [lra| |exact D].
    eapply convertTodays_nonneg, E.
  - destruct (match_ cycle_pattern _) as [caps|] in E; [|discriminate].
    destruct (nth_error caps 2) as [len|] in E; [|discriminate].
    destruct (parseInt_nonneg len) as (n & En & Hn). rewrite En in E.
    rewrite div_Fin in E by lra.
    destruct declared_interval as [|d]; [discriminate|].
    cbn [JS.sub JS.abs JS.lift2] in E.
    destruct (JS.gt _ _) eqn:G in E; [|discriminate]. injection E as <-.
    order_facts. exists (n / 2), d. repeat split; try assumption.
    apply Qle_shift_div_l; lra.
  - destruct (match_ cycle_pattern_3 _) as [caps|] in E; [|discriminate].
    destruct (nth_error caps 3) as [len|] in E; [|discriminate].
    destruct (parseInt_nonneg len) as (n & En & Hn). rewrite En in E.
    rewrite div_Fin in E by lra.
    destruct declared_interval as [|d]; [discriminate|].
    cbn [JS.sub JS.abs JS.lift2] in E.
    destruct (JS.gt _ _) eqn:G in E; [|discriminate]. injection E as <-.
    order_facts. exists (n / 3), d. repeat split; try assumption.
    apply Qle_shift_div_l; lra.
Qed.

(** X17. [extractMaintenanceIntervalFromNotes] returns the declared
    interval itself or a correction: a finite interval that is not
    negative and more than one day away from the declared one, which is
    then finite too (a NaN interval is never corrected).  Without notes,
    or with empty notes, it returns the declared interval.  The interval
    both dose functions go on with is its result. *)
Theorem corrected_interval_differs (notes : option string)
  (declared_interval : number) :
  let corrected :=
    extractMaintenanceIntervalFromNotes notes declared_interval in
  (corrected = declared_interval
   \/ correction_of declared_interval corrected)
  /\ (notes = None \/ notes = Some EmptyString ->
      corrected = declared_interval)
  /\ forall dose_schema,
       Types.notes dose_schema = notes ->
       Types.interval_days dose_schema = declared_interval ->
       resolved_interval dose_schema = corrected.
Proof.
  cbv zeta. split; [|split].
  - apply corrected_interval_cases.
  - intros [->| ->]; reflexivity.
  - intros schema <- <-. unfold resolved_interval. cbv zeta.
    destruct (JS.strict_eq _ _) eqn:E; cbn [negb]; [|reflexivity].
    destruct (corrected_interval_cases (Types.notes schema)
                (Types.interval_days schema))
      as [H|(c & d & Hc & Hd & _ & Hfar)]; [symmetry; exact H|].
    rewrite Hc, Hd in E. cbn in E. apply Qeq_bool_iff in E.
    rewrite E in Hfar. setoid_replace (d - d) with 0 in Hfar by ring.
    cbn in Hfar. lra.
Qed.

Lemma digit_free_lower (s : string) :
  digit_free s = true -> digit_free (JS.toLowerCase s) = true.
Proof.
  induction s as [|c s IH]; [reflexivity|]. cbn [digit_free JS.toLowerCase].
  intro H. apply andb_true_iff in H as [Hc Hs].
  rewrite (IH Hs), andb_true_r. revert Hc. clear.
  destruct c as [[] [] [] [] [] [] [] []]; vm_compute; intro H;
    first [reflexivity|exact H].
Qed.

Lemma digit_free_drop (n : nat) (s : string) :
  digit_free s = true -> digit_free (drop n s) = true.
Proof.
  revert s. induction n as [|n IH]; intros s H; [exact H|].
  destruct s as [|c s]; [reflexivity|]. cbn [drop]. apply IH.
  cbn [digit_free] in H. apply andb_true_iff in H. apply H.
Qed.

Section NoMatch.

Context {A : Type}.

Lemma many_fails (cls : ascii -> bool) (s : string)
  (k : string -> option A) :
  digit_free s = true ->
  (forall rest, digit_free rest = true -> k rest = None) ->
  many cls s k = None.
Proof.
  intros Hs Hk. induction s as [|c s IH]; cbn [many].
  - apply Hk. reflexivity.
  - assert (Hs' : digit_free s = true).
    { cbn [digit_free] in Hs. apply andb_true_iff in Hs. apply Hs. }
    destruct (cls c); [rewrite (IH Hs')|]; apply Hk, Hs.
Qed.

(** On a text without digits a match can only go on to the rest of the
    expression, on a text without digits. *)
Lemma run_fails (r : regex) (s : string) (caps : list string)
  (k : string -> list string -> option A) :
  digit_free s = true ->
  (forall rest caps', digit_free rest = true -> k rest caps' = None) ->
  run r s caps k = None.
Proof.
  revert s caps k.
  induction r as [p|cls|[|] cls|r1 IH1 r2 IH2|r1 IH1 r2 IH2|r1 IH1|r1 IH1];
    intros s caps k Hs Hk; cbn [run].
  - destruct (JS.startsWith p s); [|reflexivity].
    apply Hk, digit_free_drop, Hs.
  - destruct s as [|c s]; [reflexivity|]. destruct (cls c); [|reflexivity].
    apply Hk. cbn [digit_free] in Hs. apply andb_true_iff in Hs. apply Hs.
  - destruct s as [|c s]; [reflexivity|]. destruct (cls c); [|reflexivity].
    apply many_fails; [|intros; apply Hk; assumption].
    cbn [digit_free] in Hs. apply andb_true_iff in Hs. apply Hs.
  - apply many_fails; [exact Hs|]. intros; apply Hk; assumption.
  - apply IH1; [exact Hs|]. intros rest caps' Hrest.
    apply IH2; assumption.
  - rewrite IH1 by assumption. apply IH2; assumption.
  - rewrite IH1 by assumption. apply Hk, Hs.
  - apply IH1; [exact Hs|]. intros; apply Hk; assumption.
Qed.

Lemma run_needs_digit (r : regex) (s : string) (caps : list string)
  (k : string -> list string -> option A) :
  needs_digit r -> digit_free s = true -> run r s caps k = None.
Proof.
  intro Hr. revert s caps k.
  induction Hr as [|r _ IH|r1 r2 _ IH|r1 r2 _ IH|r1 r2 _ IH1 _ IH2];
    intros s caps k Hs; cbn [run].
  - destruct s as [|c s]; [reflexivity|].
    cbn [digit_free] in Hs. apply andb_true_iff in Hs as [Hc _].
    apply negb_true_iff in Hc. rewrite Hc. reflexivity.
  - apply IH, Hs.
  - apply IH, Hs.
  - apply run_fails; [exact Hs|]. intros rest caps' Hrest. apply IH, Hrest.
  - rewrite IH1 by exact Hs. apply IH2, Hs.
Qed.

End NoMatch.

Lemma match_needs_digit (r : regex) (s : string) :
  needs_digit r -> digit_free s = true -> match_ r s = None.
Proof.
  intros Hr. induction s as [|c s IH]; intro Hs; cbn [match_];
    rewrite (run_needs_digit r _ [] _ Hr Hs); [reflexivity|].
  apply IH. cbn [digit_free] in Hs. apply andb_true_iff in Hs. apply Hs.
Qed.

Lemma patterns_need_digit :
  needs_digit maintenance_pattern /\ needs_digit then_every_pattern
  /\ needs_digit every_pattern /\ needs_digit q_pattern
  /\ needs_digit cycle_pattern /\ needs_digit cycle_pattern_3.
Proof.
  unfold maintenance_pattern, then_every_pattern, every_pattern, q_pattern,
    cycle_pattern, cycle_pattern_3, cycle_tail, digits.
  cbn [seq app].
  repeat split;
    repeat first [apply needs_digit_first, needs_digit_group, needs_digit_run
                 |apply needs_digit_second].
Qed.

(** X18. Notes without a decimal digit never change the interval. *)
Theorem notes_without_digits_keep_interval (notes : string)
  (declared_interval : number) :
  digit_free notes = true ->
  extractMaintenanceIntervalFromNotes (Some notes) declared_interval
  = declared_interval.
Proof.
  intro Hfree. apply digit_free_lower in Hfree.
  destruct patterns_need_digit as (H1 & H2 & H3 & H4 & H5 & H6).
  unfold extractMaintenanceIntervalFromNotes.
  destruct notes as [|c text]; [reflexivity|]. cbv zeta.
  rewrite (match_needs_digit _ _ H1 Hfree), (match_needs_digit _ _ H2 Hfree),
    (match_needs_digit _ _ H3 Hfree), (match_needs_digit _ _ H4 Hfree),
    (match_needs_digit _ _ H5 Hfree), (match_needs_digit _ _ H6 Hfree).
  cbn [interval_of diverges_by or_else].
  destruct (_ || _)%bool; reflexivity.
Qed.

Lemma notes_without_digits_keep_interval_witness :
  extractMaintenanceIntervalFromNotes
    (Some "Loading doses, then maintenance every month") (Fin 14)
  = Fin 14.
Proof.
  apply (notes_without_digits_keep_interval
           "Loading doses, then maintenance every month" (Fin 14)).
  reflexivity.
Defined.

(** *** Administered dose and demand *)

Section AdministeredSign.

Variable Math_sqrt : number -> number.

Lemma nonneg_add (a b : number) : nonneg a -> nonneg b -> nonneg (JS.add a b).
Proof.
  intros (x & -> & Hx) (y & -> & Hy). exists (x + y).
  split; [reflexivity|]. lra.
Qed.

Lemma nonneg_or_default (a : option number) (d : number) :
  (forall x, a = Some x -> nonneg x) -> nonneg d ->
  nonneg (JS.or_default a d).
Proof.
  intros Ha Hd. unfold JS.or_default. destruct a as [x|]; [|exact Hd].
  destruct (JS.truthy x); [apply Ha; reflexivity|exact Hd].
Qed.

(** X19. The administered dose per patient-year is a finite number that is
    not negative when the maintenance value, the weight, the loading value
    of a schema with positive loading repeats and the configured dose
    intensity are, the resolved interval is positive, and the square root
    of a number that is not negative is not negative. *)
Theorem administered_dose_not_negative (node : Types.TreatmentNode)
  (assumptions : Types.Assumptions) (interval : Q) :
  let dose_schema := Types.dose_schema node in
  (forall x, nonneg x -> nonneg (Math_sqrt x)) ->
  nonneg (Types.value (Types.maintenance dose_schema)) ->
  nonneg (weight_of (Types.avg_weight_kg assumptions)) ->
  resolved_interval dose_schema = Fin interval -> 0 < interval ->
  (forall loading repeats,
     Types.loading dose_schema = Some loading ->
     Types.repeats loading = Some repeats ->
     JS.gt repeats (Fin 0) = true ->
     nonneg (Types.loading_value loading)) ->
  (forall rdi, Types.relative_dose_intensity assumptions = Some rdi ->
               nonneg rdi) ->
  nonneg (calculateAdministeredDose Math_sqrt node assumptions).
Proof.
  intros schema Hsqrt Hvalue Hweight Hint Hpos Hload Hrdi.
  unfold calculateAdministeredDose. fold schema. cbv zeta. rewrite Hint.
  assert (Hbsa : nonneg (bsa_m2 Math_sqrt
                           (weight_of (Types.avg_weight_kg assumptions)))).
  { unfold bsa_m2. apply Hsqrt. destruct Hweight as (w & -> & Hw).
    cbn [JS.mul JS.lift2]. rewrite div_Fin by lra.
    exists (170 * w / 3600). split; [reflexivity|].
    apply Qle_shift_div_l; lra. }
  apply nonneg_mul;
    [|apply nonneg_or_default; [exact Hrdi|exists 1; split; [reflexivity|lra]]].
  apply nonneg_add.
  - destruct (Types.loading schema) as [loading|] eqn:El;
      [|exists 0; split; [reflexivity|lra]].
    destruct (Types.repeats loading) as [repeats|] eqn:Er;
      [|exists 0; split; [reflexivity|lra]].
    destruct (JS.gt repeats (Fin 0)) eqn:G;
      [|exists 0; split; [reflexivity|lra]].
    pose proof (Hload loading repeats eq_refl Er G) as Hlv.
    apply nonneg_mul.
    + destruct (JS.str_includes "kg" _);
        [apply nonneg_mul; assumption|].
      destruct (JS.str_includes "m2" _);
        [apply nonneg_mul; assumption|exact Hlv].
    + destruct repeats as [|q]; [discriminate|]. order_facts.
      exists q. split; [reflexivity|lra].
  - apply nonneg_mul.
    + destruct (effective_type _ _);
        try exact Hvalue; apply nonneg_mul; assumption.
    + rewrite div_Fin by lra. exists (365 / interval).
      split; [reflexivity|]. apply Qle_shift_div_l; lra.
Qed.

End AdministeredSign.

Lemma administered_dose_not_negative_witness :
  nonneg (calculateAdministeredDose (fun x => x) example_node
            example_assumptions).
Proof.
  apply (administered_dose_not_negative (fun x => x) example_node
           example_assumptions 21).
  - intros x H. exact H.
  - exists 6. split; [reflexivity|discriminate].
  - exists 70. split; [reflexivity|discriminate].
  - reflexivity.
  - reflexivity.
  - intros loading repeats H. discriminate H.
  - intros rdi H. injection H as <-. exists 1.
    split; [reflexivity|discriminate].
Defined.

Section DemandNodes.

Variable Math_sqrt : number -> number.

Lemma demand_of_cases (treatment_map : Types.TreatmentMap)
  (assumptions : Types.Assumptions) (p : Types.PopulationNode) :
  match node_of treatment_map p with
  | None => demand_of Math_sqrt treatment_map assumptions p = Ok []
  | Some node =>
      match calculateDispensedDose node assumptions
              (calculateAdministeredDose Math_sqrt node assumptions) with
      | Ok _ =>
          exists d,
            demand_of Math_sqrt treatment_map assumptions p = Ok [d]
            /\ Types.dn_node_id d = Types.pn_node_id p
            /\ Types.dn_treated_patients d
               = JS.round (Types.pn_treated_patients p)
      | Throw e => demand_of Math_sqrt treatment_map assumptions p = Throw e
      | Diverge => demand_of Math_sqrt treatment_map assumptions p = Diverge
      end
  end.
Proof.
  unfold demand_of, node_of.
  destruct (find _ _) as [node|]; [|reflexivity].
  destruct (calculateDispensedDose _ _ _); cbn [bind]; try reflexivity.
  eexists. split; [reflexivity|]. split; reflexivity.
Qed.

(** X20. [calculateDemand] returns one demand node for each population node
    whose id is that of a treatment node, in the order of the population
    nodes, with that id and the treated patients rounded; population nodes
    with an unknown id are left out.  It returns a value exactly when the
    dispensed dose of each of these nodes does. *)
Theorem calculateDemand_known_nodes (treatment_map : Types.TreatmentMap)
  (population_nodes : list Types.PopulationNode)
  (assumptions : Types.Assumptions) :
  (forall demand,
     calculateDemand Math_sqrt treatment_map population_nodes assumptions
     = Ok demand ->
     Forall2 (fun p d =>
                Types.dn_node_id d = Types.pn_node_id p
                /\ Types.dn_treated_patients d
                   = JS.round (Types.pn_treated_patients p))
       (known_nodes treatment_map population_nodes) demand)
  /\ ((exists demand,
         calculateDemand Math_sqrt treatment_map population_nodes assumptions
         = Ok demand)
      <-> Forall (fun p =>
                    forall node, node_of treatment_map p = Some node ->
                    exists dispensed,
                      calculateDispensedDose node assumptions
                        (calculateAdministeredDose Math_sqrt node assumptions)
                      = Ok dispensed)
            population_nodes).
Proof.
  induction population_nodes as [|p ps [IH1 IH2]]; cbn [calculateDemand].
  - split.
    + intros demand H. injection H as <-. constructor.
    + split; [constructor|]. intros _. exists []. reflexivity.
  - pose proof (demand_of_cases treatment_map assumptions p) as Hp.
    unfold known_nodes. cbn [filter]. fold (known_nodes treatment_map ps).
    destruct (node_of treatment_map p) as [node|] eqn:En.
    + destruct (calculateDispensedDose node assumptions _) as [x|e|] eqn:Ed.
      * destruct Hp as (d & Hd & Hid & Htp). rewrite Hd. cbn [bind].
        destruct (calculateDemand Math_sqrt treatment_map ps assumptions)
          as [ds| |]; cbn [bind].
        -- split.
           ++ intros demand H. injection H as <-. cbn [app].
              constructor; [split; assumption|]. apply IH1. reflexivity.
           ++ split; [|intros _; eexists; reflexivity].
              intros _. constructor.
              ** intros n Hn. rewrite En in Hn. injection Hn as <-. exists x.
                 exact Ed.
              ** apply IH2. eexists. reflexivity.
        -- split; [discriminate|]. split; [intros [? H]; discriminate|].
           intro H. apply Forall_inv_tail in H. apply IH2 in H as [? H].
           discriminate.
        -- split; [discriminate|]. split; [intros [? H]; discriminate|].
           intro H. apply Forall_inv_tail in H. apply IH2 in H as [? H].
           discriminate.
      * rewrite Hp. cbn [bind]. split; [discriminate|].
        split; [intros [? H]; discriminate|]. intro H.
        apply Forall_inv in H. destruct (H node En) as [? H'].
        rewrite Ed in H'. discriminate.
      * rewrite Hp. cbn [bind]. split; [discriminate|].
        split; [intros [? H]; discriminate|]. intro H.
        apply Forall_inv in H. destruct (H node En) as [? H'].
        rewrite Ed in H'. discriminate.
    + rewrite Hp. cbn [bind].
      destruct (calculateDemand Math_sqrt treatment_map ps assumptions)
        as [ds| |]; cbn [bind app].
      * split.
        -- intros demand H. injection H as <-. apply IH1. reflexivity.
        -- split; [|intros _; eexists; reflexivity].
           intros _. constructor; [intros n Hn; congruence|]. apply IH2.
           eexists. reflexivity.
      * split; [discriminate|]. split; [intros [? H]; discriminate|].
        intro H. apply Forall_inv_tail in H. apply IH2 in H as [? H].
        discriminate.
      * split; [discriminate|]. split; [intros [? H]; discriminate|].
        intro H. apply Forall_inv_tail in H. apply IH2 in H as [? H].
        discriminate.
Qed.

End DemandNodes.

End Doses.

(* ------------------------------------------------------------------ *)
(** ** Forecast records *)

Section ForecastShape.

Import Forecast.
Local Open Scope string_scope.

Variable Math_sqrt : number -> number.

Lemma in_sequence_keys {I A K : Type} (f : I -> outcome (list A))
  (key : A -> K) (expected : I -> list K) (indices : list I)
  (results : list A) :
  (forall i part, f i = Ok part -> map key part = expected i) ->
  in_sequence (map f indices) = Ok results ->
  map key results = flat_map expected indices.
Proof.
  intro Hf. revert results.
  induction indices as [|i rest IH]; intro results;
    cbn [map in_sequence flat_map].
  - intro H. injection H as <-. reflexivity.
  - destruct (f i) as [part| |] eqn:Ei; cbn [bind]; try discriminate.
    destruct (in_sequence (map f rest)) as [more| |]; cbn [bind];
      try discriminate.
    intro H. injection H as <-.
    rewrite map_app, (Hf i part Ei), (IH more eq_refl). reflexivity.
Qed.

Lemma flat_map_pairs {S T B : Type} (g : S -> T -> B) (xs : list S)
  (ys : list T) :
  flat_map (fun s => map (g s) ys) xs
  = map (fun st => g (fst st) (snd st)) (list_prod xs ys).
Proof.
  induction xs as [|x xs IH]; [reflexivity|]. cbn [flat_map list_prod].
  rewrite map_app, map_map, IH. reflexivity.
Qed.

Lemma year_offsets_count (h : Q) :
  0 <= h -> year_offsets (Fin h) = List.seq 0 (Z.to_nat (Qfloor h) + 1).
Proof.
  intro Hh. unfold year_offsets.
  destruct (Qle_bool 0 h) eqn:E; [reflexivity|].
  apply Qle_bool_iff in Hh. congruence.
Qed.

(** X21. The records of a successful forecast are keyed by scenario, year
    and node: for each scenario in order, each year in order and each node
    of the taxonomy in order there is exactly one record, so their number
    is scenarios times years times nodes.  The years are the offsets from
    0 to the integer part of [horizon_years]; with a horizon that is
    negative or NaN the forecast returns no record at all, whatever the
    other inputs. *)
Theorem generateForecast_shape (treatment_map : Types.TreatmentMap)
  (base_assumptions : Types.Assumptions)
  (base_population : Population.PopulationAllocation)
  (base_demand : list Types.DemandNode) :
  let years := year_offsets (Types.horizon_years base_assumptions) in
  (forall records,
     generateForecast Math_sqrt treatment_map base_assumptions
       base_population base_demand = Ok records ->
     map record_key records
     = flat_map (year_keys treatment_map base_assumptions)
         (list_prod (scenarios_of base_assumptions) years)
     /\ List.length records
        = (List.length (scenarios_of base_assumptions) * List.length years
           * List.length (Types.nodes treatment_map))%nat)
  /\ (forall h, Types.horizon_years base_assumptions = Fin h -> 0 <= h ->
      years = List.seq 0 (Z.to_nat (Qfloor h) + 1))
  /\ (JS.ge (Types.horizon_years base_assumptions) (Fin 0) = false ->
      generateForecast Math_sqrt treatment_map base_assumptions
        base_population base_demand = Ok []).
Proof.
  cbv zeta. split; [|split].
  - intros records H. unfold generateForecast in H.
    fold (scenarios_of base_assumptions) in H.
    rewrite forecast_scenarios_sequence in H. cbn [app] in H.
    rewrite (flat_map_pairs
               (fun s t => forecast_year Math_sqrt treatment_map
                             base_assumptions (fst s) (snd s) t)) in H.
    destruct (in_sequence _) as [more| |] eqn:E; cbn [bind] in H;
      try discriminate.
    injection H as <-.
    assert (Hkeys : map record_key more
                    = flat_map (year_keys treatment_map base_assumptions)
                        (list_prod (scenarios_of base_assumptions)
                           (year_offsets
                              (Types.horizon_years base_assumptions)))).
    { eapply in_sequence_keys; [|exact E].
      intros [[name params] t] part Hpart. cbn [fst snd] in Hpart.
      destruct (forecast_year_records Math_sqrt _ _ _ _ _ _ Hpart)
        as [Hids Hall].
      unfold year_keys. cbn [fst snd].
      rewrite <- (map_map Types.node_id
                    (fun id => (name,
                                JS.add (Types.base_year base_assumptions)
                                  (Fin (inject_Z (Z.of_nat t))), id))).
      rewrite <- Hids, map_map. apply map_ext_in. intros r Hr.
      rewrite Forall_forall in Hall. unfold record_key.
      destruct (Hall r Hr) as [-> ->]. reflexivity. }
    split; [exact Hkeys|].
    rewrite <- (length_map record_key), Hkeys.
    rewrite (flat_map_constant_length
               (c := List.length (Types.nodes treatment_map))).
    + rewrite length_prod. lia.
    + intros run _. unfold year_keys. apply length_map.
  - intros h -> Hh. apply year_offsets_count, Hh.
  - intro Hneg. unfold generateForecast.
    fold (scenarios_of base_assumptions).
    rewrite forecast_scenarios_sequence. cbn [app].
    assert (Hno : year_offsets (Types.horizon_years base_assumptions) = []).
    { unfold year_offsets.
      destruct (Types.horizon_years base_assumptions) as [|h]; [reflexivity|].
      destruct (Qle_bool 0 h) eqn:E; [|reflexivity].
      apply Qle_bool_iff in E. unfold JS.ge in Hneg.
      apply le_Fin_false in Hneg. lra. }
    rewrite Hno.
    induction (scenarios_of base_assumptions) as [|s rest IH];
      [reflexivity|exact IH].
Qed.

End ForecastShape.
